(** * rtl-obs: the spectral accumulation engine of [rtlobs/collect.py]

    A shallow embedding of the three integration runs of [collect.py]
    ([run_total_power_int], [run_spectrum_int], [run_fswitch_int]) and the
    properties their specification states about them.

    Modelling conventions.
    - Python [int] is [Z]; [//] and [%] are [Z.div] and [Z.modulo] (both
      round towards minus infinity, as Python does) and raise
      [ZeroDivisionError] on a zero divisor.
    - A Python float is a rational number [Q].  Where the control flow
      reads a float (the comparison of the assertion on [t_int], every
      [int(...)] and the call limit of the asynchronous read) the
      product or quotient is rounded to double precision by [fl], to
      the nearest value of 53 significant bits, ties to even, as the
      hardware does.  The exponent range is unbounded: overflow to
      infinity and gradual underflow (magnitudes above 1.8e308 or below
      2.2e-308) are not modelled.  An argument written [fl q] is the
      float that the decimal literal of [q] denotes.
    - The values of arrays and the powers returned are carried as exact
      rationals: their rounding and overflow are abstracted away.  numpy's
      non-trapping division is kept: an array element is an [npfloat], a
      rational or one of the IEEE special values.
    - The receiver is an explicit device state threaded through every
      call, together with a chronological log of the calls made to the
      external collaborators (the driver and the signal library).
    - Console output is not modelled; an expression that is only printed
      is evaluated when its evaluation can raise.
    - The collaborators outside the sources ([rtlsdr], [scipy.signal],
      [numpy], [post_process.f_throw_fold]) are parameters or small
      models of their documented behaviour; the device is taken to
      accept every setting and to deliver every block it is asked for. *)

From Stdlib Require Import ZArith QArith Qround List Lia Bool Permutation.
From Stdlib Require Import Qpower Lqa.
From Stdlib Require Ascii.
Import ListNotations.

Set Implicit Arguments.

(** ** Exceptions and results *)

Inductive exn : Type :=
| AssertionError
| ZeroDivisionError
| ValueError
| OSError.

Inductive result (A : Type) : Type :=
| Ok (a : A)
| Raise (e : exn).

Arguments Ok {A} a.
Arguments Raise {A} e.

(** ** Numbers *)

(** [int(x)] on a float: truncation towards zero. *)
Definition py_int (x : Q) : Z :=
  if Qle_bool 0 x then Qfloor x else Qceiling x.

(** [a // b] on ints. *)
Definition py_floordiv (a b : Z) : result Z :=
  if (b =? 0)%Z then Raise ZeroDivisionError else Ok (a / b)%Z.

(** [a / b] on Python numbers (true division) where only the value of
    the quotient matters: it is carried exactly. *)
Definition py_truediv (a b : Q) : result Q :=
  if Qeq_bool b 0 then Raise ZeroDivisionError else Ok (a / b).

(** *** Double precision *)

(** The exponent [e] of a positive number: [2^e <= x < 2^(e+1)]. *)
Definition binade (x : Q) : Z :=
  let e := (Z.log2 (Qnum x) - Z.log2 (Zpos (Qden x)))%Z in
  if Qle_bool (2 ^ e) x then e else (e - 1)%Z.

(** The nearest integer, the even one of two equally near. *)
Definition round_half_even (y : Q) : Z :=
  let f := Qfloor y in
  match Qcompare (y - inject_Z f) (1 # 2) with
  | Lt => f
  | Eq => if Z.even f then f else (f + 1)%Z
  | Gt => (f + 1)%Z
  end.

(** A positive number rounded to 53 significant bits. *)
Definition fl_pos (x : Q) : Q :=
  let u := (binade x - 52)%Z in
  inject_Z (round_half_even (x / 2 ^ u)) * 2 ^ u.

(** The double nearest to [x]: the value a float operation returns
    when its exact result is [x]. *)
Definition fl (x : Q) : Q :=
  match Qcompare x 0 with
  | Eq => 0
  | Gt => fl_pos x
  | Lt => - fl_pos (- x)
  end.

(** [x] is a double. *)
Definition is_double (x : Q) : Prop := fl x == x.

(** [a * b] on floats. *)
Definition float_mul (a b : Q) : Q := fl (a * b).

(** [a / b] on floats, and on ints (true division). *)
Definition float_div (a b : Q) : result Q :=
  if Qeq_bool b 0 then Raise ZeroDivisionError else Ok (fl (a / b)).

(** An element of a numpy float array, or a numpy float scalar. *)
Inductive npfloat : Type :=
| Fin (q : Q)
| PInf
| NInf
| NaN.

Definition np_add (a b : npfloat) : npfloat :=
  match a, b with
  | NaN, _ | _, NaN => NaN
  | Fin x, Fin y => Fin (x + y)
  | PInf, NInf | NInf, PInf => NaN
  | PInf, _ | _, PInf => PInf
  | NInf, _ | _, NInf => NInf
  end.

Definition np_mul (a b : npfloat) : npfloat :=
  match a, b with
  | NaN, _ | _, NaN => NaN
  | Fin x, Fin y => Fin (x * y)
  | Fin x, PInf | PInf, Fin x =>
      match x ?= 0 with Eq => NaN | Gt => PInf | Lt => NInf end
  | Fin x, NInf | NInf, Fin x =>
      match x ?= 0 with Eq => NaN | Gt => NInf | Lt => PInf end
  | PInf, PInf | NInf, NInf => PInf
  | PInf, NInf | NInf, PInf => NInf
  end.

(** numpy division never raises: [x / 0] is [nan] for [x = 0] and an
    infinity of the sign of [x] otherwise (with a warning only). *)
Definition np_div (a b : npfloat) : npfloat :=
  match a, b with
  | NaN, _ | _, NaN => NaN
  | Fin x, Fin y =>
      match y ?= 0 with
      | Eq => match x ?= 0 with Eq => NaN | Gt => PInf | Lt => NInf end
      | _ => Fin (x / y)
      end
  | Fin _, PInf | Fin _, NInf => Fin 0
  | PInf, Fin y => match y ?= 0 with Lt => NInf | _ => PInf end
  | NInf, Fin y => match y ?= 0 with Lt => PInf | _ => NInf end
  | _, _ => NaN
  end.

(** Two values denote the same number. *)
Definition np_equiv (a b : npfloat) : Prop :=
  match a, b with
  | Fin x, Fin y => x == y
  | PInf, PInf | NInf, NInf | NaN, NaN => True
  | _, _ => False
  end.

Definition np_is_finite (a : npfloat) : bool :=
  match a with Fin _ => true | _ => false end.

(** Canonical representative, for reading computed values. *)
Definition np_red (a : npfloat) : npfloat :=
  match a with Fin q => Fin (Qred q) | _ => a end.

(** A complex sample. *)
Record complex : Type := mkC { re : Q; im : Q }.

Definition c_conj (z : complex) : complex := mkC (re z) (- im z).

Definition c_mul (z w : complex) : complex :=
  mkC (re z * re w - im z * im w) (re z * im w + im z * re w).

(** ** Arrays *)

Definition Qsum (l : list Q) : Q := fold_left Qplus l 0.

Definition arange (a b : Z) : list Z :=
  map (fun i => (a + Z.of_nat i)%Z) (seq 0 (Z.to_nat (b - a))).

(** [range(n)]. *)
Definition range (n : Z) : list Z := arange 0 n.

Definition len {A : Type} (l : list A) : Z := Z.of_nat (length l).

(** [np.zeros(n)]. *)
Definition np_zeros {A : Type} (zero : A) (n : Z) : result (list A) :=
  if (n <? 0)%Z then Raise ValueError else Ok (repeat zero (Z.to_nat n)).

Fixpoint zip_with {A B C : Type} (f : A -> B -> C) (a : list A) (b : list B)
  : list C :=
  match a, b with
  | x :: a', y :: b' => f x y :: zip_with f a' b'
  | _, _ => []
  end.

(** [a += b] on one-dimensional arrays: [b] has the shape of [a] or is
    broadcast from a single element; any other shape is a [ValueError]. *)
Definition np_iadd (a b : list npfloat) : result (list npfloat) :=
  if (length b =? length a)%nat then Ok (zip_with np_add a b)
  else match b with
       | [y] => Ok (map (fun x => np_add x y) a)
       | _ => Raise ValueError
       end.

(** [np.fft.fftshift]: a roll by [n // 2], so the last [n // 2] elements
    come first. *)
Definition fftshift {A : Type} (l : list A) : list A :=
  let k := (length l - length l / 2)%nat in
  skipn k l ++ firstn k l.

(** [np.fft.fftfreq(n, d)]: the two-sided bin order, zero first, the
    negative frequencies wrapped to the end. *)
Definition fftfreq (n : Z) (d : Q) : list Q :=
  let val := 1 / (inject_Z n * d) in
  let N := ((n - 1) / 2 + 1)%Z in
  map (fun k => inject_Z k * val) (arange 0 N ++ arange (- (n / 2)) 0).

(** ** The receiver and the call log *)

(** One call to an external collaborator: the driver ([RtlSdr]) or the
    signal library ([scipy.signal.welch]). *)
Inductive event : Type :=
| EvOpen
| EvSetRate (r : Q)
| EvSetFc (f : Q)
| EvSetGain (g : Q)
| EvRead (n : Z)
| EvClose
| EvWelch (fs : Q) (nperseg : Z) (nfft : option Z).

(** The device registers, the number of samples delivered so far and the
    chronological log of calls. *)
Record world : Type := mkWorld {
  w_rs : Q;
  w_fc : Q;
  w_gain : Q;
  w_pos : nat;
  w_log : list event
}.

Definition world0 : world := mkWorld 0 0 0 0 [].

(** Computations that read and write the world and may raise. *)
Definition M (A : Type) : Type := world -> result A * world.

Definition ret {A : Type} (a : A) : M A := fun w => (Ok a, w).

Definition bind {A B : Type} (m : M A) (k : A -> M B) : M B :=
  fun w =>
    match m w with
    | (Ok a, w') => k a w'
    | (Raise e, w') => (Raise e, w')
    end.

Definition raise {A : Type} (e : exn) : M A := fun w => (Raise e, w).

Definition lift {A : Type} (r : result A) : M A := fun w => (r, w).

Declare Scope monad_scope.
Delimit Scope monad_scope with monad.
Notation "x <- m ;; k" := (bind m (fun x => k))
  (at level 61, m at next level, right associativity) : monad_scope.
Notation "' p <- m ;; k" := (bind m (fun x => match x with p => k end))
  (at level 61, p pattern, m at next level, right associativity) : monad_scope.
Notation "m ;; k" := (bind m (fun _ => k))
  (at level 61, right associativity) : monad_scope.
Open Scope monad_scope.

(** [try: body finally: fin]; the [except] clauses of the source only
    print and re-raise. *)
Definition try_finally {A : Type} (body : M A) (fin : M unit) : M A :=
  fun w =>
    let (r, w1) := body w in
    match fin w1 with
    | (Ok _, w2) => (r, w2)
    | (Raise e, w2) => (Raise e, w2)
    end.

(** [for i in l: s = body(i, s)]. *)
Fixpoint for_each {S : Type} (l : list Z) (body : Z -> S -> M S) (s : S)
  : M S :=
  match l with
  | [] => ret s
  | i :: l' => s' <- body i s ;; for_each l' body s'
  end.

Definition emit (e : event) : M unit :=
  fun w => (Ok tt, mkWorld (w_rs w) (w_fc w) (w_gain w) (w_pos w)
                           (w_log w ++ [e])).

(** [RtlSdr()]. *)
Definition sdr_open : M unit := emit EvOpen.

(** [sdr.close()]. *)
Definition sdr_close : M unit := emit EvClose.

(** [sdr.rs = r]; the device is taken to accept the requested rate and to
    report it back unchanged. *)
Definition sdr_set_rs (r : Q) : M unit :=
  fun w => (Ok tt, mkWorld r (w_fc w) (w_gain w) (w_pos w)
                           (w_log w ++ [EvSetRate r])).

(** [sdr.fc = f]. *)
Definition sdr_set_fc (f : Q) : M unit :=
  fun w => (Ok tt, mkWorld (w_rs w) f (w_gain w) (w_pos w)
                           (w_log w ++ [EvSetFc f])).

(** [sdr.gain = g]. *)
Definition sdr_set_gain (g : Q) : M unit :=
  fun w => (Ok tt, mkWorld (w_rs w) (w_fc w) g (w_pos w)
                           (w_log w ++ [EvSetGain g])).

(** [sdr.rs] read back. *)
Definition sdr_get_rs : M Q := fun w => (Ok (w_rs w), w).

Section Engine.

(** The sky: sample number [k] as delivered while tuned to [f]. *)
Variable feed : Q -> nat -> complex.

(** The power estimate of [scipy.signal.welch] with a Hann window, no
    overlap, no detrending, power-spectrum scaling and a two-sided
    result: block, sample rate, segment length, transform length. *)
Variable periodogram : list complex -> Q -> Z -> Z -> list Q.

(** [scipy.signal.get_window('hann', n)]. *)
Variable get_window : Z -> list Q.

(** [np.log10] on positive numbers. *)
Variable log10 : Q -> Q.

(** [np.log10] on array elements. *)
Definition np_log10 (a : npfloat) : npfloat :=
  match a with
  | Fin x => match x ?= 0 with
             | Gt => Fin (log10 x)
             | Eq => NInf
             | Lt => NaN
             end
  | PInf => PInf
  | _ => NaN
  end.

(** [sdr.read_samples(n)]: a block of [n] samples at the tuned
    frequency; the driver cannot allocate a buffer of negative length. *)
Definition sdr_read_samples (n : Z) : M (list complex) :=
  fun w =>
    let w' := mkWorld (w_rs w) (w_fc w) (w_gain w) (w_pos w)
                      (w_log w ++ [EvRead n]) in
    if (n <? 0)%Z then (Raise ValueError, w')
    else (Ok (map (feed (w_fc w)) (seq (w_pos w) (Z.to_nat n))),
          mkWorld (w_rs w) (w_fc w) (w_gain w) (w_pos w + Z.to_nat n)%nat
                  (w_log w ++ [EvRead n])).

(** [scipy.signal.welch(x, fs=fs, nperseg=nperseg, nfft=nfft,
    noverlap=0, scaling='spectrum', detrend=False,
    return_onesided=False)]: the argument checks of the library, the
    frequency axis [fftfreq(nfft, 1/fs)] and the power estimate.  A
    segment longer than the block is shortened to the block; a missing
    [nfft] is the segment length. *)
Definition welch (x : list complex) (fs : Q) (nperseg : Z)
           (nfft : option Z) : M (list Q * list npfloat) :=
  emit (EvWelch fs nperseg nfft) ;;
  if (len x =? 0)%Z then ret ([], [])
  else if (nperseg <? 1)%Z then raise ValueError
  else
    let nperseg' := if (nperseg >? len x)%Z then len x else nperseg in
    let nfft' := match nfft with None => nperseg' | Some n => n end in
    if (nfft' <? nperseg')%Z then raise ValueError
    else
      d <- lift (py_truediv 1 fs) ;;
      ret (fftfreq nfft' d, map Fin (periodogram x fs nperseg' nfft')).

(** ** Total power ([run_total_power_int]) *)

(** The running total [p_tot]: the Python float [0.0] until the first
    block is added, a numpy scalar from then on. *)
Inductive pyfloat : Type :=
| PyFloat (q : Q)
| NpFloat64 (x : npfloat).

Definition as_np (p : pyfloat) : npfloat :=
  match p with PyFloat q => Fin q | NpFloat64 x => x end.

(** [np.real(z * np.conj(z))] for one sample. *)
Definition sample_power (z : complex) : Q := re (c_mul z (c_conj z)).

(** [np.sum(np.real(iq * np.conj(iq)))]. *)
Definition block_power (iq : list complex) : Q := Qsum (map sample_power iq).

(** The body of [p_tot_callback] on the globals [(p_tot, cnt)]. *)
Definition p_tot_callback (iq : list complex) (st : pyfloat * Z)
  : pyfloat * Z :=
  let '(p_tot, cnt) := st in
  (NpFloat64 (np_add (as_np p_tot) (Fin (block_power iq))), (cnt + 1)%Z).

(** [p_avg = p_tot / (num_samp * cnt)]: Python's division raises on a
    zero divisor, numpy's does not. *)
Definition total_power_average (num_samp : Z) (st : pyfloat * Z)
  : result pyfloat :=
  let '(p_tot, cnt) := st in
  let d := inject_Z (num_samp * cnt) in
  match p_tot with
  | PyFloat q =>
      match py_truediv q d with
      | Ok r => Ok (PyFloat r)
      | Raise e => Raise e
      end
  | NpFloat64 x => Ok (NpFloat64 (np_div x (Fin d)))
  end.

(** [helpers.limit_calls(max_calls)]: the wrapper counts its calls and
    hands a block to the callback while the count does not exceed
    [max_calls]; in the first call whose count exceeds it the wrapper
    cancels the stream and returns without running the callback.  The
    callback therefore runs this many times. *)
Definition limit_calls (max_calls : Q) : Z := Z.max 0 (Qfloor max_calls).

(** [sdr.read_samples_async(callback, num_samples)] with a callback
    wrapped by [limit_calls]: [calls] blocks go to the callback, one
    more block is delivered to the wrapper, which drops it and cancels
    the stream. *)
Definition sdr_read_samples_async {S : Type}
           (callback : list complex -> S -> S) (calls : Z) (num_samples : Z)
           (s : S) : M S :=
  s' <- for_each (range calls)
                 (fun _ s => iq <- sdr_read_samples num_samples ;;
                             ret (callback iq s)) s ;;
  sdr_read_samples num_samples ;;
  ret s'.

(** [num_samp * cnt / rate], the effective integration time that every
    run prints after its loop. *)
Definition effective_time (num_samp cnt : Z) (rate : Q) : result Q :=
  py_truediv (inject_Z (num_samp * cnt)) rate.

Definition run_total_power_int (num_samp : Z) (gain rate fc t_int : Q)
  : M pyfloat :=
  sdr_open ;;
  try_finally
    (sdr_set_rs rate ;;
     sdr_set_fc fc ;;
     sdr_set_gain gain ;;
     rs <- sdr_get_rs ;;
     let N := py_int (float_mul rs t_int) in
     max_calls <- lift (float_div (inject_Z N) (inject_Z num_samp)) ;;
     let p_tot := PyFloat 0 in
     let cnt := 0%Z in
     st <- sdr_read_samples_async p_tot_callback (limit_calls max_calls)
                                  num_samp (p_tot, cnt) ;;
     lift (effective_time num_samp (snd st) rate) ;;
     p_avg <- lift (total_power_average num_samp st) ;;
     sdr_close ;;
     ret p_avg)
    sdr_close.

(** ** Averaged spectrum ([run_spectrum_int]) *)

(** Lines 126-129: the segment length handed to [welch]. *)
Definition spectrum_nperseg (nbins : Z) : Z :=
  if (nbins <? 256)%Z then nbins else 256%Z.

(** The loop variables [(freqs, p_xx_tot, cnt)]. *)
Definition spectrum_acc : Type := (list Q * list npfloat * Z)%type.

(** One turn of [for cnt in range(num_loops)]. *)
Definition spectrum_step (num_samp nbins : Z) (rate : Q) (nperseg : Z)
           (i : Z) (s : spectrum_acc) : M spectrum_acc :=
  let '(_, p_xx_tot, _) := s in
  iq <- sdr_read_samples num_samp ;;
  '(freqs, p_xx) <- welch iq rate nperseg (Some nbins) ;;
  p_xx_tot' <- lift (np_iadd p_xx_tot p_xx) ;;
  ret (freqs, p_xx_tot', i).

(** Lines 135-177: configuration and the integration loop. *)
Definition spectrum_integrate (num_samp nbins : Z) (gain rate fc t_int : Q)
  : M spectrum_acc :=
  let nperseg := spectrum_nperseg nbins in
  sdr_set_rs rate ;;
  sdr_set_fc fc ;;
  sdr_set_gain gain ;;
  rs <- sdr_get_rs ;;
  let N := py_int (float_mul rs t_int) in
  q <- lift (float_div (inject_Z N) (inject_Z num_samp)) ;;
  let num_loops := (py_int q + 1)%Z in
  freqs <- lift (np_zeros 0 nbins) ;;
  p_xx_tot <- lift (np_zeros (Fin 0) nbins) ;;
  let cnt := 0%Z in
  for_each (range num_loops) (spectrum_step num_samp nbins rate nperseg)
           (freqs, p_xx_tot, cnt).

(** [p_avg = p_xx_tot / cnt]. *)
Definition spectrum_average (p_xx_tot : list npfloat) (cnt : Z)
  : list npfloat :=
  map (fun p => np_div p (Fin (inject_Z cnt))) p_xx_tot.

(** [(win.sum()**2) / (win*win).sum()]. *)
Definition window_correction (win : list Q) : npfloat :=
  np_div (Fin (Qsum win ^ 2)) (Fin (Qsum (map (fun w => w * w) win))).

(** [p_avg_hz = p_avg * ((win.sum()**2) / (win*win).sum()) / rate]. *)
Definition psd_of_power (win : list Q) (rate : Q) (p_avg : list npfloat)
  : list npfloat :=
  map (fun p => np_div (np_mul p (window_correction win)) (Fin rate)) p_avg.

(** [p_avg_db_hz = 10. * np.log10(p_avg_hz)]. *)
Definition db_of_psd (p_avg_hz : list npfloat) : list npfloat :=
  map (fun p => np_mul (Fin 10) (np_log10 p)) p_avg_hz.

(** [freqs = freqs + fc]. *)
Definition recentre (fc : Q) (freqs : list Q) : list Q :=
  map (fun f => f + fc) freqs.

(** Lines 188-212: from the loop variables to the returned pair. *)
Definition spectrum_finish (nbins : Z) (rate fc : Q) (s : spectrum_acc)
  : list Q * list npfloat :=
  let '(freqs, p_xx_tot, cnt) := s in
  let nperseg := spectrum_nperseg nbins in
  let freqs := fftshift freqs in
  let p_xx_tot := fftshift p_xx_tot in
  let p_avg := spectrum_average p_xx_tot cnt in
  let win := get_window nperseg in
  let p_avg_hz := psd_of_power win rate p_avg in
  let p_avg_db_hz := db_of_psd p_avg_hz in
  let freqs := recentre fc freqs in
  (freqs, p_avg_db_hz).

Definition run_spectrum_int (num_samp nbins : Z) (gain rate fc t_int : Q)
  : M (list Q * list npfloat) :=
  sdr_open ;;
  try_finally
    (s <- spectrum_integrate num_samp nbins gain rate fc t_int ;;
     lift (effective_time num_samp (snd s) rate) ;;
     let out := spectrum_finish nbins rate fc s in
     sdr_close ;;
     ret out)
    sdr_close.

(** ** Frequency switching ([run_fswitch_int]) *)

(** The folded pair returned by [f_throw_fold]. *)
Definition folded : Type := (list Q * list npfloat)%type.

(** [post_process.f_throw_fold(freqs_on, freqs_off, p_on, p_off)]; the
    module is not part of the sources at hand, so the fold is a parameter
    of the run. *)
Variable f_throw_fold :
  list Q -> list Q -> list npfloat -> list npfloat -> result folded.

(** Line 258: [assert t_int >= 2.0 * (1.0/fswitch)]. *)
Definition fswitch_check (t_int fswitch : Q) : result unit :=
  match float_div 1 fswitch with
  | Raise e => Raise e
  | Ok d =>
      if Qle_bool (float_mul 2 d) t_int then Ok tt
      else Raise AssertionError
  end.

(** The loop variables of the switching loop. *)
Record fswitch_acc : Type := mkAcc {
  freqs_on : list Q;
  freqs_off : list Q;
  p_xx_on : list npfloat;
  p_xx_off : list npfloat;
  cnt : Z
}.

(** One turn of [for j in range(num_loops)]. *)
Definition fswitch_step (num_samp nbins : Z) (rate : Q) (tick : bool)
           (j : Z) (s : fswitch_acc) : M fswitch_acc :=
  iq <- sdr_read_samples num_samp ;;
  if tick then
    '(f, p_xx) <- welch iq rate nbins None ;;
    p <- lift (np_iadd (p_xx_on s) p_xx) ;;
    ret (mkAcc f (freqs_off s) p (p_xx_off s) (cnt s + 1))
  else
    '(f, p_xx) <- welch iq rate nbins None ;;
    p <- lift (np_iadd (p_xx_off s) p_xx) ;;
    ret (mkAcc (freqs_on s) f (p_xx_on s) p (cnt s + 1)).

(** One turn of [for i in range(num_dwells)]. *)
Definition fswitch_dwell (num_samp nbins : Z) (rate fc fthrow : Q)
           (num_loops : Z) (i : Z) (s : fswitch_acc) : M fswitch_acc :=
  let tick := (i mod 2 =? 0)%Z in
  (if tick then sdr_set_fc fc else sdr_set_fc fthrow) ;;
  for_each (range num_loops) (fswitch_step num_samp nbins rate tick) s.

(** Lines 277-283: the dwell plan [(num_loops, num_dwells)]. *)
Definition fswitch_plan (num_samp : Z) (rs t_int fswitch : Q)
  : result (Z * Z) :=
  let N := py_int (float_mul rs t_int) in
  match float_div 1 fswitch with
  | Raise e => Raise e
  | Ok d =>
      let N_dwell := py_int (float_mul rs d) in
      match py_floordiv N_dwell num_samp with
      | Raise e => Raise e
      | Ok num_loops =>
          match py_floordiv N N_dwell with
          | Raise e => Raise e
          | Ok num_dwells => Ok (num_loops, num_dwells)
          end
      end
  end.

(** Lines 267-319: configuration and the switching loop. *)
Definition fswitch_integrate (num_samp nbins : Z)
           (gain rate fc fthrow t_int fswitch : Q) : M fswitch_acc :=
  sdr_set_rs rate ;;
  sdr_set_fc fc ;;
  sdr_set_gain gain ;;
  rs <- sdr_get_rs ;;
  '(num_loops, num_dwells) <- lift (fswitch_plan num_samp rs t_int fswitch) ;;
  freqs_on <- lift (np_zeros 0 nbins) ;;
  freqs_off <- lift (np_zeros 0 nbins) ;;
  p_xx_on <- lift (np_zeros (Fin 0) nbins) ;;
  p_xx_off <- lift (np_zeros (Fin 0) nbins) ;;
  let cnt := 0%Z in
  for_each (range num_dwells)
           (fswitch_dwell num_samp nbins rate fc fthrow num_loops)
           (mkAcc freqs_on freqs_off p_xx_on p_xx_off cnt).

(** The four arguments handed to the fold. *)
Record fold_args : Type := mkFoldArgs {
  fa_freqs_on : list Q;
  fa_freqs_off : list Q;
  fa_p_avg_on : list npfloat;
  fa_p_avg_off : list npfloat
}.

(** Lines 326-338: from the loop variables to the arguments of the fold. *)
Definition fswitch_finish (fc fthrow : Q) (s : fswitch_acc) : fold_args :=
  let freqs_on := fftshift (freqs_on s) in
  let freqs_off := fftshift (freqs_off s) in
  let p_xx_on := fftshift (p_xx_on s) in
  let p_xx_off := fftshift (p_xx_off s) in
  let p_avg_on := spectrum_average p_xx_on (cnt s) in
  let p_avg_off := spectrum_average p_xx_off (cnt s) in
  let freqs_on := recentre fc freqs_on in
  let freqs_off := recentre fthrow freqs_off in
  mkFoldArgs freqs_on freqs_off p_avg_on p_avg_off.

(** Lines 267-338: everything of the [try] block before the fold. *)
Definition fswitch_prepare (num_samp nbins : Z)
           (gain rate fc fthrow t_int fswitch : Q) : M fold_args :=
  s <- fswitch_integrate num_samp nbins gain rate fc fthrow t_int fswitch ;;
  lift (effective_time num_samp (cnt s) rate) ;;
  ret (fswitch_finish fc fthrow s).

Definition run_fswitch_int (num_samp nbins : Z)
           (gain rate fc fthrow t_int fswitch : Q) : M folded :=
  lift (fswitch_check t_int fswitch) ;;
  sdr_open ;;
  try_finally
    (a <- fswitch_prepare num_samp nbins gain rate fc fthrow t_int fswitch ;;
     out <- lift (f_throw_fold (fa_freqs_on a) (fa_freqs_off a)
                               (fa_p_avg_on a) (fa_p_avg_off a)) ;;
     sdr_close ;;
     ret out)
    sdr_close.

End Engine.

(** ** A test bench: concrete collaborators for running the model *)

Module Bench.

(** A carrier of unit power, whatever the tuning. *)
Definition feed (f : Q) (k : nat) : complex := mkC 1 0.

(** A flat estimate: the mean sample power of the block in every bin. *)
Definition periodogram (x : list complex) (fs : Q) (nperseg nfft : Z)
  : list Q :=
  repeat (block_power x / inject_Z (len x)) (Z.to_nat nfft).

(** A probe in the place of the estimate: every bin reports the segment
    length the estimate was made with. *)
Definition segment_probe (x : list complex) (fs : Q) (nperseg nfft : Z)
  : list Q :=
  repeat (inject_Z nperseg) (Z.to_nat nfft).

(** The periodic Hann window where its samples are rational (lengths 1, 2
    and 4); a rectangular window stands in elsewhere. *)
Definition get_window (n : Z) : list Q :=
  match n with
  | 2%Z => [0; 1]
  | 4%Z => [0; 1 # 2; 1; 1 # 2]
  | _ => repeat 1 (Z.to_nat n)
  end.

(** The decimal logarithm on the powers of ten the bench meets; zero
    stands in elsewhere. *)
Definition log10 (x : Q) : Q :=
  if Qeq_bool x 1 then 0
  else if Qeq_bool x 10 then 1
  else if Qeq_bool x (1 # 10) then - (1)
  else 0.

(** A fold that hands back the ON spectrum. *)
Definition f_throw_fold (freqs_on freqs_off : list Q)
           (p_on p_off : list npfloat) : result folded :=
  Ok (freqs_on, p_on).

End Bench.

(** ** Observations on runs, and the scheduler of the specification *)

(** The globals after the callback has run on each block in turn. *)
Definition accumulate (blocks : list (list complex)) (st : pyfloat * Z)
  : pyfloat * Z :=
  fold_left (fun st iq => p_tot_callback iq st) blocks st.

(** The world once the device has been opened. *)
Definition opened (w : world) : world := snd (sdr_open w).

(** The calls logged by one turn of the spectrum loop. *)
Definition spectrum_turn_log (num_samp nbins : Z) (rate : Q) : list event :=
  [EvRead num_samp; EvWelch rate (spectrum_nperseg nbins) (Some nbins)].

(** The transform length [welch] settles on in the switched run: the
    requested segment, shortened to the block when the block is shorter. *)
Definition fswitch_nfft (num_samp nbins : Z) : Z :=
  if (nbins >? num_samp)%Z then num_samp else nbins.

(** The calls logged by one turn of the inner switching loop. *)
Definition fswitch_turn_log (num_samp nbins : Z) (rate : Q) : list event :=
  [EvRead num_samp; EvWelch rate nbins None].

(** An axis is centred at [c]: when it has bins, the bin in the middle
    is [c]. *)
Definition centred_at (c : Q) (axis : list Q) : Prop :=
  axis <> [] ->
  exists v, nth_error axis (length axis / 2) = Some v /\ v == c.

(** [out] is [raw] rotated as [fftshift] rotates, then mapped through
    [f] element by element. *)
Definition rotated {A B : Type} (f : A -> B) (raw : list A) (out : list B)
  : Prop :=
  length out = length raw /\
  forall i,
    (i < length raw)%nat ->
    nth_error out i =
    option_map f
      (nth_error raw ((i + (length raw - length raw / 2)) mod length raw)).

(** Every call the computation logs satisfies [P], whether it returns or
    raises. *)
Definition emits {A : Type} (P : event -> Prop) (m : M A) : Prop :=
  forall w, exists evs, w_log (snd (m w)) = w_log w ++ evs /\ Forall P evs.

(** The segment lengths requested from [welch], in order. *)
Definition welch_segments (log : list event) : list Z :=
  flat_map (fun e => match e with EvWelch _ n _ => [n] | _ => [] end) log.

(** The scheduler as the specification words it: a machine with two
    states that starts in [ON], collects [num_loops] blocks per dwell while
    tuned to the frequency of its state, routes every block to the
    accumulator of its state, and flips after each dwell. *)
Inductive sched_state : Type := ON | OFF.

Definition sched_flip (st : sched_state) : sched_state :=
  match st with ON => OFF | OFF => ON end.

Definition sched_tuning (fc fthrow : Q) (st : sched_state) : Q :=
  match st with ON => fc | OFF => fthrow end.

(** Add one periodogram to the accumulator of the state. *)
Definition sched_route (st : sched_state) (f : list Q)
           (p_xx : list npfloat) (s : fswitch_acc) : result fswitch_acc :=
  match st with
  | ON =>
      match np_iadd (p_xx_on s) p_xx with
      | Ok p => Ok (mkAcc f (freqs_off s) p (p_xx_off s) (cnt s + 1))
      | Raise e => Raise e
      end
  | OFF =>
      match np_iadd (p_xx_off s) p_xx with
      | Ok p => Ok (mkAcc (freqs_on s) f (p_xx_on s) p (cnt s + 1))
      | Raise e => Raise e
      end
  end.

Section SchedulerMachine.

Variable feed : Q -> nat -> complex.
Variable periodogram : list complex -> Q -> Z -> Z -> list Q.
Variables num_samp nbins : Z.
Variables rate fc fthrow : Q.

(** One dwell: [blocks] consecutive blocks in state [st]. *)
Fixpoint sched_collect (st : sched_state) (blocks : nat) (s : fswitch_acc)
  : M fswitch_acc :=
  match blocks with
  | O => ret s
  | S blocks' =>
      iq <- sdr_read_samples feed num_samp ;;
      '(f, p_xx) <- welch periodogram iq rate nbins None ;;
      s' <- lift (sched_route st f p_xx s) ;;
      sched_collect st blocks' s'
  end.

(** [dwells] dwells of [blocks] blocks each, from state [st]. *)
Fixpoint sched_run (st : sched_state) (blocks dwells : nat)
         (s : fswitch_acc) : M fswitch_acc :=
  match dwells with
  | O => ret s
  | S dwells' =>
      sdr_set_fc (sched_tuning fc fthrow st) ;;
      s' <- sched_collect st blocks s ;;
      sched_run (sched_flip st) blocks dwells' s'
  end.

End SchedulerMachine.

(** The scheduler state that the loop index parity [tick] selects. *)
Definition sched_of_tick (tick : bool) : sched_state :=
  if tick then ON else OFF.

(** ** Further observations *)

(** The squared magnitude I^2 + Q^2 of a sample. *)
Definition magnitude2 (z : complex) : Q := re z ^ 2 + im z ^ 2.

(** A sample scaled by the real factor [g]. *)
Definition c_scale (g : Q) (z : complex) : complex :=
  mkC (g * re z) (g * im z).

(** The [n] samples the device hands out from position [pos] on while
    tuned to [f]. *)
Definition delivered (feed : Q -> nat -> complex) (f : Q) (pos n : nat)
  : list complex :=
  map (feed f) (seq pos n).

(** A result is a return, not an exception. *)
Definition is_ok {A : Type} (r : result A) : bool :=
  match r with Ok _ => true | Raise _ => false end.

(** A call other than opening or closing the device. *)
Definition quiet (e : event) : Prop := e <> EvOpen /\ e <> EvClose.

(** Between the worlds [w] and [w'] the device was opened once, used, and
    closed: twice when the run returned (once at the end of the [try]
    block and once in [finally]), once when it raised. *)
Definition released (w w' : world) (returned : bool) : Prop :=
  exists body,
    Forall quiet body /\
    w_log w' =
    w_log w ++ EvOpen :: body ++
          (if returned then [EvClose; EvClose] else [EvClose]).

(** The computation logs only quiet calls and, when it returns, one
    closing of the device at its very end. *)
Definition closes_on_return {A : Type} (m : M A) : Prop :=
  forall w,
  exists body,
    Forall quiet body /\
    w_log (snd (m w)) =
    w_log w ++ body ++ (if is_ok (fst (m w)) then [EvClose] else []).

(** The segment length [welch] works with: the requested one, shortened
    to the block when the block is shorter. *)
Definition welch_segment (nperseg block_len : Z) : Z :=
  if (nperseg >? block_len)%Z then block_len else nperseg.

(** The periodograms of [n] consecutive blocks of [ns] samples, read from
    position [pos] on while tuned to [f]. *)
Definition block_periodograms
           (feed : Q -> nat -> complex)
           (periodogram : list complex -> Q -> Z -> Z -> list Q)
           (f rate : Q) (nperseg nfft : Z) (pos ns n : nat)
  : list (list Q) :=
  map (fun j => periodogram (delivered feed f (pos + j * ns) ns) rate
                            nperseg nfft)
      (seq 0 n).

(** The accumulator [p0] after each periodogram of [ps] was added to it
    bin by bin. *)
Definition accumulate_spectrum (ps : list (list Q)) (p0 : list npfloat)
  : list npfloat :=
  fold_left (fun acc p => zip_with np_add acc (map Fin p)) ps p0.

(** The log of a run that raised right after configuring the device. *)
Definition configured_log (w : world) (gain rate fc : Q) : list event :=
  w_log w ++ [EvOpen; EvSetRate rate; EvSetFc fc; EvSetGain gain; EvClose].

(** ** Writing a spectrum ([save_spectrum]) *)










(** The number of blocks a log shows as read while the device was tuned
    to [f]; [tuned] is the tuning before the first call of the log. *)
Fixpoint reads_at (f tuned : Q) (log : list event) : nat :=
  match log with
  | [] => 0
  | EvSetFc g :: l => reads_at f g l
  | EvRead _ :: l =>
      ((if Qeq_bool tuned f then 1 else 0) + reads_at f tuned l)%nat
  | _ :: l => reads_at f tuned l
  end.

(** The calls logged by dwell number [i] of the switching loop. *)
Definition fswitch_dwell_log (num_samp nbins : Z) (rate fc fthrow : Q)
           (num_loops : Z) (i : Z) : list event :=
  EvSetFc (if (i mod 2 =? 0)%Z then fc else fthrow) ::
  flat_map (fun _ => fswitch_turn_log num_samp nbins rate) (range num_loops).

(** * Properties *)

(** ** Reasoning about computations *)

Lemma bind_ok_inv {A B : Type} (m : M A) (k : A -> M B) w b w' :
  bind m k w = (Ok b, w') ->
  exists a w1, m w = (Ok a, w1) /\ k a w1 = (Ok b, w').
Proof.
  unfold bind. destruct (m w) as [[a | e] w1]; intros H.
  - exists a, w1. split; [reflexivity | exact H].
  - discriminate H.
Qed.

Lemma bind_ok {A B : Type} (m : M A) (k : A -> M B) w a w1 :
  m w = (Ok a, w1) -> bind m k w = k a w1.
Proof. intros H. unfold bind. rewrite H. reflexivity. Qed.

Lemma lift_ok_inv {A : Type} (r : result A) w a w' :
  lift r w = (Ok a, w') -> r = Ok a /\ w' = w.
Proof. unfold lift. intros H. inversion H. split; reflexivity. Qed.

Lemma ret_ok_inv {A : Type} (x : A) w a w' :
  ret x w = (Ok a, w') -> a = x /\ w' = w.
Proof. unfold ret. intros H. inversion H. split; reflexivity. Qed.

Lemma try_finally_ok_inv {A : Type} (body : M A) (fin : M unit) w a w' :
  try_finally body fin w = (Ok a, w') ->
  exists w1, body w = (Ok a, w1) /\ fin w1 = (Ok tt, w').
Proof.
  unfold try_finally. destruct (body w) as [r w1].
  destruct (fin w1) as [[[] | e] w2] eqn:Hf; intros H; inversion H; subst.
  exists w1. split; [reflexivity | exact Hf].
Qed.

(** A loop that succeeds maintains any invariant its body maintains; the
    invariant may mention the indices already visited. *)
Lemma for_each_inv {S : Type} (I : list Z -> S -> world -> Prop)
      (body : Z -> S -> M S) (l : list Z) :
  (forall visited i rest s w s' w',
      l = visited ++ i :: rest ->
      I visited s w -> body i s w = (Ok s', w') -> I (visited ++ [i]) s' w') ->
  forall s w s' w',
    I [] s w ->
    for_each l body s w = (Ok s', w') ->
    I l s' w'.
Proof.
  intros Hbody.
  assert (Hgen : forall todo visited s w s' w',
             l = visited ++ todo ->
             I visited s w ->
             for_each todo body s w = (Ok s', w') ->
             I l s' w').
  { induction todo as [| i todo IH]; intros visited s w s' w' Hl HI Hrun.
    - simpl in Hrun. apply ret_ok_inv in Hrun as [-> ->].
      rewrite app_nil_r in Hl. subst l. exact HI.
    - simpl in Hrun. apply bind_ok_inv in Hrun as (s1 & w1 & Hb & Hrest).
      apply (IH (visited ++ [i]) s1 w1 s' w').
      + rewrite <- app_assoc. exact Hl.
      + eapply Hbody; eassumption.
      + exact Hrest. }
  intros s w s' w' HI Hrun. eapply (Hgen l []); eauto.
Qed.

(** ** Double precision

    What the proofs need of rounding: it is monotone, keeps the sign,
    leaves a double alone, and commutes with doubling. *)

Lemma two_pow_pos e : 0 < 2 ^ e.
Proof. apply Qpower_0_lt. reflexivity. Qed.

Lemma two_pow_nonzero e : ~ 2 ^ e == 0.
Proof. intros H. pose proof (two_pow_pos e) as P. rewrite H in P.
  discriminate P. Qed.

Lemma inject_Z_two_pow n : (0 <= n)%Z -> inject_Z (2 ^ n) == 2 ^ n.
Proof. intros H. apply (Zpower_Qpower 2 n H). Qed.

Lemma binade_spec x : 0 < x -> 2 ^ binade x <= x /\ x < 2 ^ (binade x + 1).
Proof.
  intros Hx. destruct x as [n d]. 
  assert (Hn : (0 < n)%Z).
  { unfold Qlt in Hx. simpl in Hx. lia. }
  unfold binade. cbn [Qnum Qden].
  set (a := Z.log2 n). set (b := Z.log2 (Z.pos d)).
  pose proof (Z.log2_nonneg n) as Ha0. fold a in Ha0.
  pose proof (Z.log2_nonneg (Z.pos d)) as Hb0. fold b in Hb0.
  destruct (Z.log2_spec n Hn) as [Ha1 Ha2]. fold a in Ha1, Ha2.
  destruct (Z.log2_spec (Z.pos d) ltac:(lia)) as [Hb1 Hb2].
  fold b in Hb1, Hb2.
  assert (Pa : (0 < 2 ^ a)%Z) by (apply Z.pow_pos_nonneg; lia).
  assert (Pb : (0 < 2 ^ b)%Z) by (apply Z.pow_pos_nonneg; lia).
  assert (Hup : n # d < 2 ^ (a - b + 1)).
  { replace (a - b + 1)%Z with (Z.succ a - b)%Z by lia.
    rewrite Qpower_minus by (intros H; discriminate H).
    rewrite <- !inject_Z_two_pow by lia.
    apply Qlt_shift_div_l.
    - change 0 with (inject_Z 0). rewrite <- Zlt_Qlt. exact Pb.
    - unfold Qlt, Qmult, inject_Z. cbn [Qnum Qden].
      rewrite Pos.mul_1_r, Z.mul_1_r. nia. }
  assert (Hlo : 2 ^ (a - b - 1) <= n # d).
  { replace (a - b - 1)%Z with (a - Z.succ b)%Z by lia.
    rewrite Qpower_minus by (intros H; discriminate H).
    rewrite <- !inject_Z_two_pow by lia.
    apply Qle_shift_div_r.
    - change 0 with (inject_Z 0). rewrite <- Zlt_Qlt.
      apply Z.pow_pos_nonneg; lia.
    - unfold Qle, Qmult, inject_Z. cbn [Qnum Qden].
      rewrite Pos.mul_1_r, Z.mul_1_r. nia. }
  destruct (Qle_bool (2 ^ (a - b)) (n # d)) eqn:E.
  - apply Qle_bool_iff in E. split; [exact E | exact Hup].
  - split; [exact Hlo |].
    replace (a - b - 1 + 1)%Z with (a - b)%Z by lia.
    apply Qnot_le_lt. intros H. apply Qle_bool_iff in H. congruence.
Qed.

Lemma binade_unique x e :
  2 ^ e <= x -> x < 2 ^ (e + 1) -> binade x = e.
Proof.
  intros H1 H2.
  assert (Hx : 0 < x) by (eapply Qlt_le_trans; [apply two_pow_pos | exact H1]).
  destruct (binade_spec Hx) as [B1 B2].
  assert (L1 : (e < binade x + 1)%Z).
  { apply (Qpower_lt_compat_l_inv 2); [| reflexivity].
    eapply Qle_lt_trans; [exact H1 | exact B2]. }
  assert (L2 : (binade x < e + 1)%Z).
  { apply (Qpower_lt_compat_l_inv 2); [| reflexivity].
    eapply Qle_lt_trans; [exact B1 | exact H2]. }
  lia.
Qed.

(** Rounding to the nearest integer. *)

Lemma round_half_even_comp y y' :
  y == y' -> round_half_even y = round_half_even y'.
Proof.
  intros E. unfold round_half_even.
  rewrite (Qfloor_comp _ _ E).
  assert (C : (y - inject_Z (Qfloor y') ?= 1 # 2) =
              (y' - inject_Z (Qfloor y') ?= 1 # 2))
    by (rewrite E; reflexivity).
  rewrite C. reflexivity.
Qed.

Lemma round_half_even_Z n : round_half_even (inject_Z n) = n.
Proof.
  unfold round_half_even. rewrite Qfloor_Z.
  assert (C : (inject_Z n - inject_Z n ?= 1 # 2) = Lt).
  { rewrite <- Qlt_alt. setoid_replace (inject_Z n - inject_Z n) with 0 by ring.
    reflexivity. }
  rewrite C. reflexivity.
Qed.

Lemma round_half_even_bounds y :
  (Qfloor y <= round_half_even y <= Qfloor y + 1)%Z.
Proof.
  unfold round_half_even.
  destruct (y - inject_Z (Qfloor y) ?= 1 # 2); [destruct (Z.even _) | |];
    lia.
Qed.

Lemma round_half_even_mono y y' :
  y <= y' -> (round_half_even y <= round_half_even y')%Z.
Proof.
  intros H.
  pose proof (Qfloor_resp_le _ _ H) as Hf.
  pose proof (round_half_even_bounds y) as B.
  pose proof (round_half_even_bounds y') as B'.
  destruct (Z.eq_dec (Qfloor y) (Qfloor y')) as [E | NE]; [| lia].
  unfold round_half_even in *. rewrite <- E in *.
  assert (Hd : y - inject_Z (Qfloor y) <= y' - inject_Z (Qfloor y)).
  { apply Qplus_le_l. exact H. }
  destruct (Qcompare_spec (y - inject_Z (Qfloor y)) (1 # 2)) as [C | C | C];
    destruct (Qcompare_spec (y' - inject_Z (Qfloor y)) (1 # 2))
      as [C' | C' | C'];
    destruct (Z.even (Qfloor y)); try lia; exfalso; lra.
Qed.

(** Rounding positive numbers. *)

Lemma scaled_range x :
  0 < x ->
  inject_Z (2 ^ 52) <= x / 2 ^ (binade x - 52) /\
  x / 2 ^ (binade x - 52) <= inject_Z (2 ^ 53).
Proof.
  intros Hx. destruct (binade_spec Hx) as [B1 B2].
  set (e := binade x) in *.
  rewrite !inject_Z_two_pow by lia.
  split.
  - apply Qle_shift_div_l; [apply two_pow_pos |].
    rewrite <- Qpower_plus by (intros H; discriminate H).
    replace (52 + (e - 52))%Z with e by lia. exact B1.
  - apply Qle_shift_div_r; [apply two_pow_pos |].
    rewrite <- Qpower_plus by (intros H; discriminate H).
    replace (53 + (e - 52))%Z with (e + 1)%Z by lia.
    apply Qlt_le_weak. exact B2.
Qed.

Lemma mantissa_range x :
  0 < x ->
  (2 ^ 52 <= round_half_even (x / 2 ^ (binade x - 52)) <= 2 ^ 53)%Z.
Proof.
  intros Hx. destruct (scaled_range Hx) as [S1 S2]. split.
  - rewrite <- (round_half_even_Z (2 ^ 52)) at 1.
    apply round_half_even_mono. exact S1.
  - rewrite <- (round_half_even_Z (2 ^ 53)).
    apply round_half_even_mono. exact S2.
Qed.

Lemma fl_pos_bounds x :
  0 < x -> 2 ^ binade x <= fl_pos x /\ fl_pos x <= 2 ^ (binade x + 1).
Proof.
  intros Hx. destruct (mantissa_range Hx) as [M1 M2].
  unfold fl_pos. set (e := binade x) in *.
  set (m := round_half_even (x / 2 ^ (e - 52))) in *.
  split.
  - replace e with (52 + (e - 52))%Z at 1 by lia.
    rewrite Qpower_plus by (intros H; discriminate H).
    apply Qmult_le_compat_r; [| apply Qlt_le_weak, two_pow_pos].
    rewrite <- inject_Z_two_pow by lia. rewrite <- Zle_Qle. exact M1.
  - replace (e + 1)%Z with (53 + (e - 52))%Z by lia.
    rewrite Qpower_plus by (intros H; discriminate H).
    apply Qmult_le_compat_r; [| apply Qlt_le_weak, two_pow_pos].
    rewrite <- inject_Z_two_pow by lia. rewrite <- Zle_Qle. exact M2.
Qed.

Lemma fl_pos_pos x : 0 < x -> 0 < fl_pos x.
Proof.
  intros Hx. eapply Qlt_le_trans; [apply (two_pow_pos (binade x)) |].
  apply (fl_pos_bounds Hx).
Qed.

Lemma binade_mono x y : 0 < x -> x <= y -> (binade x <= binade y)%Z.
Proof.
  intros Hx Hxy.
  assert (Hy : 0 < y) by (eapply Qlt_le_trans; eassumption).
  destruct (binade_spec Hx) as [B1 _].
  destruct (binade_spec Hy) as [_ B2].
  assert (L : (binade x < binade y + 1)%Z).
  { apply (Qpower_lt_compat_l_inv 2); [| reflexivity].
    eapply Qle_lt_trans; [exact B1 |].
    eapply Qle_lt_trans; [exact Hxy | exact B2]. }
  lia.
Qed.

Lemma fl_pos_mono x y : 0 < x -> x <= y -> fl_pos x <= fl_pos y.
Proof.
  intros Hx Hxy.
  assert (Hy : 0 < y) by (eapply Qlt_le_trans; eassumption).
  pose proof (binade_mono Hx Hxy) as Hb.
  destruct (Z.eq_dec (binade x) (binade y)) as [E | NE].
  - unfold fl_pos. rewrite E.
    apply Qmult_le_compat_r; [| apply Qlt_le_weak, two_pow_pos].
    rewrite <- Zle_Qle. apply round_half_even_mono.
    apply Qmult_le_compat_r; [exact Hxy |].
    apply Qlt_le_weak, Qinv_lt_0_compat, two_pow_pos.
  - destruct (fl_pos_bounds Hx) as [_ U].
    destruct (fl_pos_bounds Hy) as [L _].
    eapply Qle_trans; [exact U |].
    eapply Qle_trans; [| exact L].
    apply Qpower_le_compat_l; [lia | discriminate].
Qed.

Lemma fl_pos_comp x y : 0 < x -> x == y -> fl_pos x == fl_pos y.
Proof.
  intros Hx E.
  assert (Hy : 0 < y) by (rewrite <- E; exact Hx).
  destruct (binade_spec Hy) as [B1 B2].
  assert (Eb : binade x = binade y).
  { apply binade_unique; rewrite E; assumption. }
  unfold fl_pos. rewrite Eb.
  rewrite (@round_half_even_comp (x / 2 ^ (binade y - 52))
                                 (y / 2 ^ (binade y - 52)))
    by (rewrite E; reflexivity).
  reflexivity.
Qed.

Lemma fl_pos_double x : 0 < x -> fl_pos (2 * x) == 2 * fl_pos x.
Proof.
  intros Hx. destruct (binade_spec Hx) as [B1 B2].
  assert (Eb : binade (2 * x) = (binade x + 1)%Z).
  { apply binade_unique.
    - rewrite Qpower_plus by (intros H; discriminate H).
      rewrite (Qmult_comm (2 ^ binade x)).
      apply Qmult_le_l; [reflexivity | exact B1].
    - replace (binade x + 1 + 1)%Z with (1 + (binade x + 1))%Z by lia.
      rewrite Qpower_plus by (intros H; discriminate H).
      apply Qmult_lt_l; [reflexivity | exact B2]. }
  unfold fl_pos. rewrite Eb.
  replace (binade x + 1 - 52)%Z with (1 + (binade x - 52))%Z by lia.
  set (u := (binade x - 52)%Z).
  assert (Ep : 2 ^ (1 + u) == 2 * 2 ^ u).
  { rewrite Qpower_plus by (intros H; discriminate H). reflexivity. }
  rewrite (@round_half_even_comp (2 * x / 2 ^ (1 + u)) (x / 2 ^ u)).
  - rewrite Ep. ring.
  - rewrite Ep. field. apply two_pow_nonzero.
Qed.

(** Rounding. *)

Lemma fl_comp x y : x == y -> fl x == fl y.
Proof.
  intros E. unfold fl.
  assert (C : (x ?= 0) = (y ?= 0)) by (rewrite E; reflexivity).
  rewrite <- C. destruct (x ?= 0) eqn:S.
  - reflexivity.
  - rewrite <- Qlt_alt in S.
    apply Qopp_comp. apply fl_pos_comp.
    + apply (Qopp_lt_compat x 0) in S. exact S.
    + rewrite E. reflexivity.
  - rewrite <- Qgt_alt in S. apply fl_pos_comp; assumption.
Qed.

#[global] Instance fl_proper : Proper (Qeq ==> Qeq) fl.
Proof. intros x y E. apply fl_comp. exact E. Qed.

Lemma fl_zero : fl 0 == 0.
Proof. reflexivity. Qed.

Lemma fl_of_pos x : 0 < x -> fl x = fl_pos x.
Proof. intros H. unfold fl. rewrite Qgt_alt in H. rewrite H. reflexivity. Qed.

Lemma fl_of_neg x : x < 0 -> fl x = - fl_pos (- x).
Proof. intros H. unfold fl. rewrite Qlt_alt in H. rewrite H. reflexivity. Qed.

Lemma fl_of_zero x : x == 0 -> fl x = 0.
Proof. intros H. unfold fl. rewrite Qeq_alt in H. rewrite H. reflexivity. Qed.

Lemma fl_pos_lt x : 0 < x -> 0 < fl x.
Proof. intros H. rewrite (fl_of_pos H). apply fl_pos_pos. exact H. Qed.

Lemma fl_neg_lt x : x < 0 -> fl x < 0.
Proof.
  intros H. rewrite (fl_of_neg H).
  assert (P : 0 < - x) by (apply (Qopp_lt_compat x 0); exact H).
  apply fl_pos_pos in P. apply (Qopp_lt_compat 0 (fl_pos (- x))). exact P.
Qed.

Lemma fl_nonneg x : 0 <= x -> 0 <= fl x.
Proof.
  intros H. destruct (Qlt_le_dec 0 x) as [P | N].
  - apply Qlt_le_weak, fl_pos_lt, P.
  - rewrite (@fl_of_zero x); [apply Qle_refl | apply Qle_antisym; assumption].
Qed.

Lemma fl_nonpos x : x <= 0 -> fl x <= 0.
Proof.
  intros H. destruct (Qlt_le_dec x 0) as [P | N].
  - apply Qlt_le_weak, fl_neg_lt, P.
  - rewrite (@fl_of_zero x); [apply Qle_refl | apply Qle_antisym; assumption].
Qed.

Lemma fl_mono x y : x <= y -> fl x <= fl y.
Proof.
  intros H.
  destruct (Qlt_le_dec 0 x) as [Px | Nx].
  - assert (Py : 0 < y) by lra.
    rewrite (fl_of_pos Px), (fl_of_pos Py). apply fl_pos_mono; assumption.
  - destruct (Qlt_le_dec y 0) as [Ny | Py].
    + assert (Nx' : x < 0) by lra.
      rewrite (fl_of_neg Nx'), (fl_of_neg Ny).
      apply Qopp_le_compat. apply fl_pos_mono.
      * apply (Qopp_lt_compat y 0). exact Ny.
      * apply Qopp_le_compat. exact H.
    + eapply Qle_trans; [apply fl_nonpos, Nx | apply fl_nonneg, Py].
Qed.

Lemma fl_double x : fl (2 * x) == 2 * fl x.
Proof.
  destruct (Q_dec x 0) as [[N | P] | Z].
  - assert (N2 : 2 * x < 0).
    { setoid_replace 0 with (2 * 0) by ring.
      apply Qmult_lt_l; [reflexivity | exact N]. }
    rewrite (fl_of_neg N), (fl_of_neg N2).
    assert (P : 0 < - x) by (apply (Qopp_lt_compat x 0); exact N).
    rewrite (@fl_pos_comp (- (2 * x)) (2 * - x)).
    + rewrite (fl_pos_double P). ring.
    + apply (Qopp_lt_compat (2 * x) 0). exact N2.
    + ring.
  - assert (P2 : 0 < 2 * x).
    { setoid_replace 0 with (2 * 0) by ring.
      apply Qmult_lt_l; [reflexivity | exact P]. }
    rewrite (fl_of_pos P), (fl_of_pos P2). apply fl_pos_double. exact P.
  - rewrite (@fl_of_zero x) by exact Z.
    rewrite (@fl_of_zero (2 * x)) by (rewrite Z; reflexivity).
    reflexivity.
Qed.


Lemma fl_pos_idem x : 0 < x -> fl_pos (fl_pos x) == fl_pos x.
Proof.
  intros Hx. destruct (mantissa_range Hx) as [M1 M2].
  destruct (fl_pos_bounds Hx) as [L U].
  unfold fl_pos at 2 3. unfold fl_pos in L, U.
  set (e := binade x) in *.
  set (m := round_half_even (x / 2 ^ (e - 52))) in *.
  set (y := inject_Z m * 2 ^ (e - 52)) in *.
  destruct (Z.eq_dec m (2 ^ 53)) as [Em | Nm].
  - assert (Ey : y == 2 ^ (e + 1)).
    { unfold y. rewrite Em, inject_Z_two_pow by lia.
      rewrite <- Qpower_plus by (intros H; discriminate H).
      replace (53 + (e - 52))%Z with (e + 1)%Z by lia. reflexivity. }
    assert (Eb : binade y = (e + 1)%Z).
    { apply binade_unique; rewrite Ey.
      - apply Qle_refl.
      - apply Qpower_lt_compat_l; [lia | reflexivity]. }
    unfold fl_pos. rewrite Eb.
    rewrite (@round_half_even_comp (y / 2 ^ (e + 1 - 52))
                                   (inject_Z (2 ^ 52))).
    + rewrite round_half_even_Z, Ey, inject_Z_two_pow by lia.
      rewrite <- Qpower_plus by (intros H; discriminate H).
      replace (52 + (e + 1 - 52))%Z with (e + 1)%Z by lia. reflexivity.
    + rewrite Ey, inject_Z_two_pow by lia.
      rewrite <- Qpower_minus by (intros H; discriminate H).
      replace (e + 1 - (e + 1 - 52))%Z with 52%Z by lia. reflexivity.
  - assert (Eb : binade y = e).
    { apply binade_unique; [exact L |].
      unfold y. replace (e + 1)%Z with (53 + (e - 52))%Z by lia.
      rewrite Qpower_plus by (intros H; discriminate H).
      apply Qmult_lt_compat_r; [apply two_pow_pos |].
      rewrite <- inject_Z_two_pow by lia. rewrite <- Zlt_Qlt. lia. }
    unfold fl_pos. rewrite Eb.
    rewrite (@round_half_even_comp (y / 2 ^ (e - 52)) (inject_Z m)).
    + rewrite round_half_even_Z. reflexivity.
    + unfold y. field. apply two_pow_nonzero.
Qed.

Lemma fl_idem x : fl (fl x) == fl x.
Proof.
  destruct (Q_dec x 0) as [[N | P] | Z].
  - assert (P : 0 < - x) by lra.
    pose proof (fl_neg_lt N) as N'.
    rewrite (fl_of_neg N'). rewrite (fl_of_neg N).
    apply Qopp_comp.
    rewrite (@fl_pos_comp (- - fl_pos (- x)) (fl_pos (- x))).
    + apply fl_pos_idem. exact P.
    + apply fl_pos_pos in P. lra.
    + ring.
  - pose proof (fl_pos_lt P) as P'.
    rewrite (fl_of_pos P'). rewrite (fl_of_pos P).
    apply fl_pos_idem. exact P.
  - rewrite (@fl_of_zero x) by exact Z. reflexivity.
Qed.

Lemma fl_is_double x : is_double (fl x).
Proof. apply fl_idem. Qed.

(** A bound that is a double is kept by rounding. *)
Lemma fl_le_double x c : is_double c -> x <= c -> fl x <= c.
Proof.
  intros Hc H. unfold is_double in Hc.
  eapply Qle_trans; [apply fl_mono; exact H |].
  rewrite Hc. apply Qle_refl.
Qed.

Lemma fl_ge_double x c : is_double c -> c <= x -> c <= fl x.
Proof.
  intros Hc H. unfold is_double in Hc.
  eapply Qle_trans; [| apply fl_mono; exact H].
  rewrite Hc. apply Qle_refl.
Qed.

(** ** Arrays *)

Lemma arange_length a b : length (arange a b) = Z.to_nat (b - a).
Proof. unfold arange. rewrite length_map, length_seq. reflexivity. Qed.

Lemma arange_nth a b i :
  (i < Z.to_nat (b - a))%nat ->
  nth_error (arange a b) i = Some (a + Z.of_nat i)%Z.
Proof.
  intros Hi. unfold arange.
  rewrite nth_error_map, nth_error_seq.
  destruct (Nat.ltb_spec i (Z.to_nat (b - a))); [reflexivity | lia].
Qed.

Lemma arange_app a b c :
  (a <= b)%Z -> (b <= c)%Z -> arange a b ++ arange b c = arange a c.
Proof.
  intros Hab Hbc. unfold arange.
  replace (Z.to_nat (c - a)) with (Z.to_nat (b - a) + Z.to_nat (c - b))%nat
    by lia.
  rewrite seq_app, map_app. f_equal.
  remember (Z.to_nat (b - a)) as k eqn:Hk.
  assert (Hgen : forall n s,
             map (fun i => (b + Z.of_nat i)%Z) (seq s n) =
             map (fun i => (a + Z.of_nat i)%Z) (seq (k + s) n)).
  { induction n as [| n IHn]; intros s; simpl; [reflexivity |].
    f_equal; [lia |]. rewrite IHn. f_equal. f_equal. lia. }
  rewrite Hgen. f_equal. f_equal. lia.
Qed.

(** [fftshift] is the rotation that sends position [i] to the element
    [n - n // 2] places further on, cyclically. *)
Lemma fftshift_nth {A : Type} (l : list A) i :
  (i < length l)%nat ->
  nth_error (fftshift l) i =
  nth_error l ((i + (length l - length l / 2)) mod length l).
Proof.
  intros Hi. unfold fftshift.
  set (n := length l) in *. set (h := (n / 2)%nat).
  assert (Hh : (2 * h <= n < 2 * h + 2)%nat).
  { unfold h. pose proof (Nat.div_mod_eq n 2) as E.
    pose proof (Nat.mod_upper_bound n 2 ltac:(lia)). lia. }
  destruct (Nat.lt_ge_cases i h) as [Hlt | Hge].
  - rewrite nth_error_app1 by (rewrite length_skipn; fold n; lia).
    rewrite nth_error_skipn.
    rewrite Nat.mod_small by lia. f_equal. lia.
  - rewrite nth_error_app2 by (rewrite length_skipn; fold n; lia).
    rewrite length_skipn. fold n.
    rewrite nth_error_firstn.
    destruct (Nat.ltb_spec (i - (n - (n - h))) (n - h)); [| lia].
    f_equal.
    replace (i + (n - h))%nat with ((i - h) + 1 * n)%nat by lia.
    rewrite Nat.Div0.mod_add. rewrite Nat.mod_small by lia. lia.
Qed.

Lemma fftshift_length {A : Type} (l : list A) :
  length (fftshift l) = length l.
Proof.
  unfold fftshift. rewrite length_app, length_skipn, length_firstn. lia.
Qed.

Lemma fftshift_map {A B : Type} (f : A -> B) (l : list A) :
  fftshift (map f l) = map f (fftshift l).
Proof.
  unfold fftshift. rewrite length_map, map_app, skipn_map, firstn_map.
  reflexivity.
Qed.

Lemma skipn_repeat {A : Type} (x : A) k n :
  skipn k (repeat x n) = repeat x (n - k).
Proof.
  revert n. induction k as [| k IH]; intros [| n]; simpl; auto.
Qed.

Lemma firstn_repeat {A : Type} (x : A) k n :
  (k <= n)%nat -> firstn k (repeat x n) = repeat x k.
Proof.
  revert n. induction k as [| k IH]; intros [| n] Hk; simpl; auto; try lia.
  f_equal. apply IH. lia.
Qed.

Lemma fftshift_repeat {A : Type} (x : A) n :
  fftshift (repeat x n) = repeat x n.
Proof.
  unfold fftshift. rewrite repeat_length.
  rewrite skipn_repeat, firstn_repeat by lia.
  rewrite <- repeat_app. f_equal. lia.
Qed.

Lemma fftshift_app {A : Type} (a b : list A) :
  length a = (length (a ++ b) - length (a ++ b) / 2)%nat ->
  fftshift (a ++ b) = b ++ a.
Proof.
  intros H. unfold fftshift. rewrite <- H.
  rewrite skipn_app, firstn_app.
  rewrite skipn_all, firstn_all, Nat.sub_diag. simpl.
  rewrite app_nil_r. reflexivity.
Qed.

Lemma fftfreq_length n d : (0 < n)%Z -> length (fftfreq n d) = Z.to_nat n.
Proof.
  intros Hn. unfold fftfreq.
  rewrite length_map, length_app, !arange_length.
  pose proof (Z.div_mod n 2 ltac:(lia)) as E.
  pose proof (Z.mod_pos_bound n 2 ltac:(lia)) as B.
  pose proof (Z.div_mod (n - 1) 2 ltac:(lia)) as E1.
  pose proof (Z.mod_pos_bound (n - 1) 2 ltac:(lia)) as B1.
  lia.
Qed.

(** After the shift the bins ascend from [-(n // 2)], so bin [n // 2] is
    the zero frequency. *)
Lemma fftshift_fftfreq n d :
  (0 < n)%Z ->
  fftshift (fftfreq n d) =
  map (fun k => inject_Z k * (1 / (inject_Z n * d)))
      (arange (- (n / 2)) (n - n / 2)).
Proof.
  intros Hn. unfold fftfreq. rewrite fftshift_map. f_equal.
  pose proof (Z.div_mod n 2 ltac:(lia)) as E.
  pose proof (Z.mod_pos_bound n 2 ltac:(lia)) as B.
  pose proof (Z.div_mod (n - 1) 2 ltac:(lia)) as E1.
  pose proof (Z.mod_pos_bound (n - 1) 2 ltac:(lia)) as B1.
  assert (HN : ((n - 1) / 2 + 1 = n - n / 2)%Z) by lia.
  rewrite HN.
  rewrite fftshift_app.
  - apply arange_app; lia.
  - rewrite length_app, !arange_length.
    replace (Z.to_nat (n - n / 2 - 0) + Z.to_nat (0 - - (n / 2)))%nat
      with (Z.to_nat n) by lia.
    assert (Hd : (Z.to_nat n / 2)%nat = Z.to_nat (n / 2)).
    { rewrite <- (Z2Nat.id n) at 2 by lia.
      change 2%Z with (Z.of_nat 2).
      rewrite <- Nat2Z.inj_div, Nat2Z.id. reflexivity. }
    rewrite Hd. lia.
Qed.

Lemma fftshift_fftfreq_nth n d i :
  (0 < n)%Z -> (i < Z.to_nat n)%nat ->
  nth_error (fftshift (fftfreq n d)) i =
  Some (inject_Z (- (n / 2) + Z.of_nat i) * (1 / (inject_Z n * d))).
Proof.
  intros Hn Hi. rewrite fftshift_fftfreq by exact Hn.
  rewrite nth_error_map, arange_nth; [reflexivity |].
  pose proof (Z.div_mod n 2 ltac:(lia)). lia.
Qed.

Lemma recentre_nth fc l i :
  nth_error (recentre fc l) i = option_map (fun f => f + fc) (nth_error l i).
Proof. unfold recentre. apply nth_error_map. Qed.

Lemma recentre_length fc l : length (recentre fc l) = length l.
Proof. unfold recentre. apply length_map. Qed.

(** ** Sums *)

Lemma Qsum_acc l : forall a, fold_left Qplus l a == a + Qsum l.
Proof.
  unfold Qsum. induction l as [| x l IH]; intros a; simpl.
  - ring.
  - rewrite IH, (IH (0 + x)). ring.
Qed.

Lemma Qsum_cons x l : Qsum (x :: l) == x + Qsum l.
Proof. unfold Qsum at 1. simpl. rewrite Qsum_acc. ring. Qed.

Lemma Qsum_map_ext {A : Type} (f g : A -> Q) l :
  (forall x, f x == g x) -> Qsum (map f l) == Qsum (map g l).
Proof.
  intros H. induction l as [| x l IH]; simpl; [reflexivity |].
  rewrite !Qsum_cons, IH, H. reflexivity.
Qed.

Lemma Qsum_map_const {A : Type} (f : A -> Q) k l :
  Forall (fun x => f x == k) l ->
  Qsum (map f l) == inject_Z (len l) * k.
Proof.
  unfold len. induction 1 as [| x l Hx Hl IH]; simpl length; simpl map.
  - unfold Qsum. simpl. ring.
  - rewrite Qsum_cons, IH, Hx, Nat2Z.inj_succ.
    unfold Z.succ. rewrite inject_Z_plus. ring.
Qed.

Lemma sample_power_eq z : sample_power z == re z ^ 2 + im z ^ 2.
Proof. unfold sample_power, c_mul, c_conj. simpl. ring. Qed.

Lemma block_power_eq iq :
  block_power iq == Qsum (map (fun z => re z ^ 2 + im z ^ 2) iq).
Proof. unfold block_power. apply Qsum_map_ext, sample_power_eq. Qed.

(** ** The total-power accumulator *)


Lemma inject_Z_nonzero z : (z <> 0)%Z -> ~ inject_Z z == 0.
Proof. unfold Qeq. simpl. lia. Qed.

Lemma np_div_finite x y :
  ~ y == 0 -> np_div (Fin x) (Fin y) = Fin (x / y).
Proof.
  intros Hy. simpl. destruct (y ?= 0) eqn:E; try reflexivity.
  apply Qeq_alt in E. contradiction.
Qed.


(** ** Rejection of a too short integration *)

(** The threshold of the assertion, [2.0 * (1.0 / fswitch)], is the
    double nearest to [2 / fswitch]. *)
Lemma fswitch_threshold fswitch :
  ~ fswitch == 0 -> fl (2 * fl (1 / fswitch)) == fl (2 / fswitch).
Proof.
  intros Hf. rewrite fl_double, fl_idem, <- fl_double.
  apply fl_comp. field. exact Hf.
Qed.

(** C2, as amended.  The assertion compares [t_int] with
    [2.0 * (1.0 / fswitch)] computed in double precision, which is the
    double nearest to [2 / fswitch].  When [t_int] is below that number
    the frequency-switched run fails with the assertion error and the
    world is untouched: no call to the driver or the signal library was
    logged and no device register changed.  When [t_int] is not below it
    the check passes. *)
Theorem fswitch_rejects_short_integration
        (feed : Q -> nat -> complex)
        (periodogram : list complex -> Q -> Z -> Z -> list Q)
        (f_throw_fold :
           list Q -> list Q -> list npfloat -> list npfloat -> result folded)
        (num_samp nbins : Z) (gain rate fc fthrow t_int fswitch : Q)
        (w : world) :
  ~ fswitch == 0 ->
  fl (2 * fl (1 / fswitch)) == fl (2 / fswitch) /\
  (t_int < fl (2 * fl (1 / fswitch)) ->
   run_fswitch_int feed periodogram f_throw_fold num_samp nbins gain rate fc
                   fthrow t_int fswitch w = (Raise AssertionError, w)) /\
  (fl (2 * fl (1 / fswitch)) <= t_int ->
   fswitch_check t_int fswitch = Ok tt).
Proof.
  intros Hf. split; [apply fswitch_threshold; exact Hf |].
  unfold run_fswitch_int, bind, lift, fswitch_check, float_div, float_mul.
  destruct (Qeq_bool fswitch 0) eqn:E0.
  { apply Qeq_bool_eq in E0. contradiction. }
  split.
  - intros Hlt.
    destruct (Qle_bool (fl (2 * fl (1 / fswitch))) t_int) eqn:E1;
      [| reflexivity].
    apply Qle_bool_imp_le in E1. lra.
  - intros Hle. apply Qle_bool_iff in Hle. rewrite Hle. reflexivity.
Qed.

(** ** Finalizing an empty accumulator *)

(** The two divisions by the counter.  The total-power division, on a
    Python float, fails with a division-by-zero error when no block was
    counted.  The division of a spectrum accumulator by a zero count does
    not fail: numpy carries it out element by element, an untouched
    accumulator becomes all NaN and no element of the result is a finite
    number. *)
Lemma empty_accumulator_finalization :
  (forall num_samp q,
      total_power_average num_samp (PyFloat q, 0%Z) =
      Raise ZeroDivisionError) /\
  (forall n, spectrum_average (repeat (Fin 0) n) 0 = repeat NaN n) /\
  (forall p_xx_tot,
      Forall (fun x => np_is_finite x = false) (spectrum_average p_xx_tot 0)).
Proof.
  split; [| split].
  - intros num_samp q. unfold total_power_average, py_truediv.
    rewrite Z.mul_0_r. reflexivity.
  - intros n. unfold spectrum_average.
    induction n as [| n IH]; simpl; [reflexivity |]. rewrite IH. reflexivity.
  - intros p. unfold spectrum_average. apply Forall_map.
    apply Forall_forall. intros x _.
    destruct x as [q | | |]; simpl; try reflexivity.
    destruct (q ?= 0); reflexivity.
Qed.

(** ** The runs, taken apart *)

Section Runs.

Variable feed : Q -> nat -> complex.
Variable periodogram : list complex -> Q -> Z -> Z -> list Q.
Variable get_window : Z -> list Q.
Variable log10 : Q -> Q.
Variable f_throw_fold :
  list Q -> list Q -> list npfloat -> list npfloat -> result folded.

(** A successful spectrum run is a successful integration followed by
    the final arithmetic. *)
Lemma run_spectrum_int_inv num_samp nbins gain rate fc t_int w out w' :
  run_spectrum_int feed periodogram get_window log10 num_samp nbins gain
                   rate fc t_int w = (Ok out, w') ->
  exists s w1,
    spectrum_integrate feed periodogram num_samp nbins gain rate fc t_int
                       (opened w) = (Ok s, w1) /\
    out = spectrum_finish get_window log10 nbins rate fc s.
Proof.
  unfold run_spectrum_int. intros H.
  apply bind_ok_inv in H as ([] & w0 & Hopen & H).
  apply try_finally_ok_inv in H as (w2 & H & _).
  apply bind_ok_inv in H as (s & w1 & Hint & H).
  apply bind_ok_inv in H as (t & w1' & _ & H).
  apply bind_ok_inv in H as ([] & w3 & _ & H).
  apply ret_ok_inv in H as [-> _].
  exists s, w1. split; [| reflexivity].
  unfold opened. rewrite Hopen. exact Hint.
Qed.

(** The part of a switched run before the fold succeeds when the
    integration does, and yields the final arithmetic on its result. *)
Lemma fswitch_prepare_inv num_samp nbins gain rate fc fthrow t_int fswitch
      w a w1 :
  fswitch_prepare feed periodogram num_samp nbins gain rate fc fthrow t_int
                  fswitch w = (Ok a, w1) ->
  exists s,
    fswitch_integrate feed periodogram num_samp nbins gain rate fc fthrow
                      t_int fswitch w = (Ok s, w1) /\
    a = fswitch_finish fc fthrow s.
Proof.
  unfold fswitch_prepare. intros H.
  apply bind_ok_inv in H as (s & w2 & Hint & H).
  apply bind_ok_inv in H as (t & w3 & Ht & H).
  apply lift_ok_inv in Ht as [_ ->].
  apply ret_ok_inv in H as [-> ->].
  exists s. split; [exact Hint | reflexivity].
Qed.

(** A successful switched run is a successful integration, the final
    arithmetic and a successful fold of its four results. *)
Lemma run_fswitch_int_inv num_samp nbins gain rate fc fthrow t_int fswitch
      w out w' :
  run_fswitch_int feed periodogram f_throw_fold num_samp nbins gain rate fc
                  fthrow t_int fswitch w = (Ok out, w') ->
  exists s w1,
    fswitch_check t_int fswitch = Ok tt /\
    fswitch_integrate feed periodogram num_samp nbins gain rate fc fthrow
                      t_int fswitch (opened w) = (Ok s, w1) /\
    let a := fswitch_finish fc fthrow s in
    f_throw_fold (fa_freqs_on a) (fa_freqs_off a)
                 (fa_p_avg_on a) (fa_p_avg_off a) = Ok out.
Proof.
  unfold run_fswitch_int. intros H.
  apply bind_ok_inv in H as ([] & w0 & Hchk & H).
  apply lift_ok_inv in Hchk as [Hchk ->].
  apply bind_ok_inv in H as ([] & w0' & Hopen & H).
  apply try_finally_ok_inv in H as (w2 & H & _).
  apply bind_ok_inv in H as (a & w1' & Hprep & H).
  apply fswitch_prepare_inv in Hprep as (s & Hint & ->).
  apply bind_ok_inv in H as (out' & w3 & Hfold & H).
  apply lift_ok_inv in Hfold as [Hfold ->].
  apply bind_ok_inv in H as ([] & w4 & _ & H).
  apply ret_ok_inv in H as [-> _].
  exists s, w1'. split; [exact Hchk |]. split.
  - unfold opened. rewrite Hopen. exact Hint.
  - exact Hfold.
Qed.

(** ** Normalization to a power spectral density *)

(** The arithmetic of lines 206-209.  In a successful spectrum run the
    returned values are [10 * log10] of a density, element by element,
    and the density is the averaged power spectrum times
    [sum(w)^2 / sum(w^2)] divided by the sample rate, element by element,
    where [w] is the window of the segment length requested,
    [min(nbins, 256)], whatever segment [welch] worked with.  For a
    finite average [p], a window with a non-zero sum of squares and a
    non-zero rate this is the rational number
    [p * (sum(w)^2 / sum(w^2)) / rate]. *)
Lemma psd_normalization num_samp nbins gain rate fc t_int w freqs p_db w' :
  run_spectrum_int feed periodogram get_window log10 num_samp nbins gain
                   rate fc t_int w = (Ok (freqs, p_db), w') ->
  exists f_raw p_xx_tot cnt w1,
    spectrum_integrate feed periodogram num_samp nbins gain rate fc t_int
                       (opened w) = (Ok (f_raw, p_xx_tot, cnt), w1) /\
    let win := get_window (spectrum_nperseg nbins) in
    let sum_w := Qsum win in
    let sum_w2 := Qsum (map (fun x => x * x) win) in
    let p_avg :=
      map (fun p => np_div p (Fin (inject_Z cnt))) (fftshift p_xx_tot) in
    let psd :=
      map (fun p =>
             np_div (np_mul p (np_div (Fin (sum_w ^ 2)) (Fin sum_w2)))
                    (Fin rate)) p_avg in
    p_db = map (fun x => np_mul (Fin 10) (np_log10 log10 x)) psd /\
    (~ sum_w2 == 0 -> ~ rate == 0 ->
     forall i p,
       nth_error p_avg i = Some (Fin p) ->
       let v := p * (sum_w ^ 2 / sum_w2) / rate in
       nth_error psd i = Some (Fin v) /\
       (0 < v -> nth_error p_db i = Some (Fin (10 * log10 v)))).
Proof.
  intros H. apply run_spectrum_int_inv in H as (s & w1 & Hint & Hout).
  destruct s as [[f_raw p_xx_tot] cnt].
  exists f_raw, p_xx_tot, cnt, w1. split; [exact Hint |].
  unfold spectrum_finish in Hout. inversion Hout; subst freqs p_db; clear Hout.
  split; [reflexivity |].
  intros Hw Hr i p Hp. cbv zeta.
  assert (Hpsd :
            nth_error
              (map (fun p0 =>
                      np_div
                        (np_mul p0
                           (np_div
                              (Fin (Qsum (get_window
                                            (spectrum_nperseg nbins)) ^ 2))
                              (Fin (Qsum (map (fun x => x * x)
                                   (get_window (spectrum_nperseg nbins)))))))
                        (Fin rate))
                   (map (fun p0 => np_div p0 (Fin (inject_Z cnt)))
                        (fftshift p_xx_tot))) i =
            Some (Fin (p * (Qsum (get_window (spectrum_nperseg nbins)) ^ 2 /
                            Qsum (map (fun x => x * x)
                                      (get_window (spectrum_nperseg nbins)))) /
                       rate))).
  { rewrite nth_error_map, Hp. cbn [option_map].
    rewrite (np_div_finite _ Hw). cbn [np_mul].
    rewrite (np_div_finite _ Hr). reflexivity. }
  split; [exact Hpsd |].
  intros Hv. unfold db_of_psd, psd_of_power, window_correction,
             spectrum_average.
  rewrite nth_error_map, Hpsd. cbn [option_map np_log10].
  apply Qgt_alt in Hv. rewrite Hv. reflexivity.
Qed.

(** ** What the fold receives *)

(** C7, as amended.  In a successful switched run the fold is applied to
    the raw averaged power spectra: each accumulator, shifted and divided
    by the counter, with no window correction and no division by the
    sample rate; the two axes are the shifted axes moved to [fc] and
    [fthrow]. *)
Theorem fold_receives_raw_averages
        num_samp nbins gain rate fc fthrow t_int fswitch w out w' :
  run_fswitch_int feed periodogram f_throw_fold num_samp nbins gain rate fc
                  fthrow t_int fswitch w = (Ok out, w') ->
  exists s w1,
    fswitch_integrate feed periodogram num_samp nbins gain rate fc fthrow
                      t_int fswitch (opened w) = (Ok s, w1) /\
    f_throw_fold
      (map (fun f => f + fc) (fftshift (freqs_on s)))
      (map (fun f => f + fthrow) (fftshift (freqs_off s)))
      (map (fun p => np_div p (Fin (inject_Z (cnt s)))) (fftshift (p_xx_on s)))
      (map (fun p => np_div p (Fin (inject_Z (cnt s)))) (fftshift (p_xx_off s)))
    = Ok out.
Proof.
  intros H. apply run_fswitch_int_inv in H as (s & w1 & _ & Hint & Hfold).
  exists s, w1. split; [exact Hint | exact Hfold].
Qed.

End Runs.

(** ** The integration loops *)

Section Loops.

Variable feed : Q -> nat -> complex.
Variable periodogram : list complex -> Q -> Z -> Z -> list Q.

(** A read that succeeds delivers exactly the requested number of
    samples and logs itself. *)
Lemma sdr_read_samples_ok n w iq w' :
  sdr_read_samples feed n w = (Ok iq, w') ->
  (0 <= n)%Z /\ len iq = n /\
  w_log w' = w_log w ++ [EvRead n] /\
  w_fc w' = w_fc w /\ w_rs w' = w_rs w.
Proof.
  unfold sdr_read_samples.
  destruct (Z.ltb_spec n 0) as [Hneg | Hpos]; intros H; inversion H; subst.
  simpl. repeat split; try reflexivity; try lia.
  unfold len. rewrite length_map, length_seq. lia.
Qed.

(** What a successful [welch] call returns on a non-empty block. *)
Lemma welch_ok x fs nperseg nfft w f p w' :
  welch periodogram x fs nperseg nfft w = (Ok (f, p), w') ->
  (len x <> 0)%Z ->
  let nperseg' := if (nperseg >? len x)%Z then len x else nperseg in
  let nfft' := match nfft with None => nperseg' | Some n => n end in
  (1 <= nperseg)%Z /\ (nperseg' <= nfft')%Z /\
  ~ fs == 0 /\
  f = fftfreq nfft' (1 / fs) /\
  p = map Fin (periodogram x fs nperseg' nfft') /\
  w_log w' = w_log w ++ [EvWelch fs nperseg nfft] /\
  w_fc w' = w_fc w /\ w_rs w' = w_rs w.
Proof.
  intros H Hx. unfold welch in H.
  apply bind_ok_inv in H as ([] & w1 & Hemit & H).
  unfold emit in Hemit. inversion Hemit; subst w1; clear Hemit.
  destruct (Z.eqb_spec (len x) 0) as [E | _]; [contradiction |].
  destruct (Z.ltb_spec nperseg 1) as [Hlt | Hge]; [discriminate H |].
  cbv zeta in H |- *.
  set (nperseg' := if (nperseg >? len x)%Z then len x else nperseg) in *.
  set (nfft' := match nfft with None => nperseg' | Some n => n end) in *.
  destruct (Z.ltb_spec nfft' nperseg') as [Hlt | Hge']; [discriminate H |].
  apply bind_ok_inv in H as (d & w2 & Hd & H).
  apply lift_ok_inv in Hd as [Hd ->].
  unfold py_truediv in Hd.
  destruct (Qeq_bool fs 0) eqn:Efs; [discriminate Hd |].
  inversion Hd; subst d; clear Hd.
  apply ret_ok_inv in H as [H ->]. inversion H; subst f p.
  simpl. repeat split; try reflexivity; try lia.
  apply Qeq_bool_neq. exact Efs.
Qed.

Lemma np_iadd_length a b c : np_iadd a b = Ok c -> length c = length a.
Proof.
  unfold np_iadd.
  destruct (Nat.eqb_spec (length b) (length a)) as [E | _].
  - intros H. inversion H; subst c. clear H.
    revert b E. induction a as [| x a IH]; intros [| y b] E; simpl in *;
      try reflexivity; try discriminate.
    f_equal. apply IH. lia.
  - destruct b as [| y [| y' b']]; intros Hc; inversion Hc.
    apply length_map.
Qed.

Lemma np_zeros_ok {A : Type} (z : A) n l :
  np_zeros z n = Ok l -> (0 <= n)%Z /\ l = repeat z (Z.to_nat n).
Proof.
  unfold np_zeros. destruct (Z.ltb_spec n 0) as [Hn | Hn]; intros E;
    inversion E.
  split; [lia | reflexivity].
Qed.

Lemma range_split n visited i rest :
  range n = visited ++ i :: rest -> i = Z.of_nat (length visited).
Proof.
  intros H.
  assert (Hn : nth_error (range n) (length visited) = Some i).
  { rewrite H, nth_error_app2, Nat.sub_diag by lia. reflexivity. }
  assert (Hlt : (length visited < Z.to_nat (n - 0))%nat).
  { apply (f_equal (@length Z)) in H. unfold range in H.
    rewrite arange_length, length_app in H. simpl in H. lia. }
  unfold range in Hn. rewrite arange_nth in Hn by exact Hlt.
  inversion Hn. lia.
Qed.

Lemma range_length n : length (range n) = Z.to_nat n.
Proof. unfold range. rewrite arange_length. f_equal. lia. Qed.

(** *** The spectrum loop *)

(** One successful turn of the spectrum loop: the counter becomes the
    loop index, the axis is the two-sided axis of [nbins] bins and the
    accumulator keeps its length. *)
Lemma spectrum_step_ok num_samp nbins rate nperseg i f p c w f' p' c' w' :
  (num_samp <> 0)%Z ->
  spectrum_step feed periodogram num_samp nbins rate nperseg i (f, p, c) w =
  (Ok (f', p', c'), w') ->
  c' = i /\ (0 < nbins)%Z /\ f' = fftfreq nbins (1 / rate) /\
  length p' = length p /\
  w_log w' = w_log w ++ [EvRead num_samp; EvWelch rate nperseg (Some nbins)].
Proof.
  intros Hns H. unfold spectrum_step in H.
  apply bind_ok_inv in H as (iq & w1 & Hread & H).
  apply sdr_read_samples_ok in Hread as (Hn & Hlen & Hlog1 & _ & _).
  apply bind_ok_inv in H as ([f0 p0] & w2 & Hw & H).
  apply welch_ok in Hw as (Hseg & Hfft & _ & Hf & _ & Hlog2 & _ & _);
    [| lia].
  apply bind_ok_inv in H as (p1 & w3 & Hadd & H).
  apply lift_ok_inv in Hadd as [Hadd ->].
  apply ret_ok_inv in H as [H ->]. inversion H; subst f' p' c'.
  cbv zeta in Hfft.
  repeat split.
  - destruct (nperseg >? len iq)%Z; lia.
  - exact Hf.
  - eapply np_iadd_length; exact Hadd.
  - rewrite Hlog2, Hlog1, <- app_assoc. reflexivity.
Qed.


Lemma range_last n : (0 < n)%Z -> last (range n) 0%Z = (n - 1)%Z.
Proof.
  intros Hn. unfold range, arange.
  replace (Z.to_nat (n - 0)) with (S (Z.to_nat (n - 1))) by lia.
  rewrite seq_S, map_app. cbn [map]. rewrite last_last. lia.
Qed.

(** A successful integration made [num_loops] turns, each adding one
    periodogram, and left the counter at the last loop index. *)
Lemma spectrum_integrate_ok num_samp nbins gain rate fc t_int w f p c w1 :
  spectrum_integrate feed periodogram num_samp nbins gain rate fc t_int w =
  (Ok (f, p, c), w1) ->
  let num_loops :=
    (py_int (fl (inject_Z (py_int (fl (rate * t_int))) / inject_Z num_samp))
     + 1)%Z in
  (num_samp <> 0)%Z /\ (0 <= nbins)%Z /\
  length p = Z.to_nat nbins /\
  w_log w1 =
  w_log w ++ [EvSetRate rate; EvSetFc fc; EvSetGain gain] ++
        flat_map (fun _ => spectrum_turn_log num_samp nbins rate)
                 (range num_loops) /\
  ((num_loops <= 0)%Z /\ f = repeat 0 (Z.to_nat nbins) /\
   p = repeat (Fin 0) (Z.to_nat nbins) /\ c = 0%Z
   \/
   (0 < num_loops)%Z /\ (0 < nbins)%Z /\ f = fftfreq nbins (1 / rate) /\
   c = (num_loops - 1)%Z).
Proof.
  intros H num_loops. unfold spectrum_integrate in H.
  apply bind_ok_inv in H as ([] & w2 & H1 & H).
  apply bind_ok_inv in H as ([] & w3 & H2 & H).
  apply bind_ok_inv in H as ([] & w4 & H3 & H).
  apply bind_ok_inv in H as (rs & w5 & H4 & H).
  unfold sdr_set_rs in H1. inversion H1; subst w2; clear H1.
  unfold sdr_set_fc in H2. inversion H2; subst w3; clear H2.
  unfold sdr_set_gain in H3. inversion H3; subst w4; clear H3.
  unfold sdr_get_rs in H4. inversion H4; subst rs w5; clear H4.
  simpl w_rs in H.
  apply bind_ok_inv in H as (q & w6 & Hq & H).
  apply lift_ok_inv in Hq as [Hq ->].
  unfold float_div, float_mul in Hq.
  destruct (Qeq_bool (inject_Z num_samp) 0) eqn:Ens; [discriminate Hq |].
  inversion Hq; subst q; clear Hq. fold num_loops in H.
  assert (Hns : (num_samp <> 0)%Z).
  { intros ->. discriminate Ens. }
  apply bind_ok_inv in H as (f0 & w7 & Hf0 & H).
  apply lift_ok_inv in Hf0 as [Hf0 ->].
  apply np_zeros_ok in Hf0 as [Hnb ->].
  apply bind_ok_inv in H as (p0 & w8 & Hp0 & H).
  apply lift_ok_inv in Hp0 as [Hp0 ->].
  apply np_zeros_ok in Hp0 as [_ ->].
  set (w0 := mkWorld _ _ _ _ _) in H.
  set (turn := spectrum_turn_log num_samp nbins rate).
  pose (I := fun (visited : list Z) (s : spectrum_acc) (w' : world) =>
               let '(f', p', c') := s in
               length p' = Z.to_nat nbins /\
               w_log w' = w_log w0 ++ flat_map (fun _ => turn) visited /\
               (visited = [] /\ f' = repeat 0 (Z.to_nat nbins) /\
                p' = repeat (Fin 0) (Z.to_nat nbins) /\ c' = 0%Z
                \/
                visited <> [] /\ (0 < nbins)%Z /\
                f' = fftfreq nbins (1 / rate) /\ c' = last visited 0%Z)).
  assert (Hfinal : I (range num_loops) (f, p, c) w1).
  { eapply (for_each_inv I); [| | exact H].
    - intros visited i rest [[f1 p1] c1] wa [[f2 p2] c2] wb _ HI Hstep.
      unfold I in HI |- *. destruct HI as (Hlen & Hlog & _).
      apply spectrum_step_ok in Hstep as (-> & Hpos & -> & Hlen' & Hlog');
        [| exact Hns].
      split; [lia |]. split.
      + rewrite Hlog', Hlog, flat_map_app, <- app_assoc. simpl.
        reflexivity.
      + right. split; [destruct visited; discriminate |].
        split; [exact Hpos |]. split; [reflexivity |].
        rewrite last_last. reflexivity.
    - unfold I. split; [apply repeat_length |].
      split; [simpl; rewrite app_nil_r; reflexivity |].
      left. repeat split. }
  unfold I in Hfinal. destruct Hfinal as (Hlen & Hlog & Hcase).
  split; [exact Hns |]. split; [exact Hnb |]. split; [exact Hlen |]. split.
  - rewrite Hlog. unfold w0. simpl w_log.
    rewrite <- !app_assoc. reflexivity.
  - destruct Hcase as [(Hv & -> & -> & ->) | (Hv & Hpos & -> & ->)].
    + left. repeat split.
      apply (f_equal (@length Z)) in Hv. rewrite range_length in Hv.
      simpl in Hv. lia.
    + right.
      assert (Hl : (0 < num_loops)%Z).
      { destruct (Z.ltb_spec 0 num_loops) as [Hl | Hl]; [exact Hl |].
        exfalso. apply Hv. unfold range, arange.
        replace (Z.to_nat (num_loops - 0)) with 0%nat by lia. reflexivity. }
      repeat split; try assumption. apply range_last. exact Hl.
Qed.


(** *** The switching loop *)

(** One successful turn of the inner loop: the block goes to the
    accumulator selected by [tick], the other accumulator is untouched,
    and the counter counts the block. *)
Lemma fswitch_step_ok num_samp nbins rate tick j s w s' w' :
  (num_samp <> 0)%Z ->
  fswitch_step feed periodogram num_samp nbins rate tick j s w = (Ok s', w') ->
  (0 < num_samp)%Z /\ (0 < fswitch_nfft num_samp nbins)%Z /\
  cnt s' = (cnt s + 1)%Z /\
  w_log w' = w_log w ++ fswitch_turn_log num_samp nbins rate /\
  (if tick
   then freqs_on s' = fftfreq (fswitch_nfft num_samp nbins) (1 / rate) /\
        length (p_xx_on s') = length (p_xx_on s) /\
        freqs_off s' = freqs_off s /\ p_xx_off s' = p_xx_off s
   else freqs_off s' = fftfreq (fswitch_nfft num_samp nbins) (1 / rate) /\
        length (p_xx_off s') = length (p_xx_off s) /\
        freqs_on s' = freqs_on s /\ p_xx_on s' = p_xx_on s).
Proof.
  intros Hns H. unfold fswitch_step in H.
  apply bind_ok_inv in H as (iq & w1 & Hread & H).
  apply sdr_read_samples_ok in Hread as (Hn & Hlen & Hlog1 & _ & _).
  assert (Hpos : (0 < num_samp)%Z) by lia.
  assert (Hstep : forall (k : list Q -> list npfloat -> fswitch_acc)
                         (acc : list npfloat),
             (('(f, p_xx) <- welch periodogram iq rate nbins None ;;
               p <- lift (np_iadd acc p_xx) ;;
               ret (k f p)) w1 = (Ok s', w')) ->
             exists p,
               s' = k (fftfreq (fswitch_nfft num_samp nbins) (1 / rate)) p /\
               length p = length acc /\
               (0 < fswitch_nfft num_samp nbins)%Z /\
               w_log w' = w_log w ++ fswitch_turn_log num_samp nbins rate).
  { intros k acc Hk.
    apply bind_ok_inv in Hk as ([f0 p0] & w2 & Hw & Hk).
    apply welch_ok in Hw as (Hseg & _ & _ & Hf & _ & Hlog2 & _ & _); [| lia].
    apply bind_ok_inv in Hk as (p1 & w3 & Hadd & Hk).
    apply lift_ok_inv in Hadd as [Hadd ->].
    apply ret_ok_inv in Hk as [-> ->].
    exists p1. rewrite Hlen in Hf. fold (fswitch_nfft num_samp nbins) in Hf.
    split; [rewrite Hf; reflexivity |].
    split; [eapply np_iadd_length; exact Hadd |].
    split.
    - unfold fswitch_nfft. destruct (nbins >? num_samp)%Z; lia.
    - rewrite Hlog2, Hlog1, <- app_assoc. reflexivity. }
  destruct tick.
  - apply Hstep in H as (p & -> & Hp & Hm & Hlog). simpl.
    repeat split; assumption.
  - apply Hstep in H as (p & -> & Hp & Hm & Hlog). simpl.
    repeat split; assumption.
Qed.

(** The inner loop of one dwell. *)
Lemma fswitch_inner_ok num_samp nbins rate tick num_loops s w s' w' :
  (num_samp <> 0)%Z ->
  for_each (range num_loops)
           (fswitch_step feed periodogram num_samp nbins rate tick) s w =
  (Ok s', w') ->
  cnt s' = (cnt s + Z.of_nat (Z.to_nat num_loops))%Z /\
  w_log w' =
  w_log w ++ flat_map (fun _ => fswitch_turn_log num_samp nbins rate)
                      (range num_loops) /\
  length (p_xx_on s') = length (p_xx_on s) /\
  length (p_xx_off s') = length (p_xx_off s) /\
  ((num_loops <= 0)%Z /\ s' = s
   \/
   (0 < num_loops)%Z /\ (0 < num_samp)%Z /\
   (0 < fswitch_nfft num_samp nbins)%Z /\
   if tick
   then freqs_on s' = fftfreq (fswitch_nfft num_samp nbins) (1 / rate) /\
        freqs_off s' = freqs_off s /\ p_xx_off s' = p_xx_off s
   else freqs_off s' = fftfreq (fswitch_nfft num_samp nbins) (1 / rate) /\
        freqs_on s' = freqs_on s /\ p_xx_on s' = p_xx_on s).
Proof.
  intros Hns H.
  set (F := fftfreq (fswitch_nfft num_samp nbins) (1 / rate)).
  set (turn := fswitch_turn_log num_samp nbins rate).
  pose (I := fun (visited : list Z) (a : fswitch_acc) (wa : world) =>
               cnt a = (cnt s + Z.of_nat (length visited))%Z /\
               w_log wa = w_log w ++ flat_map (fun _ => turn) visited /\
               length (p_xx_on a) = length (p_xx_on s) /\
               length (p_xx_off a) = length (p_xx_off s) /\
               (visited = [] /\ a = s
                \/
                visited <> [] /\ (0 < num_samp)%Z /\
                (0 < fswitch_nfft num_samp nbins)%Z /\
                if tick
                then freqs_on a = F /\
                     freqs_off a = freqs_off s /\ p_xx_off a = p_xx_off s
                else freqs_off a = F /\
                     freqs_on a = freqs_on s /\ p_xx_on a = p_xx_on s)).
  assert (Hfinal : I (range num_loops) s' w').
  { eapply (for_each_inv I); [| | exact H].
    - intros visited i rest a wa b wb _ HI Hstep.
      destruct HI as (Hc & Hlog & Hlon & Hloff & Hcase).
      apply fswitch_step_ok in Hstep as (Hpos & Hm & Hc' & Hlog' & Hside);
        [| exact Hns].
      unfold I. rewrite length_app, flat_map_app. simpl length.
      split; [lia |]. split.
      { rewrite Hlog', Hlog, <- app_assoc. simpl. reflexivity. }
      assert (Hne : visited ++ [i] <> []) by (destruct visited; discriminate).
      destruct tick.
      + destruct Hside as (Hf & Hl & Hfo & Hpo).
        split; [congruence |]. split; [congruence |].
        right. split; [exact Hne |]. split; [exact Hpos |].
        split; [exact Hm |]. split; [exact Hf |].
        destruct Hcase as [(_ & ->) | (_ & _ & _ & _ & Hfo' & Hpo')].
        * split; assumption.
        * split; congruence.
      + destruct Hside as (Hf & Hl & Hfo & Hpo).
        split; [congruence |]. split; [congruence |].
        right. split; [exact Hne |]. split; [exact Hpos |].
        split; [exact Hm |]. split; [exact Hf |].
        destruct Hcase as [(_ & ->) | (_ & _ & _ & _ & Hfo' & Hpo')].
        * split; assumption.
        * split; congruence.
    - unfold I. simpl. rewrite app_nil_r.
      repeat split; try lia. left. split; reflexivity. }
  destruct Hfinal as (Hc & Hlog & Hlon & Hloff & Hcase).
  rewrite range_length in Hc.
  split; [exact Hc |]. split; [exact Hlog |].
  split; [exact Hlon |]. split; [exact Hloff |].
  destruct Hcase as [(Hv & ->) | (Hv & Hpos & Hm & Hside)].
  - left. split; [| reflexivity].
    apply (f_equal (@length Z)) in Hv. rewrite range_length in Hv.
    simpl in Hv. lia.
  - right.
    assert (Hl : (0 < num_loops)%Z).
    { destruct (Z.ltb_spec 0 num_loops) as [Hl | Hl]; [exact Hl |].
      exfalso. apply Hv. unfold range, arange.
      replace (Z.to_nat (num_loops - 0)) with 0%nat by lia. reflexivity. }
    repeat split; assumption.
Qed.


Lemma fswitch_plan_ok num_samp rs t_int fswitch num_loops num_dwells :
  fswitch_plan num_samp rs t_int fswitch = Ok (num_loops, num_dwells) ->
  let N := py_int (fl (rs * t_int)) in
  let N_dwell := py_int (fl (rs * fl (1 / fswitch))) in
  ~ fswitch == 0 /\ (num_samp <> 0)%Z /\ (N_dwell <> 0)%Z /\
  num_loops = (N_dwell / num_samp)%Z /\ num_dwells = (N / N_dwell)%Z.
Proof.
  unfold fswitch_plan, float_div, float_mul, py_floordiv.
  destruct (Qeq_bool fswitch 0) eqn:Ef; [discriminate |].
  destruct (Z.eqb_spec num_samp 0) as [| Hns]; [discriminate |].
  destruct (Z.eqb_spec (py_int (fl (rs * fl (1 / fswitch)))) 0) as [| Hnd];
    [discriminate |].
  intros H. inversion H; subst. cbv zeta.
  repeat split; try assumption.
  apply Qeq_bool_neq. exact Ef.
Qed.

(** A successful switched integration: the dwell plan, the counter, and
    which accumulators saw a block.  Either no block was read at all, or
    only the first (ON) dwell read blocks, or both tunings did. *)
Lemma fswitch_integrate_ok num_samp nbins gain rate fc fthrow t_int fswitch
      w s w1 :
  fswitch_integrate feed periodogram num_samp nbins gain rate fc fthrow
                    t_int fswitch w = (Ok s, w1) ->
  exists num_loops num_dwells,
    fswitch_plan num_samp rate t_int fswitch = Ok (num_loops, num_dwells) /\
    (0 <= nbins)%Z /\
    length (p_xx_on s) = Z.to_nat nbins /\
    length (p_xx_off s) = Z.to_nat nbins /\
    cnt s =
    (Z.of_nat (Z.to_nat num_loops) * Z.of_nat (Z.to_nat num_dwells))%Z /\
    let Z0 := repeat 0 (Z.to_nat nbins) in
    let F := fftfreq (fswitch_nfft num_samp nbins) (1 / rate) in
    (((num_loops <= 0)%Z \/ (num_dwells <= 0)%Z) /\
     freqs_on s = Z0 /\ freqs_off s = Z0 /\
     p_xx_on s = repeat (Fin 0) (Z.to_nat nbins) /\
     p_xx_off s = repeat (Fin 0) (Z.to_nat nbins)
     \/
     (0 < num_loops)%Z /\ num_dwells = 1%Z /\ (0 < num_samp)%Z /\
     (0 < fswitch_nfft num_samp nbins)%Z /\
     freqs_on s = F /\ freqs_off s = Z0
     \/
     (0 < num_loops)%Z /\ (2 <= num_dwells)%Z /\ (0 < num_samp)%Z /\
     (0 < fswitch_nfft num_samp nbins)%Z /\
     freqs_on s = F /\ freqs_off s = F).
Proof.
  intros H. unfold fswitch_integrate in H.
  apply bind_ok_inv in H as ([] & w2 & H1 & H).
  apply bind_ok_inv in H as ([] & w3 & H2 & H).
  apply bind_ok_inv in H as ([] & w4 & H3 & H).
  apply bind_ok_inv in H as (rs & w5 & H4 & H).
  unfold sdr_set_rs in H1. inversion H1; subst w2; clear H1.
  unfold sdr_set_fc in H2. inversion H2; subst w3; clear H2.
  unfold sdr_set_gain in H3. inversion H3; subst w4; clear H3.
  unfold sdr_get_rs in H4. inversion H4; subst rs w5; clear H4.
  simpl w_rs in H.
  apply bind_ok_inv in H as ([num_loops num_dwells] & w6 & Hplan & H).
  apply lift_ok_inv in Hplan as [Hplan ->].
  pose proof (fswitch_plan_ok _ _ _ _ Hplan) as (_ & Hns & _ & _ & _).
  apply bind_ok_inv in H as (f1 & w7 & Hz1 & H).
  apply lift_ok_inv in Hz1 as [Hz1 ->].
  apply np_zeros_ok in Hz1 as [Hnb ->].
  apply bind_ok_inv in H as (f2 & w8 & Hz2 & H).
  apply lift_ok_inv in Hz2 as [Hz2 ->].
  apply np_zeros_ok in Hz2 as [_ ->].
  apply bind_ok_inv in H as (p1 & w9 & Hz3 & H).
  apply lift_ok_inv in Hz3 as [Hz3 ->].
  apply np_zeros_ok in Hz3 as [_ ->].
  apply bind_ok_inv in H as (p2 & w10 & Hz4 & H).
  apply lift_ok_inv in Hz4 as [Hz4 ->].
  apply np_zeros_ok in Hz4 as [_ ->].
  set (w0 := mkWorld _ _ _ _ _) in H.
  set (Z0 := repeat 0 (Z.to_nat nbins)) in *.
  set (P0 := repeat (Fin 0) (Z.to_nat nbins)) in *.
  set (s0 := mkAcc Z0 Z0 P0 P0 0) in H.
  set (F := fftfreq (fswitch_nfft num_samp nbins) (1 / rate)).
  set (nl := Z.of_nat (Z.to_nat num_loops)).
  pose (J := fun (visited : list Z) (a : fswitch_acc) (wa : world) =>
               cnt a = (nl * Z.of_nat (length visited))%Z /\
               length (p_xx_on a) = Z.to_nat nbins /\
               length (p_xx_off a) = Z.to_nat nbins /\
               (((num_loops <= 0)%Z \/ visited = []) /\ a = s0
                \/
                (0 < num_loops)%Z /\ length visited = 1%nat /\
                (0 < num_samp)%Z /\ (0 < fswitch_nfft num_samp nbins)%Z /\
                freqs_on a = F /\ freqs_off a = Z0
                \/
                (0 < num_loops)%Z /\ (2 <= length visited)%nat /\
                (0 < num_samp)%Z /\ (0 < fswitch_nfft num_samp nbins)%Z /\
                freqs_on a = F /\ freqs_off a = F)).
  assert (Hfinal : J (range num_dwells) s w1).
  { eapply (for_each_inv J); [| | exact H].
    - intros visited i rest a wa b wb Hsplit HJ Hdwell.
      apply range_split in Hsplit.
      destruct HJ as (Hc & Hlon & Hloff & Hcase).
      unfold fswitch_dwell in Hdwell.
      apply bind_ok_inv in Hdwell as ([] & wt & _ & Hinner).
      apply fswitch_inner_ok in Hinner
        as (Hc' & _ & Hlon' & Hloff' & Hres); [| exact Hns].
      unfold J. rewrite length_app. simpl length.
      split; [fold nl in Hc'; lia |].
      split; [congruence |]. split; [congruence |].
      destruct Hres as [(Hle & ->) | (Hl & Hpos & Hm & Hside)].
      + destruct Hcase as [(_ & ->) | [(Hl & _) | (Hl & _)]]; try lia.
        left. split; [left; exact Hle | reflexivity].
      + destruct Hcase as
            [([Hle | ->] & ->)
            | [(_ & Hone & _ & _ & Hon & Hoff)
              | (_ & Htwo & _ & _ & Hon & Hoff)]].
        * lia.
        * simpl in Hsplit. subst i. simpl in Hside.
          destruct Hside as (Hon & Hoff & _).
          right. left. repeat split; assumption.
        * rewrite Hone in Hsplit. subst i. simpl in Hside.
          destruct Hside as (Hoff' & Hon' & _).
          right. right. repeat split; try assumption; try lia.
          congruence.
        * right. right.
          destruct (i mod 2 =? 0)%Z.
          -- destruct Hside as (Hon' & Hoff' & _).
             repeat split; try assumption; try lia. congruence.
          -- destruct Hside as (Hoff' & Hon' & _).
             repeat split; try assumption; try lia. congruence.
    - unfold J. simpl. repeat split; try lia; try apply repeat_length.
      left. split; [right; reflexivity | reflexivity]. }
  destruct Hfinal as (Hc & Hlon & Hloff & Hcase).
  rewrite range_length in Hc, Hcase.
  exists num_loops, num_dwells.
  split; [exact Hplan |]. split; [exact Hnb |].
  split; [exact Hlon |]. split; [exact Hloff |].
  split; [exact Hc |]. cbv zeta. fold Z0 F.
  destruct Hcase as
      [(Hno & ->) | [(Hl & Hone & Hrest) | (Hl & Htwo & Hrest)]].
  - left. split; [| simpl; repeat split].
    destruct Hno as [Hle | Hnil]; [left; exact Hle | right].
    apply (f_equal (@length Z)) in Hnil. rewrite range_length in Hnil.
    simpl in Hnil. lia.
  - right. left. split; [exact Hl |]. split; [lia | exact Hrest].
  - right. right. split; [exact Hl |]. split; [lia | exact Hrest].
Qed.

End Loops.

(** ** The total-power run *)

(** The stream of a source of constant sample power [k]: after [n]
    deliveries the running total has grown by [n * num_samp * k] and the
    counter by [n]. *)
Lemma sdr_read_samples_async_constant
      (feed : Q -> nat -> complex) (k : Q) (num_samp : Z) :
  (forall f i, re (feed f i) ^ 2 + im (feed f i) ^ 2 == k) ->
  (0 < num_samp)%Z ->
  forall n (l : list Z) p c t w,
    length l = n ->
    as_np p = Fin t ->
    exists p' t' w',
      for_each l
               (fun _ s => iq <- sdr_read_samples feed num_samp ;;
                           ret (p_tot_callback iq s)) (p, c) w =
      (Ok (p', (c + Z.of_nat n)%Z), w') /\
      as_np p' = Fin t' /\
      t' == t + inject_Z (Z.of_nat n) * (inject_Z num_samp * k) /\
      ((0 < n)%nat -> p' = NpFloat64 (Fin t')).
Proof.
  intros Hk Hpos. induction n as [| n IH]; intros l p c t w Hl Hp.
  - destruct l; [| discriminate Hl].
    exists p, t, w. simpl. rewrite Z.add_0_r.
    repeat split; [exact Hp | ring | lia].
  - destruct l as [| i l]; [discriminate Hl |].
    injection Hl as Hl. cbn [for_each].
    unfold bind at 1 2. unfold sdr_read_samples at 1.
    destruct (Z.ltb_spec num_samp 0) as [Hneg | _]; [lia |].
    unfold ret at 1. cbv beta iota.
    set (iq := map (feed (w_fc w)) (seq (w_pos w) (Z.to_nat num_samp))).
    set (w1 := mkWorld _ _ _ _ _).
    assert (Hbp : block_power iq == inject_Z num_samp * k).
    { rewrite block_power_eq.
      replace num_samp with (len iq).
      - apply Qsum_map_const. unfold iq. apply Forall_map.
        apply Forall_forall. intros x _. apply Hk.
      - unfold len, iq. rewrite length_map, length_seq. lia. }
    assert (Hcb : p_tot_callback iq (p, c) =
                  (NpFloat64 (Fin (t + block_power iq)), (c + 1)%Z))
      by (unfold p_tot_callback; rewrite Hp; reflexivity).
    rewrite Hcb.
    destruct (IH l (NpFloat64 (Fin (t + block_power iq))) (c + 1)%Z
                 (t + block_power iq) w1 Hl eq_refl)
      as (p' & t' & w' & Hrun & Hp' & Ht' & Hnp).
    exists p', t', w'. split; [| split; [exact Hp' | split]].
    + replace (c + Z.of_nat (S n))%Z with (c + 1 + Z.of_nat n)%Z by lia.
      exact Hrun.
    + rewrite Ht', Hbp, Nat2Z.inj_succ. unfold Z.succ.
      rewrite inject_Z_plus. ring.
    + intros _. destruct n as [| n'].
      * destruct l; [| discriminate Hl]. simpl in Hrun.
        inversion Hrun; subst p' w'. simpl in Hp'. inversion Hp'.
        reflexivity.
      * apply Hnp. lia.
Qed.

(** The asynchronous read: after the blocks that go to the callback the
    driver delivers one more block, which the wrapper drops. *)
Lemma sdr_read_samples_async_eval
      (feed : Q -> nat -> complex) {S : Type}
      (callback : list complex -> S -> S) calls n s w s' w' :
  (0 <= n)%Z ->
  for_each (range calls)
           (fun _ s => iq <- sdr_read_samples feed n ;;
                       ret (callback iq s)) s w = (Ok s', w') ->
  sdr_read_samples_async feed callback calls n s w =
  (Ok s', mkWorld (w_rs w') (w_fc w') (w_gain w')
                  (w_pos w' + Z.to_nat n)%nat (w_log w' ++ [EvRead n])).
Proof.
  intros Hn Hrun. unfold sdr_read_samples_async.
  erewrite bind_ok by exact Hrun.
  unfold bind, sdr_read_samples, ret.
  destruct (Z.ltb_spec n 0) as [Hneg | _]; [lia | reflexivity].
Qed.

(** With at least one block of samples to collect the callback runs at
    least once. *)
Lemma limit_calls_pos num_samp rate t_int :
  (0 < num_samp)%Z ->
  inject_Z num_samp <= fl (rate * t_int) ->
  (1 <= limit_calls (fl (inject_Z (py_int (fl (rate * t_int))) /
                         inject_Z num_samp)))%Z.
Proof.
  intros Hns Hle.
  assert (Hq : 0 < inject_Z num_samp).
  { change 0 with (inject_Z 0). rewrite <- Zlt_Qlt. exact Hns. }
  assert (Hx : 0 <= fl (rate * t_int)) by lra.
  assert (HN : (num_samp <= py_int (fl (rate * t_int)))%Z).
  { unfold py_int. apply Qle_bool_iff in Hx. rewrite Hx.
    rewrite <- (Qfloor_Z num_samp). apply Qfloor_resp_le. exact Hle. }
  assert (H1 : 1 <= inject_Z (py_int (fl (rate * t_int))) /
                    inject_Z num_samp).
  { apply Qle_shift_div_l; [exact Hq |].
    rewrite Qmult_1_l. rewrite <- Zle_Qle. exact HN. }
  assert (H2 : 1 <= fl (inject_Z (py_int (fl (rate * t_int))) /
                        inject_Z num_samp)).
  { apply fl_ge_double; [reflexivity | exact H1]. }
  apply Qfloor_resp_le in H2. change (Qfloor 1) with 1%Z in H2.
  unfold limit_calls. lia.
Qed.

(** X2.  On a source of constant sample power [k] a total-power run with
    at least one block of samples to collect ([num_samp <= rate * t_int]
    as computed in double precision) returns [k], however long the
    integration. *)
Lemma run_total_power_int_constant_power
      (feed : Q -> nat -> complex) (k : Q) (num_samp : Z)
      (gain rate fc t_int : Q) (w : world) :
  (forall f i, re (feed f i) ^ 2 + im (feed f i) ^ 2 == k) ->
  (0 < num_samp)%Z ->
  ~ rate == 0 ->
  inject_Z num_samp <= fl (rate * t_int) ->
  exists v w',
    run_total_power_int feed num_samp gain rate fc t_int w =
    (Ok (NpFloat64 (Fin v)), w') /\
    v == k.
Proof.
  intros Hk Hpos Hrate Hblock.
  assert (Hns : Qeq_bool (inject_Z num_samp) 0 = false).
  { destruct (Qeq_bool (inject_Z num_samp) 0) eqn:E; [| reflexivity].
    apply Qeq_bool_eq in E. exfalso.
    apply (inject_Z_nonzero (z := num_samp)); [lia | exact E]. }
  assert (Hr : Qeq_bool rate 0 = false).
  { destruct (Qeq_bool rate 0) eqn:E; [| reflexivity].
    apply Qeq_bool_eq in E. contradiction. }
  set (calls := limit_calls (fl (inject_Z (py_int (fl (rate * t_int))) /
                                 inject_Z num_samp))).
  assert (Hcalls : (1 <= calls)%Z) by (apply limit_calls_pos; assumption).
  set (w1 := mkWorld rate fc gain (w_pos w)
                     ((((w_log w ++ [EvOpen]) ++ [EvSetRate rate]) ++
                       [EvSetFc fc]) ++ [EvSetGain gain])).
  destruct (sdr_read_samples_async_constant feed Hk Hpos
              (n := Z.to_nat calls) (range calls) (PyFloat 0) 0%Z w1
              (range_length calls) eq_refl)
    as (p' & t' & w' & Hrun & _ & Ht' & Hnp).
  rewrite (Hnp ltac:(lia)) in Hrun. clear Hnp p'.
  apply (sdr_read_samples_async_eval feed p_tot_callback)
    in Hrun; [| lia].
  set (w2 := mkWorld _ _ _ _ _) in Hrun.
  set (n := (0 + Z.of_nat (Z.to_nat calls))%Z) in *.
  assert (Hd : ~ inject_Z (num_samp * n) == 0).
  { apply inject_Z_nonzero. unfold n. nia. }
  exists (t' / inject_Z (num_samp * n)).
  exists (mkWorld (w_rs w2) (w_fc w2) (w_gain w2) (w_pos w2)
                  ((w_log w2 ++ [EvClose]) ++ [EvClose])).
  split.
  - unfold run_total_power_int, try_finally.
    do 5 (erewrite bind_ok by reflexivity).
    erewrite bind_ok
      by (unfold lift, float_div; rewrite Hns; reflexivity).
    erewrite bind_ok by exact Hrun.
    erewrite bind_ok
      by (unfold lift, effective_time, py_truediv; cbn [snd]; rewrite Hr;
          reflexivity).
    erewrite bind_ok
      by (unfold lift, total_power_average; rewrite (np_div_finite _ Hd);
          reflexivity).
    erewrite bind_ok by reflexivity.
    reflexivity.
  - rewrite Ht', inject_Z_mult. rewrite inject_Z_mult in Hd.
    unfold n in *. rewrite Z.add_0_l in *.
    field. split; apply inject_Z_nonzero; lia.
Qed.

(** ** The dwell plan *)

Lemma py_int_nonneg x : 0 <= x -> py_int x = Qfloor x.
Proof.
  intros H. unfold py_int.
  apply Qle_bool_iff in H. rewrite H. reflexivity.
Qed.

Lemma py_int_pos_inv x : (0 < py_int x)%Z -> 0 <= x /\ py_int x = Qfloor x.
Proof.
  intros H. unfold py_int in *.
  destruct (Qle_bool 0 x) eqn:E.
  - apply Qle_bool_iff in E. split; [exact E | reflexivity].
  - exfalso.
    assert (Hx : x <= 0).
    { apply Qnot_lt_le. intros Hlt. apply Qlt_le_weak in Hlt.
      apply Qle_bool_iff in Hlt. congruence. }
    apply Qceiling_resp_le in Hx. change (Qceiling 0) with 0%Z in Hx. lia.
Qed.

Lemma Qfloor_double x : (2 * Qfloor x <= Qfloor (2 * x))%Z.
Proof.
  rewrite <- (Qfloor_Z (2 * Qfloor x)).
  apply Qfloor_resp_le.
  rewrite inject_Z_mult.
  apply Qmult_le_l; [reflexivity | apply Qfloor_le].
Qed.

(** With a positive sample rate, a plan that passed the check on the
    integration time and reads blocks at all has at least two dwells. *)
Lemma fswitch_plan_two_dwells num_samp rate t_int fswitch num_loops num_dwells :
  0 < rate ->
  fswitch_check t_int fswitch = Ok tt ->
  fswitch_plan num_samp rate t_int fswitch = Ok (num_loops, num_dwells) ->
  (0 < num_samp)%Z -> (0 < num_loops)%Z ->
  (2 <= num_dwells)%Z.
Proof.
  intros Hrate Hchk Hplan Hns Hnl.
  apply fswitch_plan_ok in Hplan as (Hf & _ & Hnd & -> & ->).
  unfold fswitch_check, float_div, float_mul in Hchk.
  destruct (Qeq_bool fswitch 0); [discriminate Hchk |].
  destruct (Qle_bool (fl (2 * fl (1 / fswitch))) t_int) eqn:Hle;
    [| discriminate Hchk].
  apply Qle_bool_iff in Hle.
  rewrite fl_double, fl_idem in Hle.
  set (d := fl (1 / fswitch)) in *.
  assert (Hdw : (0 < py_int (fl (rate * d)))%Z).
  { destruct (Z.ltb_spec 0 (py_int (fl (rate * d)))) as [Hp | Hp];
      [exact Hp |].
    exfalso.
    assert (py_int (fl (rate * d)) / num_samp <= 0)%Z; [| lia].
    apply Z.div_le_upper_bound; lia. }
  apply py_int_pos_inv in Hdw as Hx. destruct Hx as [Hx Hfl].
  assert (Hmono : 2 * fl (rate * d) <= fl (rate * t_int)).
  { rewrite <- fl_double. apply fl_mono.
    setoid_replace (2 * (rate * d)) with (rate * (2 * d)) by ring.
    apply Qmult_le_l; [exact Hrate | exact Hle]. }
  assert (Hpos : 0 <= fl (rate * t_int)) by lra.
  rewrite (py_int_nonneg Hpos).
  apply Z.div_le_lower_bound; [exact Hdw |].
  rewrite Hfl.
  eapply Z.le_trans; [| apply Qfloor_resp_le; exact Hmono].
  rewrite Z.mul_comm. apply Qfloor_double.
Qed.

(** ** Frequency axes *)

(** The bins of a shifted and recentred two-sided axis. *)
Lemma axis_nth_inv m d c i x :
  (0 < m)%Z ->
  nth_error (recentre c (fftshift (fftfreq m d))) i = Some x ->
  (i < Z.to_nat m)%nat /\
  x = inject_Z (- (m / 2) + Z.of_nat i) * (1 / (inject_Z m * d)) + c.
Proof.
  intros Hm H.
  assert (Hi : (i < Z.to_nat m)%nat).
  { rewrite <- (fftfreq_length d Hm), <- fftshift_length,
      <- (recentre_length c).
    apply nth_error_Some. congruence. }
  split; [exact Hi |].
  rewrite recentre_nth, fftshift_fftfreq_nth in H by assumption.
  simpl in H. inversion H. reflexivity.
Qed.

Lemma axis_nth m d c i :
  (0 < m)%Z -> (i < Z.to_nat m)%nat ->
  nth_error (recentre c (fftshift (fftfreq m d))) i =
  Some (inject_Z (- (m / 2) + Z.of_nat i) * (1 / (inject_Z m * d)) + c).
Proof.
  intros Hm Hi.
  rewrite recentre_nth, fftshift_fftfreq_nth by assumption. reflexivity.
Qed.

(** The bins of a shifted and recentred axis that was never written. *)
Lemma zero_axis_nth_inv n c i x :
  nth_error (recentre c (fftshift (repeat 0 n))) i = Some x ->
  (i < n)%nat /\ x = 0 + c.
Proof.
  intros H. rewrite fftshift_repeat in H.
  assert (Hi : (i < n)%nat).
  { rewrite <- (repeat_length 0 n), <- (recentre_length c).
    apply nth_error_Some. congruence. }
  split; [exact Hi |].
  rewrite recentre_nth, nth_error_repeat in H by exact Hi.
  simpl in H. inversion H. reflexivity.
Qed.

Lemma centred_zero_axis n c :
  centred_at c (recentre c (fftshift (repeat 0 n))).
Proof.
  intros Hne. rewrite fftshift_repeat in *.
  assert (Hn : (0 < n)%nat).
  { destruct n; [exfalso; apply Hne; reflexivity | lia]. }
  rewrite recentre_length, repeat_length.
  exists (0 + c). split; [| ring].
  rewrite recentre_nth, nth_error_repeat; [reflexivity |].
  apply Nat.div_lt; lia.
Qed.

Lemma centred_fft_axis m d c :
  (0 < m)%Z -> centred_at c (recentre c (fftshift (fftfreq m d))).
Proof.
  intros Hm _.
  rewrite recentre_length, fftshift_length, fftfreq_length by exact Hm.
  assert (Hlt : (Z.to_nat m / 2 < Z.to_nat m)%nat) by (apply Nat.div_lt; lia).
  rewrite axis_nth by assumption.
  eexists. split; [reflexivity |].
  assert (Hd : Z.of_nat (Z.to_nat m / 2) = (m / 2)%Z).
  { rewrite Nat2Z.inj_div, Z2Nat.id by lia. reflexivity. }
  rewrite Hd, Z.add_opp_diag_l. ring.
Qed.

Lemma rotated_fftshift {A B : Type} (f : A -> B) (raw : list A) :
  rotated f raw (map f (fftshift raw)).
Proof.
  split.
  - rewrite length_map. apply fftshift_length.
  - intros i Hi. rewrite nth_error_map, fftshift_nth by exact Hi.
    reflexivity.
Qed.

Lemma inject_Z_succ_bin a i :
  inject_Z (a + Z.of_nat (S i)) == inject_Z (a + Z.of_nat i) + 1.
Proof.
  rewrite Nat2Z.inj_succ. unfold Z.succ.
  rewrite Z.add_assoc, inject_Z_plus. reflexivity.
Qed.

Section Axes.

Variable feed : Q -> nat -> complex.
Variable periodogram : list complex -> Q -> Z -> Z -> list Q.
Variable get_window : Z -> list Q.
Variable log10 : Q -> Q.

(** C10.  When a switched run with a positive sample rate has passed its
    check and reaches the fold, the two axes have the same number of bins,
    the OFF axis is the ON axis moved by [fthrow - fc] bin by bin, and both
    have one and the same uniform spacing between neighbouring bins. *)
Theorem switched_axes_translated
        num_samp nbins gain rate fc fthrow t_int fswitch w a w1 :
  0 < rate ->
  fswitch_check t_int fswitch = Ok tt ->
  fswitch_prepare feed periodogram num_samp nbins gain rate fc fthrow t_int
                  fswitch w = (Ok a, w1) ->
  length (fa_freqs_on a) = length (fa_freqs_off a) /\
  (forall i x y,
      nth_error (fa_freqs_on a) i = Some x ->
      nth_error (fa_freqs_off a) i = Some y ->
      y - x == fthrow - fc) /\
  (exists step,
      (forall i x x',
          nth_error (fa_freqs_on a) i = Some x ->
          nth_error (fa_freqs_on a) (S i) = Some x' ->
          x' - x == step) /\
      (forall i y y',
          nth_error (fa_freqs_off a) i = Some y ->
          nth_error (fa_freqs_off a) (S i) = Some y' ->
          y' - y == step)).
Proof.
  intros Hrate Hchk H.
  apply fswitch_prepare_inv in H as (s & Hint & ->).
  apply fswitch_integrate_ok in Hint
    as (nl & nd & Hplan & Hnb & _ & _ & _ & Hcase).
  cbv zeta in Hcase. unfold fswitch_finish.
  cbn [fa_freqs_on fa_freqs_off fa_p_avg_on fa_p_avg_off].
  destruct Hcase as
      [(_ & -> & -> & _)
      | [(Hl & -> & Hpos & _)
        | (_ & _ & _ & Hm & -> & ->)]].
  - split; [rewrite !recentre_length; reflexivity |]. split.
    + intros i x y Hx Hy.
      apply zero_axis_nth_inv in Hx as [_ ->].
      apply zero_axis_nth_inv in Hy as [_ ->]. ring.
    + exists 0. split; intros i x x' Hx Hx';
        apply zero_axis_nth_inv in Hx as [_ ->];
        apply zero_axis_nth_inv in Hx' as [_ ->]; ring.
  - assert (2 <= 1)%Z by (eapply fswitch_plan_two_dwells; eassumption). lia.
  - split; [rewrite !recentre_length; reflexivity |]. split.
    + intros i x y Hx Hy.
      apply axis_nth_inv in Hx as [_ ->]; [| exact Hm].
      apply axis_nth_inv in Hy as [_ ->]; [| exact Hm]. ring.
    + exists (1 / (inject_Z (fswitch_nfft num_samp nbins) * (1 / rate))).
      split; intros i x x' Hx Hx';
        (apply axis_nth_inv in Hx as [_ ->]; [| exact Hm]);
        (apply axis_nth_inv in Hx' as [_ ->]; [| exact Hm]);
        rewrite inject_Z_succ_bin; ring.
Qed.

(** C8.  In a successful spectrum run the returned axis is the axis of
    the last periodogram rotated by the FFT shift and moved by [fc], the
    returned values are the accumulator rotated by the same shift and
    then transformed element by element, and the middle bin of the
    returned axis is [fc].  In a switched run that reaches the fold the
    same holds of the ON axis and accumulator with [fc] and of the OFF
    axis and accumulator with [fthrow]. *)
Theorem frequency_axis_recentred
        num_samp nbins gain rate fc fthrow t_int fswitch
        w freqs p_db w' wf a wf' :
  (run_spectrum_int feed periodogram get_window log10 num_samp nbins gain
                    rate fc t_int w = (Ok (freqs, p_db), w') ->
   exists f_raw p_raw c w1 g,
     spectrum_integrate feed periodogram num_samp nbins gain rate fc t_int
                        (opened w) = (Ok (f_raw, p_raw, c), w1) /\
     freqs = map (fun f => f + fc) (fftshift f_raw) /\
     p_db = map g (fftshift p_raw) /\
     length f_raw = length p_raw /\
     rotated (fun f => f + fc) f_raw freqs /\
     rotated g p_raw p_db /\
     centred_at fc freqs) /\
  (fswitch_prepare feed periodogram num_samp nbins gain rate fc fthrow t_int
                   fswitch wf = (Ok a, wf') ->
   exists s w1 g,
     fswitch_integrate feed periodogram num_samp nbins gain rate fc fthrow
                       t_int fswitch wf = (Ok s, w1) /\
     fa_freqs_on a = map (fun f => f + fc) (fftshift (freqs_on s)) /\
     fa_freqs_off a = map (fun f => f + fthrow) (fftshift (freqs_off s)) /\
     fa_p_avg_on a = map g (fftshift (p_xx_on s)) /\
     fa_p_avg_off a = map g (fftshift (p_xx_off s)) /\
     rotated (fun f => f + fc) (freqs_on s) (fa_freqs_on a) /\
     rotated (fun f => f + fthrow) (freqs_off s) (fa_freqs_off a) /\
     rotated g (p_xx_on s) (fa_p_avg_on a) /\
     rotated g (p_xx_off s) (fa_p_avg_off a) /\
     centred_at fc (fa_freqs_on a) /\
     centred_at fthrow (fa_freqs_off a)).
Proof.
  split.
  - intros H. apply run_spectrum_int_inv in H as (s & w1 & Hint & Hout).
    destruct s as [[f_raw p_raw] c].
    unfold spectrum_finish in Hout. inversion Hout; subst freqs p_db.
    clear Hout.
    set (win := get_window (spectrum_nperseg nbins)).
    set (g := fun p =>
                np_mul (Fin 10)
                  (np_log10 log10
                     (np_div (np_mul (np_div p (Fin (inject_Z c)))
                                     (window_correction win))
                             (Fin rate)))).
    assert (Hg : db_of_psd log10
                   (psd_of_power win rate
                      (spectrum_average (fftshift p_raw) c)) =
                 map g (fftshift p_raw)).
    { unfold db_of_psd, psd_of_power, spectrum_average.
      rewrite !map_map. reflexivity. }
    exists f_raw, p_raw, c, w1, g.
    split; [exact Hint |]. split; [reflexivity |]. split; [exact Hg |].
    apply spectrum_integrate_ok in Hint
      as (_ & Hnb & Hlen & _ & Hcase).
    assert (Hfl : length f_raw = Z.to_nat nbins).
    { destruct Hcase as [(_ & -> & _) | (_ & Hpos & -> & _)].
      - apply repeat_length.
      - apply fftfreq_length. exact Hpos. }
    split; [congruence |].
    split; [apply rotated_fftshift |].
    split; [rewrite Hg; apply rotated_fftshift |].
    destruct Hcase as [(_ & -> & _) | (_ & Hpos & -> & _)].
    + apply centred_zero_axis.
    + apply centred_fft_axis. exact Hpos.
  - intros H. apply fswitch_prepare_inv in H as (s & Hint & ->).
    exists s, wf', (fun p => np_div p (Fin (inject_Z (cnt s)))).
    split; [exact Hint |].
    unfold fswitch_finish.
    cbn [fa_freqs_on fa_freqs_off fa_p_avg_on fa_p_avg_off].
    repeat (split; [first [reflexivity | apply rotated_fftshift] |]).
    apply fswitch_integrate_ok in Hint
      as (nl & nd & _ & _ & _ & _ & _ & Hcase).
    cbv zeta in Hcase.
    destruct Hcase as
        [(_ & -> & -> & _)
        | [(_ & _ & _ & Hm & -> & ->)
          | (_ & _ & _ & Hm & -> & ->)]].
    + split; apply centred_zero_axis.
    + split; [apply centred_fft_axis; exact Hm | apply centred_zero_axis].
    + split; apply centred_fft_axis; exact Hm.
Qed.

End Axes.

(** ** What a run logs *)

Lemma emits_silent {A : Type} (P : event -> Prop) (m : M A) :
  (forall w, snd (m w) = w) -> emits P m.
Proof.
  intros H w. exists []. rewrite H, app_nil_r. split; constructor.
Qed.

Lemma emits_ret {A : Type} P (a : A) : emits P (ret a).
Proof. apply emits_silent. reflexivity. Qed.

Lemma emits_raise {A : Type} P e : emits P (@raise A e).
Proof. apply emits_silent. reflexivity. Qed.

Lemma emits_lift {A : Type} P (r : result A) : emits P (lift r).
Proof. apply emits_silent. reflexivity. Qed.

Lemma emits_get_rs P : emits P sdr_get_rs.
Proof. apply emits_silent. reflexivity. Qed.

Lemma emits_one {A : Type} (P : event -> Prop) (m : M A) e :
  P e -> (forall w, w_log (snd (m w)) = w_log w ++ [e]) -> emits P m.
Proof.
  intros HP H w. exists [e]. split; [apply H | repeat constructor; exact HP].
Qed.

Lemma emits_emit P e : P e -> emits P (emit e).
Proof. intros HP. eapply emits_one; [exact HP | reflexivity]. Qed.

Lemma emits_set_rs P r : P (EvSetRate r) -> emits P (sdr_set_rs r).
Proof. intros HP. eapply emits_one; [exact HP | reflexivity]. Qed.

Lemma emits_set_fc P f : P (EvSetFc f) -> emits P (sdr_set_fc f).
Proof. intros HP. eapply emits_one; [exact HP | reflexivity]. Qed.

Lemma emits_set_gain P g : P (EvSetGain g) -> emits P (sdr_set_gain g).
Proof. intros HP. eapply emits_one; [exact HP | reflexivity]. Qed.

Lemma emits_read P feed n : P (EvRead n) -> emits P (sdr_read_samples feed n).
Proof.
  intros HP. eapply emits_one; [exact HP |]. intros w.
  unfold sdr_read_samples. destruct (n <? 0)%Z; reflexivity.
Qed.

Lemma emits_bind {A B : Type} P (m : M A) (k : A -> M B) :
  emits P m -> (forall a, emits P (k a)) -> emits P (bind m k).
Proof.
  intros Hm Hk w. destruct (Hm w) as (evs1 & E1 & F1).
  unfold bind. destruct (m w) as [[a | e] w1]; simpl in E1.
  - destruct (Hk a w1) as (evs2 & E2 & F2).
    exists (evs1 ++ evs2). split.
    + rewrite E2, E1, app_assoc. reflexivity.
    + apply Forall_app. split; assumption.
  - exists evs1. split; assumption.
Qed.

Lemma emits_try_finally {A : Type} P (body : M A) (fin : M unit) :
  emits P body -> emits P fin -> emits P (try_finally body fin).
Proof.
  intros Hb Hf w. destruct (Hb w) as (evs1 & E1 & F1).
  unfold try_finally. destruct (body w) as [r w1]; simpl in E1.
  destruct (Hf w1) as (evs2 & E2 & F2).
  exists (evs1 ++ evs2). split.
  - destruct (fin w1) as [[u | e] w2]; simpl in *;
      rewrite E2, E1, app_assoc; reflexivity.
  - apply Forall_app. split; assumption.
Qed.

Lemma emits_for_each {S : Type} P (body : Z -> S -> M S) l :
  (forall i s, emits P (body i s)) -> forall s, emits P (for_each l body s).
Proof.
  intros Hb. induction l as [| i l IH]; intros s; simpl.
  - apply emits_ret.
  - apply emits_bind; [apply Hb | exact IH].
Qed.

Lemma emits_welch P periodogram x fs nperseg nfft :
  P (EvWelch fs nperseg nfft) ->
  emits P (welch periodogram x fs nperseg nfft).
Proof.
  intros HP. unfold welch.
  apply emits_bind; [apply emits_emit; exact HP | intros _].
  destruct (len x =? 0)%Z; [apply emits_ret |].
  destruct (nperseg <? 1)%Z; [apply emits_raise |].
  match goal with |- context [(?a <? ?b)%Z] => destruct (a <? b)%Z end;
    [apply emits_raise |].
  apply emits_bind; [apply emits_lift | intros d; apply emits_ret].
Qed.

Create HintDb emits.
#[local] Hint Resolve emits_ret emits_raise emits_lift emits_get_rs
  emits_emit emits_set_rs emits_set_fc emits_set_gain emits_read
  emits_welch emits_try_finally : emits.

Ltac emits_step :=
  match goal with
  | |- emits _ (welch _ _ _ _ _) => apply emits_welch
  | |- emits _ (bind _ _) => apply emits_bind
  | |- emits _ (try_finally _ _) => apply emits_try_finally
  | |- emits _ (for_each _ _ _) => apply emits_for_each
  | |- emits _ (match ?x with _ => _ end) => destruct x
  | |- emits _ _ => solve [auto with emits]
  | |- forall _, _ => intro
  end.

Ltac emits_auto := repeat emits_step.

Lemma spectrum_nperseg_min nbins : spectrum_nperseg nbins = Z.min nbins 256.
Proof. unfold spectrum_nperseg. destruct (Z.ltb_spec nbins 256); lia. Qed.

(** C5, as amended.  Every call of [welch] in a spectrum run asks for the
    segment length [min(nbins, 256)] and the transform length [nbins];
    every call of [welch] in a switched run asks for the segment length
    [nbins] and leaves the transform length to the library.  In both runs
    the request is the same for every block, whether the run returns or
    raises. *)
Theorem segment_length_policy
        (feed : Q -> nat -> complex)
        (periodogram : list complex -> Q -> Z -> Z -> list Q)
        (get_window : Z -> list Q) (log10 : Q -> Q)
        (f_throw_fold :
           list Q -> list Q -> list npfloat -> list npfloat -> result folded)
        (num_samp nbins : Z) (gain rate fc fthrow t_int fswitch : Q) :
  emits (fun e => match e with
                  | EvWelch _ nperseg nfft =>
                      nperseg = Z.min nbins 256 /\ nfft = Some nbins
                  | _ => True
                  end)
        (run_spectrum_int feed periodogram get_window log10 num_samp nbins
                          gain rate fc t_int) /\
  emits (fun e => match e with
                  | EvWelch _ nperseg nfft => nperseg = nbins /\ nfft = None
                  | _ => True
                  end)
        (run_fswitch_int feed periodogram f_throw_fold num_samp nbins gain
                         rate fc fthrow t_int fswitch).
Proof.
  split.
  - unfold run_spectrum_int, spectrum_integrate, spectrum_step, sdr_open,
      sdr_close.
    emits_auto. split; [apply spectrum_nperseg_min | reflexivity].
  - unfold run_fswitch_int, fswitch_prepare, fswitch_integrate,
      fswitch_dwell, fswitch_step, sdr_open, sdr_close.
    emits_auto; split; reflexivity.
Qed.

(** ** The frequency-switch scheduler *)

Section Scheduler.

Variable feed : Q -> nat -> complex.
Variable periodogram : list complex -> Q -> Z -> Z -> list Q.
Variables num_samp nbins : Z.
Variables rate fc fthrow : Q.

Lemma fswitch_step_route tick j s w :
  fswitch_step feed periodogram num_samp nbins rate tick j s w =
  (iq <- sdr_read_samples feed num_samp ;;
   '(f, p_xx) <- welch periodogram iq rate nbins None ;;
   lift (sched_route (sched_of_tick tick) f p_xx s)) w.
Proof.
  unfold fswitch_step, bind.
  destruct (sdr_read_samples feed num_samp w) as [[iq | e] w1];
    [| reflexivity].
  destruct tick; simpl;
    destruct (welch periodogram iq rate nbins None w1) as [[[f p] | e] w2];
    try reflexivity; unfold lift, ret;
    match goal with |- context [np_iadd ?a ?b] => destruct (np_iadd a b) end;
    reflexivity.
Qed.

Lemma fswitch_inner_collect tick :
  forall n k s w,
    for_each (map (fun i => (k + Z.of_nat i)%Z) (seq 0 n))
             (fswitch_step feed periodogram num_samp nbins rate tick) s w =
    sched_collect feed periodogram num_samp nbins rate (sched_of_tick tick)
                  n s w.
Proof.
  induction n as [| n IH]; intros k s w; [reflexivity |].
  rewrite <- cons_seq, <- seq_shift. cbn [map for_each sched_collect].
  rewrite map_map.
  unfold bind at 1. rewrite fswitch_step_route. unfold bind.
  destruct (sdr_read_samples feed num_samp w) as [[iq | e] w1];
    cbv beta iota; [| reflexivity].
  destruct (welch periodogram iq rate nbins None w1) as [[[f p] | e] w2];
    cbv beta iota; [| reflexivity].
  unfold lift.
  destruct (sched_route (sched_of_tick tick) f p s) as [s1 | e];
    cbv beta iota; [| reflexivity].
  rewrite <- (IH (k + 1)%Z s1 w2).
  f_equal. apply map_ext. intros i. lia.
Qed.

Lemma sched_of_tick_step i :
  sched_of_tick ((i + 1) mod 2 =? 0)%Z =
  sched_flip (sched_of_tick (i mod 2 =? 0)%Z).
Proof.
  pose proof (Z.mod_pos_bound i 2 ltac:(lia)) as B.
  pose proof (Z.mod_pos_bound (i + 1) 2 ltac:(lia)) as B1.
  pose proof (Z.div_mod i 2 ltac:(lia)) as E.
  pose proof (Z.div_mod (i + 1) 2 ltac:(lia)) as E1.
  destruct (Z.eqb_spec (i mod 2) 0), (Z.eqb_spec ((i + 1) mod 2) 0);
    simpl; try reflexivity; lia.
Qed.

(** The nested loops of the source are the scheduler started in the
    state of the first index. *)
Lemma fswitch_loops_sched num_loops :
  forall n k s w,
    for_each (map (fun i => (k + Z.of_nat i)%Z) (seq 0 n))
             (fswitch_dwell feed periodogram num_samp nbins rate fc fthrow
                            num_loops) s w =
    sched_run feed periodogram num_samp nbins rate fc fthrow
              (sched_of_tick (k mod 2 =? 0)%Z) (Z.to_nat num_loops) n s w.
Proof.
  induction n as [| n IH]; intros k s w; [reflexivity |].
  rewrite <- cons_seq, <- seq_shift. cbn [map for_each sched_run].
  rewrite map_map, Z.add_0_r.
  unfold fswitch_dwell at 1.
  assert (Htune :
            (if (k mod 2 =? 0)%Z then sdr_set_fc fc else sdr_set_fc fthrow) =
            sdr_set_fc (sched_tuning fc fthrow
                                     (sched_of_tick (k mod 2 =? 0)%Z))).
  { destruct (k mod 2 =? 0)%Z; reflexivity. }
  rewrite Htune. unfold bind.
  destruct (sdr_set_fc (sched_tuning fc fthrow
                                     (sched_of_tick (k mod 2 =? 0)%Z)) w)
    as [[[] | e] w1]; cbv beta iota; [| reflexivity].
  unfold range, arange. rewrite Z.sub_0_r.
  rewrite (fswitch_inner_collect (k mod 2 =? 0)%Z (Z.to_nat num_loops) 0 s w1).
  destruct (sched_collect feed periodogram num_samp nbins rate
                          (sched_of_tick (k mod 2 =? 0)%Z)
                          (Z.to_nat num_loops) s w1) as [[s1 | e] w2];
    cbv beta iota; [| reflexivity].
  rewrite <- sched_of_tick_step, <- (IH (k + 1)%Z s1 w2).
  f_equal. apply map_ext. intros i. lia.
Qed.

End Scheduler.

Lemma Qfloor_unique y q :
  inject_Z q <= y -> y < inject_Z (q + 1) -> Qfloor y = q.
Proof.
  intros Hlo Hhi.
  apply Qfloor_resp_le in Hlo. rewrite Qfloor_Z in Hlo.
  assert (H : inject_Z (Qfloor y) < inject_Z (q + 1)).
  { eapply Qle_lt_trans; [apply Qfloor_le | exact Hhi]. }
  rewrite <- Zlt_Qlt in H. lia.
Qed.

(** Flooring before an integer division by a positive number changes
    nothing. *)
Lemma Qfloor_div_floor x n :
  (0 < n)%Z -> (Qfloor x / n)%Z = Qfloor (x / inject_Z n).
Proof.
  intros Hn. symmetry. apply Qfloor_unique.
  - apply Qle_shift_div_l.
    + change 0 with (inject_Z 0). rewrite <- Zlt_Qlt. exact Hn.
    + rewrite <- inject_Z_mult.
      eapply Qle_trans; [| apply Qfloor_le].
      rewrite <- Zle_Qle. rewrite Z.mul_comm. apply Z.mul_div_le. exact Hn.
  - apply Qlt_shift_div_r.
    + change 0 with (inject_Z 0). rewrite <- Zlt_Qlt. exact Hn.
    + rewrite <- inject_Z_mult.
      eapply Qlt_le_trans; [apply Qlt_floor |].
      rewrite <- Zle_Qle.
      pose proof (Z.mul_succ_div_gt (Qfloor x) n Hn). lia.
Qed.

(** The length of a dwell in samples, [rate * (1.0 / fswitch)] in double
    precision, has the sign of [rate / fswitch]. *)
Lemma dwell_nonneg rate fswitch :
  ~ fswitch == 0 -> 0 <= rate / fswitch ->
  0 <= fl (rate * fl (1 / fswitch)).
Proof.
  intros Hf Hx. apply fl_nonneg.
  assert (Er : rate == rate / fswitch * fswitch) by (field; exact Hf).
  assert (Ei : 1 / fswitch == / fswitch)
    by (unfold Qdiv; apply Qmult_1_l).
  destruct (Q_dec fswitch 0) as [[N | P] | Z]; [| | contradiction].
  - assert (Hr : rate <= 0).
    { rewrite Er.
      setoid_replace (rate / fswitch * fswitch)
        with (- (rate / fswitch * - fswitch)) by ring.
      assert (0 <= rate / fswitch * - fswitch)
        by (apply Qmult_le_0_compat; lra).
      lra. }
    assert (Hd : fl (1 / fswitch) <= 0).
    { apply fl_nonpos. rewrite Ei.
      assert (0 < / - fswitch) by (apply Qinv_lt_0_compat; lra).
      setoid_replace (/ fswitch) with (- / - fswitch)
        by (field; exact Hf).
      lra. }
    setoid_replace (rate * fl (1 / fswitch))
      with (- rate * - fl (1 / fswitch)) by ring.
    apply Qmult_le_0_compat; lra.
  - assert (Hr : 0 <= rate).
    { rewrite Er. apply Qmult_le_0_compat; lra. }
    assert (Hd : 0 <= fl (1 / fswitch)).
    { apply fl_nonneg. rewrite Ei.
      apply Qlt_le_weak, Qinv_lt_0_compat. exact P. }
    apply Qmult_le_0_compat; assumption.
Qed.

(** C6, as amended.  The plan has [num_loops] = floor(N_dwell / num_samp)
    blocks per dwell and [num_dwells] = floor(N / N_dwell) dwells, where
    the sample counts N = int(rate * t_int) and
    N_dwell = int(rate * (1.0 / fswitch)) are truncated to integers first
    and their products are taken in double precision; for a positive
    block length and a non-negative rate/fswitch, [num_loops] is
    floor(D / num_samp) for the double D = rate * (1.0 / fswitch).  With
    that plan the switching loop is the two-state scheduler started in
    [ON]: it retunes and flips after every dwell, and a block collected
    in [ON] is added to the ON accumulator and leaves the OFF accumulator
    alone, and the other way round. *)
Theorem switch_scheduler_contract
        (feed : Q -> nat -> complex)
        (periodogram : list complex -> Q -> Z -> Z -> list Q)
        (num_samp nbins : Z) (rate fc fthrow t_int fswitch : Q)
        (num_loops num_dwells : Z) :
  fswitch_plan num_samp rate t_int fswitch = Ok (num_loops, num_dwells) ->
  num_loops = (py_int (fl (rate * fl (1 / fswitch))) / num_samp)%Z /\
  num_dwells =
  (py_int (fl (rate * t_int)) / py_int (fl (rate * fl (1 / fswitch))))%Z /\
  ((0 < num_samp)%Z -> 0 <= rate / fswitch ->
   num_loops = Qfloor (fl (rate * fl (1 / fswitch)) / inject_Z num_samp)) /\
  (forall s w,
      for_each (range num_dwells)
               (fswitch_dwell feed periodogram num_samp nbins rate fc fthrow
                              num_loops) s w =
      sched_run feed periodogram num_samp nbins rate fc fthrow
                ON (Z.to_nat num_loops) (Z.to_nat num_dwells) s w) /\
  (forall f p s s',
      sched_route ON f p s = Ok s' ->
      np_iadd (p_xx_on s) p = Ok (p_xx_on s') /\
      p_xx_off s' = p_xx_off s /\ freqs_off s' = freqs_off s) /\
  (forall f p s s',
      sched_route OFF f p s = Ok s' ->
      np_iadd (p_xx_off s) p = Ok (p_xx_off s') /\
      p_xx_on s' = p_xx_on s /\ freqs_on s' = freqs_on s).
Proof.
  intros Hplan.
  apply fswitch_plan_ok in Hplan as (Hf & Hns & Hnd & Hl & Hd).
  split; [exact Hl |]. split; [exact Hd |]. split; [| split; [| split]].
  - intros Hpos Hx. rewrite Hl.
    rewrite (py_int_nonneg (dwell_nonneg Hf Hx)).
    apply Qfloor_div_floor. exact Hpos.
  - intros s w. unfold range, arange. rewrite Z.sub_0_r.
    apply (fswitch_loops_sched feed periodogram num_samp nbins rate fc fthrow
                               num_loops (Z.to_nat num_dwells) 0 s w).
  - intros f p s s' H. unfold sched_route in H.
    destruct (np_iadd (p_xx_on s) p) as [p' | e]; inversion H.
    simpl. repeat split.
  - intros f p s s' H. unfold sched_route in H.
    destruct (np_iadd (p_xx_off s) p) as [p' | e]; inversion H.
    simpl. repeat split.
Qed.

(** * The runs on the test bench *)

(** Every bench periodogram is flat at the unit power of the carrier. *)
Lemma bench_periodogram_unit :
  map Qred (Bench.periodogram (map (Bench.feed 100) (seq 0 4)) 8 4 4) =
  [1; 1; 1; 1].
Proof. vm_compute. reflexivity. Qed.

(** C1 (the code departs from the claim).  Spectrum run, [num_samp = 4],
    [nbins = 4], [rate = 8], [t_int = 1]: three periodograms, each flat at
    1, are added, the accumulator holds 3 in every bin, the counter ends
    at 2 and the average is 3/2.  Switched run, [rate = 80], [fswitch = 10],
    [t_int = 1/2]: the ON accumulator receives 6 periodograms and the OFF
    accumulator 4, both are divided by the common counter 10 and average
    to 3/5 and 2/5. *)
Theorem averaging_count_mismatch :
  (exists f p w1,
      spectrum_integrate Bench.feed Bench.periodogram 4 4 0 8 100 1
                         (opened world0) = (Ok (f, p, 2%Z), w1) /\
      length (welch_segments (w_log w1)) = 3%nat /\
      map np_red p = [Fin 3; Fin 3; Fin 3; Fin 3] /\
      map np_red (spectrum_average (fftshift p) 2) =
      [Fin (3 # 2); Fin (3 # 2); Fin (3 # 2); Fin (3 # 2)]) /\
  (exists s w1,
      fswitch_integrate Bench.feed Bench.periodogram 4 4 0 80 100 110 (1 # 2)
                        10 (opened world0) = (Ok s, w1) /\
      length (welch_segments (w_log w1)) = 10%nat /\
      cnt s = 10%Z /\
      map np_red (p_xx_on s) = [Fin 6; Fin 6; Fin 6; Fin 6] /\
      map np_red (p_xx_off s) = [Fin 4; Fin 4; Fin 4; Fin 4] /\
      map np_red (fa_p_avg_on (fswitch_finish 100 110 s)) =
      [Fin (3 # 5); Fin (3 # 5); Fin (3 # 5); Fin (3 # 5)] /\
      map np_red (fa_p_avg_off (fswitch_finish 100 110 s)) =
      [Fin (2 # 5); Fin (2 # 5); Fin (2 # 5); Fin (2 # 5)]).
Proof.
  split.
  - do 3 eexists. split; [vm_compute; reflexivity |].
    vm_compute. repeat split.
  - do 2 eexists. split; [vm_compute; reflexivity |].
    vm_compute. repeat split.
Qed.

(** C2 fails as stated: [t_int = 0.6666666666666666] is a double below
    [2 / 3], yet with [fswitch = 3] the check passes, because
    [2.0 * (1.0 / 3)] is that same double, and the run goes on to read
    its twelve blocks. *)
Lemma short_integration_accepted :
  is_double (6004799503160661 # 9007199254740992) /\
  (6004799503160661 # 9007199254740992) < 2 / 3 /\
  fl (2 * fl (1 / 3)) == 6004799503160661 # 9007199254740992 /\
  fswitch_check (6004799503160661 # 9007199254740992) 3 = Ok tt /\
  exists out w',
    run_fswitch_int Bench.feed Bench.periodogram Bench.f_throw_fold 4 4 0 80
                    100 110 (6004799503160661 # 9007199254740992) 3 world0 =
    (Ok out, w') /\
    length (welch_segments (w_log w')) = 12%nat.
Proof.
  split; [vm_compute; reflexivity |].
  split; [vm_compute; reflexivity |].
  split; [vm_compute; reflexivity |].
  split; [vm_compute; reflexivity |].
  do 2 eexists. split; vm_compute; reflexivity.
Qed.

(** C3 (the code departs from the claim).  Spectrum run with blocks
    shorter than the segment, [num_samp = 2], [nbins = 4], [rate = 8],
    [t_int = 1].  Each of the five calls of [welch] asks for segments of
    [min(4, 256) = 4] samples, and [welch] shortens them to the two
    samples of the block: with the probe in the place of the estimate the
    accumulator holds 5 * 2 in every bin.  The spectrum is therefore
    produced with the window of two samples, whose correction
    [sum(w)^2 / sum(w^2)] is 1, but the normalization takes the window
    of four samples, whose correction is 8/3: on the bench the average
    5/4 becomes the density 5/12, where the window the spectrum was
    produced with gives 5/32. *)
Theorem psd_window_mismatch :
  (exists f p c w1,
      spectrum_integrate Bench.feed Bench.segment_probe 2 4 0 8 100 1
                         (opened world0) = (Ok (f, p, c), w1) /\
      welch_segments (w_log w1) = [4; 4; 4; 4; 4]%Z /\
      map np_red p = [Fin 10; Fin 10; Fin 10; Fin 10]) /\
  welch_segment (spectrum_nperseg 4) 2 = 2%Z /\
  np_red (window_correction (Bench.get_window 2)) = Fin 1 /\
  np_red (window_correction (Bench.get_window 4)) = Fin (8 # 3) /\
  (exists f p c w1 freqs p_db w',
      spectrum_integrate Bench.feed Bench.periodogram 2 4 0 8 100 1
                         (opened world0) = (Ok (f, p, c), w1) /\
      run_spectrum_int Bench.feed Bench.periodogram Bench.get_window
                       Bench.log10 2 4 0 8 100 1 world0 =
      (Ok (freqs, p_db), w') /\
      map np_red (spectrum_average (fftshift p) c) =
      [Fin (5 # 4); Fin (5 # 4); Fin (5 # 4); Fin (5 # 4)] /\
      p_db =
      db_of_psd Bench.log10
                (psd_of_power (Bench.get_window 4) 8
                              (spectrum_average (fftshift p) c)) /\
      map np_red (psd_of_power (Bench.get_window 4) 8
                               (spectrum_average (fftshift p) c)) =
      [Fin (5 # 12); Fin (5 # 12); Fin (5 # 12); Fin (5 # 12)] /\
      map np_red (psd_of_power (Bench.get_window 2) 8
                               (spectrum_average (fftshift p) c)) =
      [Fin (5 # 32); Fin (5 # 32); Fin (5 # 32); Fin (5 # 32)]).
Proof.
  split.
  { do 4 eexists. split; [vm_compute; reflexivity |].
    split; vm_compute; reflexivity. }
  split; [reflexivity |].
  split; [vm_compute; reflexivity |].
  split; [vm_compute; reflexivity |].
  do 7 eexists. split; [vm_compute; reflexivity |].
  split; [vm_compute; reflexivity |].
  split; [vm_compute; reflexivity |].
  split; [vm_compute; reflexivity |].
  split; vm_compute; reflexivity.
Qed.

(** C4 (the code departs from the claim).  The total-power division
    raises on a zero count: the run with less than a block of
    integration ([num_samp = 4], [rate = 8], [t_int = 1/4]) ends in
    [ZeroDivisionError].  The spectrum divisions do not.  A switched run
    whose blocks are longer than a dwell ([num_samp = 1024],
    [rate = 1000], [fswitch = 10], [t_int = 1]) passes its check, reads
    nothing, divides its untouched accumulators by the zero counter and
    hands NaN in every bin to the fold, and the run returns what the
    fold returns.  The spectrum run with less than a block of
    integration divides its one periodogram by the zero counter and
    returns an infinity in every bin.  Neither raises. *)
Theorem zero_count_finalization_is_silent :
  (exists w',
      run_total_power_int Bench.feed 4 0 8 100 (1 # 4) world0 =
      (Raise ZeroDivisionError, w')) /\
  fswitch_check 1 10 = Ok tt /\
  (exists s w1,
      fswitch_integrate Bench.feed Bench.periodogram 1024 4 0 1000 100 110
                        1 10 (opened world0) = (Ok s, w1) /\
      welch_segments (w_log w1) = [] /\
      cnt s = 0%Z /\
      p_xx_on s = [Fin 0; Fin 0; Fin 0; Fin 0] /\
      fa_p_avg_on (fswitch_finish 100 110 s) = [NaN; NaN; NaN; NaN] /\
      fa_p_avg_off (fswitch_finish 100 110 s) = [NaN; NaN; NaN; NaN]) /\
  (exists freqs w',
      run_fswitch_int Bench.feed Bench.periodogram Bench.f_throw_fold 1024 4
                      0 1000 100 110 1 10 world0 =
      (Ok (freqs, [NaN; NaN; NaN; NaN]), w')) /\
  (exists freqs w',
      run_spectrum_int Bench.feed Bench.periodogram Bench.get_window
                       Bench.log10 4 4 0 8 100 (1 # 4) world0 =
      (Ok (freqs, [PInf; PInf; PInf; PInf]), w')).
Proof.
  split; [eexists; vm_compute; reflexivity |].
  split; [vm_compute; reflexivity |].
  split.
  { do 2 eexists. split; [vm_compute; reflexivity |].
    vm_compute. repeat split. }
  split; do 2 eexists; vm_compute; reflexivity.
Qed.

(** C5 fails as stated: with 512 bins a switched run asks [welch] for
    segments of 512 samples, not of [min(512, 256) = 256].  The
    integration time is the float [0.2]. *)
Lemma fswitch_segment_is_nbins :
  welch_segments
    (w_log (snd (run_fswitch_int Bench.feed Bench.periodogram
                                 Bench.f_throw_fold 512 512 0 10240 100 110
                                 (fl (1 # 5)) 10 world0))) =
  [512; 512; 512; 512]%Z /\
  ~ Forall (fun nperseg => nperseg = Z.min 512 256)
      (welch_segments
         (w_log (snd (run_fswitch_int Bench.feed Bench.periodogram
                                      Bench.f_throw_fold 512 512 0 10240 100
                                      110 (fl (1 # 5)) 10 world0)))).
Proof.
  assert (E : welch_segments
                (w_log (snd (run_fswitch_int Bench.feed Bench.periodogram
                                             Bench.f_throw_fold 512 512 0
                                             10240 100 110 (fl (1 # 5)) 10
                                             world0))) =
              [512; 512; 512; 512]%Z) by (vm_compute; reflexivity).
  split; [exact E |].
  rewrite E. intros H. inversion H as [| n l Hn Hl]. discriminate Hn.
Qed.

(** C6 fails as stated: at [rate = 1000], [fswitch = 3], [t_int = 2.999]
    the plan has 9 dwells, floor(2999 / 333), where the formula of the
    claim, floor((rate * t_int) / (rate / fswitch)), gives 8. *)
Lemma num_dwells_truncates_first :
  fswitch_check (2999 # 1000) 3 = Ok tt /\
  fswitch_plan 1 1000 (2999 # 1000) 3 = Ok (333, 9)%Z /\
  Qfloor (1000 * (2999 # 1000) / (1000 / 3)) = 8%Z /\
  ~ (forall num_loops num_dwells,
        fswitch_plan 1 1000 (2999 # 1000) 3 = Ok (num_loops, num_dwells) ->
        num_dwells = Qfloor (1000 * (2999 # 1000) / (1000 / 3))).
Proof.
  split; [vm_compute; reflexivity |].
  split; [vm_compute; reflexivity |].
  split; [vm_compute; reflexivity |].
  intros H. specialize (H 333%Z 9%Z eq_refl). vm_compute in H. discriminate H.
Qed.

(** The length of a dwell is computed in double precision:
    [1.0 / 49] rounds down, so that [49 * (1.0 / 49)] is just below one
    and the dwell of [rate = 49], [fswitch = 49] has no sample (the plan
    raises), and the dwell of [rate = 98] has one sample where
    [98 / 49 = 2]. *)
Lemma dwell_length_is_rounded :
  fl (49 * fl (1 / 49)) < 1 /\ 49 / 49 == 1 /\
  fswitch_plan 1 49 1 49 = Raise ZeroDivisionError /\
  fswitch_plan 1 98 1 49 = Ok (1, 98)%Z /\
  Qfloor (98 / 49 / inject_Z 1) = 2%Z.
Proof.
  split; [vm_compute; reflexivity |].
  split; [reflexivity |].
  split; [vm_compute; reflexivity |].
  split; vm_compute; reflexivity.
Qed.

(** C7 fails as stated: the fold receives the ON average 3/5 in every
    bin; normalized with the Hann window of four samples and the rate 80 it
    would be 1/50. *)
Lemma fold_input_not_normalized :
  exists s w1,
    fswitch_integrate Bench.feed Bench.periodogram 4 4 0 80 100 110 (1 # 2)
                      10 (opened world0) = (Ok s, w1) /\
    map np_red (fa_p_avg_on (fswitch_finish 100 110 s)) =
    [Fin (3 # 5); Fin (3 # 5); Fin (3 # 5); Fin (3 # 5)] /\
    map np_red
        (psd_of_power (Bench.get_window 4) 80
                      (spectrum_average (fftshift (p_xx_on s)) (cnt s))) =
    [Fin (1 # 50); Fin (1 # 50); Fin (1 # 50); Fin (1 # 50)] /\
    ~ Forall2 np_equiv
        (fa_p_avg_on (fswitch_finish 100 110 s))
        (psd_of_power (Bench.get_window 4) 80
                      (spectrum_average (fftshift (p_xx_on s)) (cnt s))) /\
    exists freqs p w',
      run_fswitch_int Bench.feed Bench.periodogram Bench.f_throw_fold
                      4 4 0 80 100 110 (1 # 2) 10 world0 =
      (Ok (freqs, p), w') /\
      map np_red p = [Fin (3 # 5); Fin (3 # 5); Fin (3 # 5); Fin (3 # 5)].
Proof.
  do 2 eexists. split; [vm_compute; reflexivity |].
  split; [vm_compute; reflexivity |].
  split; [vm_compute; reflexivity |].
  split.
  { intros H. vm_compute in H. inversion H as [| x y l l' Hxy Hl].
    discriminate Hxy. }
  do 3 eexists. split; vm_compute; reflexivity.
Qed.

(** ** The theorems at work on the bench *)

(** The float [0.1] with [fswitch = 1] is rejected before the device is
    opened; [0.5] with [fswitch = 10] passes the check. *)
Lemma fswitch_rejects_short_integration_witness :
  ~ 1 == 0 /\ fl (1 # 10) < fl (2 * fl (1 / 1)) /\
  run_fswitch_int Bench.feed Bench.periodogram Bench.f_throw_fold
                  4 4 0 80 100 110 (fl (1 # 10)) 1 world0 =
  (Raise AssertionError, world0) /\
  ~ 10 == 0 /\ fl (2 * fl (1 / 10)) <= 1 # 2 /\
  fswitch_check (1 # 2) 10 = Ok tt.
Proof.
  assert (H0 : ~ 1 == 0) by (intros H; discriminate H).
  assert (H1 : fl (1 # 10) < fl (2 * fl (1 / 1)))
    by (vm_compute; reflexivity).
  assert (H2 : ~ 10 == 0) by (intros H; discriminate H).
  assert (H3 : fl (2 * fl (1 / 10)) <= 1 # 2)
    by (vm_compute; intros H; discriminate H).
  split; [exact H0 |]. split; [exact H1 |]. split.
  - exact (proj1 (proj2 (fswitch_rejects_short_integration
                           Bench.feed Bench.periodogram Bench.f_throw_fold
                           4 4 0 80 100 110 (fl (1 # 10)) world0 H0)) H1).
  - split; [exact H2 |]. split; [exact H3 |].
    exact (proj2 (proj2 (fswitch_rejects_short_integration
                           Bench.feed Bench.periodogram Bench.f_throw_fold
                           4 4 0 80 100 110 (1 # 2) world0 H2)) H3).
Defined.

(** The bench spectrum run returns, and its values are the normalized
    averages in decibel. *)
Lemma psd_normalization_witness :
  exists freqs p_db w',
    run_spectrum_int Bench.feed Bench.periodogram Bench.get_window
                     Bench.log10 4 4 0 8 100 1 world0 =
    (Ok (freqs, p_db), w') /\
    exists f_raw p_xx_tot c w1,
      spectrum_integrate Bench.feed Bench.periodogram 4 4 0 8 100 1
                         (opened world0) = (Ok (f_raw, p_xx_tot, c), w1) /\
      p_db =
      map (fun x => np_mul (Fin 10) (np_log10 Bench.log10 x))
          (map (fun p =>
                  np_div
                    (np_mul p
                       (np_div (Fin (Qsum (Bench.get_window 4) ^ 2))
                               (Fin (Qsum (map (fun x => x * x)
                                               (Bench.get_window 4))))))
                    (Fin 8))
               (map (fun p => np_div p (Fin (inject_Z c)))
                    (fftshift p_xx_tot))).
Proof.
  do 3 eexists.
  assert (Hrun : run_spectrum_int Bench.feed Bench.periodogram
                                  Bench.get_window Bench.log10 4 4 0 8 100 1
                                  world0 =
                 (Ok (?[freqs], ?[p_db]), ?[w']))
    by (vm_compute; reflexivity).
  split; [exact Hrun |].
  pose proof Hrun as Hc. apply psd_normalization in Hc.
  destruct Hc as (f_raw & p & c & w1 & Hint & Hdb & _).
  exists f_raw, p, c, w1. split; [exact Hint | exact Hdb].
Defined.

(** The bench switched run returns the fold of its raw averages. *)
Lemma fold_receives_raw_averages_witness :
  exists out w',
    run_fswitch_int Bench.feed Bench.periodogram Bench.f_throw_fold
                    4 4 0 80 100 110 (1 # 2) 10 world0 = (Ok out, w') /\
    exists s w1,
      fswitch_integrate Bench.feed Bench.periodogram 4 4 0 80 100 110
                        (1 # 2) 10 (opened world0) = (Ok s, w1) /\
      Bench.f_throw_fold
        (map (fun f => f + 100) (fftshift (freqs_on s)))
        (map (fun f => f + 110) (fftshift (freqs_off s)))
        (map (fun p => np_div p (Fin (inject_Z (cnt s))))
             (fftshift (p_xx_on s)))
        (map (fun p => np_div p (Fin (inject_Z (cnt s))))
             (fftshift (p_xx_off s))) = Ok out.
Proof.
  do 2 eexists.
  assert (Hrun : run_fswitch_int Bench.feed Bench.periodogram
                                 Bench.f_throw_fold 4 4 0 80 100 110 (1 # 2)
                                 10 world0 = (Ok ?[out], ?[w']))
    by (vm_compute; reflexivity).
  split; [exact Hrun |].
  pose proof Hrun as Hc. apply fold_receives_raw_averages in Hc. exact Hc.
Defined.

(** On the bench the OFF axis is the ON axis moved by 10. *)
Lemma switched_axes_translated_witness :
  0 < 80 /\ fswitch_check (1 # 2) 10 = Ok tt /\
  exists a w1,
    fswitch_prepare Bench.feed Bench.periodogram 4 4 0 80 100 110 (1 # 2) 10
                    (opened world0) = (Ok a, w1) /\
    length (fa_freqs_on a) = length (fa_freqs_off a) /\
    forall i x y,
      nth_error (fa_freqs_on a) i = Some x ->
      nth_error (fa_freqs_off a) i = Some y ->
      y - x == 110 - 100.
Proof.
  assert (Hrate : 0 < 80) by reflexivity.
  assert (Hchk : fswitch_check (1 # 2) 10 = Ok tt) by reflexivity.
  split; [exact Hrate |]. split; [exact Hchk |].
  do 2 eexists.
  assert (Hrun : fswitch_prepare Bench.feed Bench.periodogram 4 4 0 80 100
                                 110 (1 # 2) 10 (opened world0) =
                 (Ok ?[a], ?[w1]))
    by (vm_compute; reflexivity).
  split; [exact Hrun |].
  destruct (@switched_axes_translated _ _ _ _ _ _ _ _ _ _ _ _ _
                                      Hrate Hchk Hrun) as (Hlen & Hshift & _).
  split; [exact Hlen | exact Hshift].
Defined.

(** On the bench the returned axes are centred at 100 and 110. *)
Lemma frequency_axis_recentred_witness :
  (exists freqs p_db w',
      run_spectrum_int Bench.feed Bench.periodogram Bench.get_window
                       Bench.log10 4 4 0 8 100 1 world0 =
      (Ok (freqs, p_db), w') /\
      centred_at 100 freqs) /\
  (exists a w',
      fswitch_prepare Bench.feed Bench.periodogram 4 4 0 80 100 110 (1 # 2)
                      10 (opened world0) = (Ok a, w') /\
      centred_at 100 (fa_freqs_on a) /\
      centred_at 110 (fa_freqs_off a)).
Proof.
  split.
  - do 3 eexists.
    assert (Hrun : run_spectrum_int Bench.feed Bench.periodogram
                                    Bench.get_window Bench.log10 4 4 0 8 100
                                    1 world0 =
                   (Ok (?[freqs], ?[p_db]), ?[w']))
      by (vm_compute; reflexivity).
    split; [exact Hrun |].
    match type of Hrun with
    | _ = (Ok (?f, ?p), ?w') =>
        destruct (frequency_axis_recentred
                    Bench.feed Bench.periodogram Bench.get_window Bench.log10
                    4 4 0 8 100 110 1 10 world0 f p w' world0
                    (mkFoldArgs [] [] [] []) world0) as [H _]
    end.
    destruct (H Hrun) as (f & p & c & w1 & g & _ & _ & _ & _ & _ & _ & Hc).
    exact Hc.
  - do 2 eexists.
    assert (Hrun : fswitch_prepare Bench.feed Bench.periodogram 4 4 0 80 100
                                   110 (1 # 2) 10 (opened world0) =
                   (Ok ?[a], ?[w']))
      by (vm_compute; reflexivity).
    split; [exact Hrun |].
    match type of Hrun with
    | _ = (Ok ?a, ?w') =>
        destruct (frequency_axis_recentred
                    Bench.feed Bench.periodogram Bench.get_window Bench.log10
                    4 4 0 80 100 110 (1 # 2) 10 world0 [] [] world0
                    (opened world0) a w') as [_ H]
    end.
    destruct (H Hrun)
      as (s & w1 & g & _ & _ & _ & _ & _ & _ & _ & _ & _ & Hon & Hoff).
    split; [exact Hon | exact Hoff].
Defined.


(** The bench plan of two blocks per dwell and five dwells runs as the
    scheduler. *)
Lemma switch_scheduler_contract_witness :
  fswitch_plan 4 80 (1 # 2) 10 = Ok (2, 5)%Z /\
  forall s w,
    for_each (range 5)
             (fswitch_dwell Bench.feed Bench.periodogram 4 4 80 100 110 2)
             s w =
    sched_run Bench.feed Bench.periodogram 4 4 80 100 110 ON 2 5 s w.
Proof.
  assert (Hplan : fswitch_plan 4 80 (1 # 2) 10 = Ok (2, 5)%Z)
    by reflexivity.
  split; [exact Hplan |].
  exact (proj1 (proj2 (proj2 (proj2
           (@switch_scheduler_contract Bench.feed Bench.periodogram 4 4 80
                                       100 110 (1 # 2) 10 2 5 Hplan))))).
Defined.

(** * Further properties of the runs *)

(** ** Total power *)

Lemma Qsum_app a b : Qsum (a ++ b) == Qsum a + Qsum b.
Proof.
  induction a as [| x a IH]; simpl.
  - unfold Qsum at 2. simpl. ring.
  - rewrite !Qsum_cons, IH. ring.
Qed.

Lemma Qsum_map_scale {A : Type} (f : A -> Q) c l :
  Qsum (map (fun x => c * f x) l) == c * Qsum (map f l).
Proof.
  induction l as [| x l IH]; simpl.
  - unfold Qsum. simpl. ring.
  - rewrite !Qsum_cons, IH. ring.
Qed.

Lemma Qsum_perm l l' : Permutation l l' -> Qsum l == Qsum l'.
Proof.
  induction 1 as [| x l l' _ IH | x y l | l l' l'' _ IH1 _ IH2].
  - reflexivity.
  - rewrite !Qsum_cons, IH. reflexivity.
  - rewrite !Qsum_cons. ring.
  - rewrite IH1. exact IH2.
Qed.

(** The stream delivers [n] blocks in a row: the running total grows by
    the power of all the samples handed out and the counter by [n]. *)
Lemma sdr_read_samples_async_sum
      (feed : Q -> nat -> complex) (num_samp : Z) :
  (0 <= num_samp)%Z ->
  forall n (l : list Z) p c t w,
    length l = n ->
    as_np p = Fin t ->
    exists p' t',
      for_each l
               (fun _ s => iq <- sdr_read_samples feed num_samp ;;
                           ret (p_tot_callback iq s)) (p, c) w =
      (Ok (p', (c + Z.of_nat n)%Z),
       mkWorld (w_rs w) (w_fc w) (w_gain w)
               (w_pos w + n * Z.to_nat num_samp)%nat
               (w_log w ++ repeat (EvRead num_samp) n)) /\
      as_np p' = Fin t' /\
      t' == t + Qsum (map sample_power
                          (delivered feed (w_fc w) (w_pos w)
                                     (n * Z.to_nat num_samp))) /\
      ((0 < n)%nat -> p' = NpFloat64 (Fin t')).
Proof.
  intros Hpos. induction n as [| n IH]; intros l p c t w Hl Hp.
  - destruct l; [| discriminate Hl].
    exists p, t. simpl. rewrite Z.add_0_r, Nat.add_0_r, app_nil_r.
    split; [destruct w; reflexivity |].
    split; [exact Hp |]. split; [unfold Qsum; simpl; ring | lia].
  - destruct l as [| i l]; [discriminate Hl |].
    injection Hl as Hl. cbn [for_each].
    unfold bind at 1 2. unfold sdr_read_samples at 1.
    destruct (Z.ltb_spec num_samp 0) as [Hneg | _]; [lia |].
    unfold ret at 1. cbv beta iota.
    set (ns := Z.to_nat num_samp).
    set (iq := map (feed (w_fc w)) (seq (w_pos w) ns)).
    set (w1 := mkWorld _ _ _ _ _).
    assert (Hcb : p_tot_callback iq (p, c) =
                  (NpFloat64 (Fin (t + block_power iq)), (c + 1)%Z))
      by (unfold p_tot_callback; rewrite Hp; reflexivity).
    rewrite Hcb.
    destruct (IH l (NpFloat64 (Fin (t + block_power iq))) (c + 1)%Z
                 (t + block_power iq) w1 Hl eq_refl)
      as (p' & t' & Hrun & Hp' & Ht' & Hnp).
    exists p', t'. split; [| split; [exact Hp' | split]].
    + rewrite Hrun. unfold w1. cbn [w_rs w_fc w_gain w_pos w_log].
      f_equal; [f_equal; f_equal; lia |].
      f_equal; [fold ns; lia |].
      rewrite <- app_assoc. reflexivity.
    + rewrite Ht'. unfold w1, delivered. cbn [w_fc w_pos]. fold ns.
      replace (S n * ns)%nat with (ns + n * ns)%nat by lia.
      rewrite seq_app, !map_app, Qsum_app. fold iq.
      unfold block_power. ring.
    + intros _. destruct n as [| n'].
      * destruct l; [| discriminate Hl]. cbn [for_each] in Hrun.
        unfold ret in Hrun.
        assert (E : NpFloat64 (Fin (t + block_power iq)) = p')
          by congruence.
        subst p'. cbn [as_np] in Hp'. f_equal. exact Hp'.
      * apply Hnp. lia.
Qed.

(** The total-power run with at least one block of samples to collect,
    evaluated: it returns, with the world it leaves behind. *)
Lemma run_total_power_int_eval
      (feed : Q -> nat -> complex) (num_samp : Z)
      (gain rate fc t_int : Q) (w : world) :
  (0 < num_samp)%Z ->
  ~ rate == 0 ->
  inject_Z num_samp <= fl (rate * t_int) ->
  let calls :=
    Qfloor (fl (inject_Z (py_int (fl (rate * t_int))) /
                inject_Z num_samp)) in
  let n := Z.to_nat (calls * num_samp) in
  (1 <= calls)%Z /\
  exists t,
    run_total_power_int feed num_samp gain rate fc t_int w =
    (Ok (NpFloat64 (Fin (t / inject_Z (calls * num_samp)))),
     mkWorld rate fc gain (w_pos w + n + Z.to_nat num_samp)%nat
             (w_log w ++
                    [EvOpen; EvSetRate rate; EvSetFc fc; EvSetGain gain] ++
                    repeat (EvRead num_samp) (Z.to_nat calls + 1) ++
                    [EvClose; EvClose])) /\
    t == Qsum (map sample_power (delivered feed fc (w_pos w) n)).
Proof.
  intros Hpos Hrate Hblock calls n.
  assert (Hns : Qeq_bool (inject_Z num_samp) 0 = false).
  { destruct (Qeq_bool (inject_Z num_samp) 0) eqn:E; [| reflexivity].
    apply Qeq_bool_eq in E. exfalso.
    apply (inject_Z_nonzero (z := num_samp)); [lia | exact E]. }
  assert (Hr : Qeq_bool rate 0 = false).
  { destruct (Qeq_bool rate 0) eqn:E; [| reflexivity].
    apply Qeq_bool_eq in E. contradiction. }
  pose proof (@limit_calls_pos num_samp rate t_int Hpos Hblock) as Hlim.
  unfold limit_calls in Hlim. fold calls in Hlim.
  assert (Hcalls : (1 <= calls)%Z) by lia.
  assert (Elim : limit_calls
                   (fl (inject_Z (py_int (fl (rate * t_int))) /
                        inject_Z num_samp)) = calls)
    by (unfold limit_calls; fold calls; lia).
  split; [exact Hcalls |].
  set (w1 := mkWorld rate fc gain (w_pos w)
                     ((((w_log w ++ [EvOpen]) ++ [EvSetRate rate]) ++
                       [EvSetFc fc]) ++ [EvSetGain gain])).
  destruct (@sdr_read_samples_async_sum feed num_samp ltac:(lia)
              (Z.to_nat calls) (range calls) (PyFloat 0) 0%Z 0 w1
              (range_length calls) eq_refl)
    as (p' & t' & Hrun & _ & Ht' & Hnp).
  rewrite (Hnp ltac:(lia)) in Hrun. clear Hnp p'.
  assert (Hn : (Z.to_nat calls * Z.to_nat num_samp)%nat = n).
  { unfold n. rewrite Z2Nat.inj_mul by lia. reflexivity. }
  rewrite Hn in Hrun, Ht'.
  assert (Hc : (0 + Z.of_nat (Z.to_nat calls))%Z = calls) by lia.
  rewrite Hc in Hrun.
  apply (sdr_read_samples_async_eval feed p_tot_callback)
    in Hrun; [| lia].
  assert (Hd : ~ inject_Z (num_samp * calls) == 0).
  { apply inject_Z_nonzero. nia. }
  exists t'. split.
  - unfold run_total_power_int, try_finally.
    do 5 (erewrite bind_ok by reflexivity).
    erewrite bind_ok
      by (unfold lift, float_div; rewrite Hns; reflexivity).
    cbn [w_rs]. unfold float_mul. rewrite Elim.
    erewrite bind_ok by exact Hrun.
    erewrite bind_ok
      by (unfold lift, effective_time, py_truediv; cbn [snd]; rewrite Hr;
          reflexivity).
    erewrite bind_ok
      by (unfold lift, total_power_average; rewrite (np_div_finite _ Hd);
          reflexivity).
    erewrite bind_ok by reflexivity.
    unfold ret, sdr_close, emit, w1. cbn [w_rs w_fc w_gain w_pos w_log].
    rewrite (Z.mul_comm num_samp calls).
    rewrite Nat.add_1_r. cbn [repeat]. rewrite repeat_cons.
    repeat rewrite <- app_assoc. reflexivity.
  - rewrite Ht'. unfold w1. cbn [w_fc w_pos]. ring.
Qed.

Lemma sample_power_scale g z :
  sample_power (c_scale g z) == g ^ 2 * sample_power z.
Proof. unfold sample_power, c_mul, c_conj, c_scale. simpl. ring. Qed.

(** X1.  With a positive block length, a non-zero rate and at least one
    block of samples to collect ([num_samp <= rate * t_int] as computed
    in double precision) the total-power run returns.  The callback runs
    floor(int(rate * t_int) / num_samp) times; the driver delivers one
    block more, which the call limit drops, and nothing else happens
    between opening and closing the device.  The result is the mean of
    I^2 + Q^2 over all the samples the callback was handed. *)
Theorem total_power_is_mean_power
        (feed : Q -> nat -> complex) (num_samp : Z)
        (gain rate fc t_int : Q) (w : world) :
  (0 < num_samp)%Z ->
  ~ rate == 0 ->
  inject_Z num_samp <= fl (rate * t_int) ->
  let calls :=
    Qfloor (fl (inject_Z (py_int (fl (rate * t_int))) /
                inject_Z num_samp)) in
  let samples :=
    delivered feed fc (w_pos w) (Z.to_nat (calls * num_samp)) in
  exists v w',
    run_total_power_int feed num_samp gain rate fc t_int w =
    (Ok (NpFloat64 (Fin v)), w') /\
    (1 <= calls)%Z /\
    v == Qsum (map magnitude2 samples) / inject_Z (len samples) /\
    w_log w' =
    w_log w ++ [EvOpen; EvSetRate rate; EvSetFc fc; EvSetGain gain] ++
          repeat (EvRead num_samp) (Z.to_nat calls + 1) ++
          [EvClose; EvClose].
Proof.
  intros Hpos Hrate Hblock calls samples.
  destruct (@run_total_power_int_eval feed num_samp gain rate fc t_int w
                                      Hpos Hrate Hblock)
    as (Hcalls & t & Hrun & Ht).
  fold calls in Hrun, Ht, Hcalls. fold (delivered feed fc (w_pos w)) in Ht.
  fold samples in Ht.
  eexists _, _. split; [exact Hrun |]. split; [exact Hcalls |].
  split; [| reflexivity].
  assert (Hlen : len samples = (calls * num_samp)%Z).
  { unfold len, samples, delivered. rewrite length_map, length_seq.
    apply Z2Nat.id. nia. }
  rewrite Hlen, Ht.
  assert (Hm : Qsum (map sample_power samples) ==
               Qsum (map magnitude2 samples))
    by (apply Qsum_map_ext, sample_power_eq).
  rewrite Hm. reflexivity.
Qed.

(** X3.  Scaling every sample of the source by a real factor [g] scales
    the result of a total-power run that has at least one block to
    collect by [g^2]; the calls made to the device are the same. *)
Theorem total_power_scales_quadratically
        (feed : Q -> nat -> complex) (g : Q) (num_samp : Z)
        (gain rate fc t_int : Q) (w : world) :
  (0 < num_samp)%Z ->
  ~ rate == 0 ->
  inject_Z num_samp <= fl (rate * t_int) ->
  exists v v' w1 w2,
    run_total_power_int feed num_samp gain rate fc t_int w =
    (Ok (NpFloat64 (Fin v)), w1) /\
    run_total_power_int (fun f k => c_scale g (feed f k)) num_samp gain rate
                        fc t_int w = (Ok (NpFloat64 (Fin v')), w2) /\
    v' == g ^ 2 * v /\
    w_log w2 = w_log w1.
Proof.
  intros Hpos Hrate Hblock.
  destruct (@run_total_power_int_eval feed num_samp gain rate fc t_int w
                                      Hpos Hrate Hblock)
    as (Hcalls & t & Hrun & Ht).
  destruct (@run_total_power_int_eval (fun f k => c_scale g (feed f k))
                                      num_samp gain rate fc t_int w
                                      Hpos Hrate Hblock)
    as (_ & t2 & Hrun2 & Ht2).
  cbv zeta in *.
  set (calls := Qfloor _) in *.
  eexists _, _, _, _. split; [exact Hrun |]. split; [exact Hrun2 |].
  split; [| reflexivity].
  assert (Hd : ~ inject_Z (calls * num_samp) == 0).
  { apply inject_Z_nonzero. nia. }
  assert (Hs : t2 == g ^ 2 * t).
  { rewrite Ht2, Ht. unfold delivered.
    rewrite <- (map_map (feed fc) (c_scale g)), map_map.
    rewrite <- Qsum_map_scale.
    apply Qsum_map_ext. intros z. apply sample_power_scale. }
  rewrite Hs. field. exact Hd.
Qed.

(** A quotient of sample counts below one rounds to a double below
    one, as long as the block length is at most [2^53]. *)
Lemma short_quotient_floor N num_samp :
  (0 <= N < num_samp)%Z -> (num_samp <= 2 ^ 53)%Z ->
  Qfloor (fl (inject_Z N / inject_Z num_samp)) = 0%Z.
Proof.
  intros [HN0 HN] Hbig.
  assert (Hq : 0 < inject_Z num_samp).
  { change 0 with (inject_Z 0). rewrite <- Zlt_Qlt. lia. }
  set (c := 1 - 1 / inject_Z (2 ^ 53)).
  assert (Hc : is_double c) by (vm_compute; reflexivity).
  assert (Hc1 : c < 1) by reflexivity.
  assert (Hx : inject_Z N / inject_Z num_samp <= c).
  { apply Qle_shift_div_r; [exact Hq |].
    assert (HN' : inject_Z N <= inject_Z num_samp - 1).
    { setoid_replace (inject_Z num_samp - 1)
        with (inject_Z (num_samp - 1))
        by (unfold Zminus; rewrite inject_Z_plus; reflexivity).
      rewrite <- Zle_Qle. lia. }
    assert (Hs : inject_Z num_samp / inject_Z (2 ^ 53) <= 1).
    { apply Qle_shift_div_r; [reflexivity |].
      rewrite Qmult_1_l. rewrite <- Zle_Qle. exact Hbig. }
    unfold c.
    setoid_replace ((1 - 1 / inject_Z (2 ^ 53)) * inject_Z num_samp)
      with (inject_Z num_samp - inject_Z num_samp / inject_Z (2 ^ 53))
      by (field; discriminate).
    lra. }
  assert (H0 : 0 <= inject_Z N / inject_Z num_samp).
  { apply Qle_shift_div_l; [exact Hq |].
    rewrite Qmult_0_l. change 0 with (inject_Z 0).
    rewrite <- Zle_Qle. exact HN0. }
  pose proof (fl_le_double Hc Hx) as Hup.
  pose proof (fl_nonneg H0) as Hlo.
  apply Qfloor_unique; [exact Hlo |].
  change (inject_Z (0 + 1)) with 1. lra.
Qed.

(** X17.  A total-power run whose integration covers less than one block
    ([0 <= rate * t_int < num_samp] in double precision) never runs its
    callback: the call limit drops the first block the driver delivers,
    and the division of the untouched total by [num_samp * 0] raises
    [ZeroDivisionError].  The device is closed once and nothing is
    returned. *)
Theorem total_power_short_integration_raises
        (feed : Q -> nat -> complex) (num_samp : Z)
        (gain rate fc t_int : Q) (w : world) :
  (0 < num_samp)%Z ->
  (num_samp <= 2 ^ 53)%Z ->
  0 <= fl (rate * t_int) ->
  fl (rate * t_int) < inject_Z num_samp ->
  exists w',
    run_total_power_int feed num_samp gain rate fc t_int w =
    (Raise ZeroDivisionError, w') /\
    w_log w' =
    w_log w ++ [EvOpen; EvSetRate rate; EvSetFc fc; EvSetGain gain;
                EvRead num_samp; EvClose].
Proof.
  intros Hpos Hbig Hlo Hhi.
  assert (Hns : Qeq_bool (inject_Z num_samp) 0 = false).
  { destruct (Qeq_bool (inject_Z num_samp) 0) eqn:E; [| reflexivity].
    apply Qeq_bool_eq in E. exfalso.
    apply (inject_Z_nonzero (z := num_samp)); [lia | exact E]. }
  assert (HN : (0 <= py_int (fl (rate * t_int)) < num_samp)%Z).
  { rewrite (py_int_nonneg Hlo). split.
    - apply (Qfloor_resp_le 0) in Hlo. exact Hlo.
    - rewrite Zlt_Qlt.
      eapply Qle_lt_trans; [apply Qfloor_le | exact Hhi]. }
  pose proof (short_quotient_floor HN Hbig) as Hfloor.
  eexists. split.
  - unfold run_total_power_int, try_finally.
    do 5 (erewrite bind_ok by reflexivity).
    erewrite bind_ok
      by (unfold lift, float_div; rewrite Hns; reflexivity).
    cbn [w_rs]. unfold float_mul, limit_calls. rewrite Hfloor.
    erewrite bind_ok
      by (apply sdr_read_samples_async_eval; [lia | reflexivity]).
    unfold bind at 1. unfold lift at 1, effective_time, py_truediv.
    cbn [snd]. rewrite Z.mul_0_r.
    destruct (Qeq_bool rate 0); [reflexivity |].
    unfold bind at 1. unfold lift at 1, total_power_average, py_truediv.
    rewrite Z.mul_0_r. reflexivity.
  - unfold sdr_close, emit. cbn [snd w_log].
    repeat rewrite <- app_assoc. reflexivity.
Qed.

(** The running total and the counter after any list of blocks. *)
Lemma accumulate_sum bs :
  forall p c t,
    as_np p = Fin t ->
    exists p' t',
      accumulate bs (p, c) = (p', (c + len bs)%Z) /\
      as_np p' = Fin t' /\
      t' == t + Qsum (map block_power bs) /\
      (bs <> [] -> p' = NpFloat64 (Fin t')).
Proof.
  induction bs as [| b bs IH]; intros p c t Hp.
  - exists p, t. unfold len. simpl. rewrite Z.add_0_r.
    repeat split; [exact Hp | unfold Qsum; simpl; ring | congruence].
  - destruct (IH (NpFloat64 (Fin (t + block_power b))) (c + 1)%Z
                 (t + block_power b) eq_refl)
      as (p' & t' & Hacc & Hp' & Ht' & Hnp).
    exists p', t'.
    assert (Hstep : accumulate (b :: bs) (p, c) =
                    accumulate bs
                      (NpFloat64 (Fin (t + block_power b)), (c + 1)%Z)).
    { unfold accumulate. cbn [fold_left]. unfold p_tot_callback at 2.
      rewrite Hp. reflexivity. }
    split; [| split; [exact Hp' | split]].
    + rewrite Hstep, Hacc. f_equal. unfold len. simpl length. lia.
    + rewrite Ht'. cbn [map]. rewrite Qsum_cons. ring.
    + intros _. destruct bs as [| b' bs'].
      * unfold accumulate in Hacc. cbn [fold_left] in Hacc.
        assert (E : NpFloat64 (Fin (t + block_power b)) = p')
          by congruence.
        subst p'. cbn [as_np] in Hp'. f_equal. exact Hp'.
      * apply Hnp. discriminate.
Qed.

(** X4.  The total-power average does not depend on the order in which
    the blocks arrive: any rearrangement of a non-empty list of blocks
    gives the same count and the same average. *)
Theorem total_power_order_independent
        (num_samp : Z) (bs bs' : list (list complex)) :
  (num_samp <> 0)%Z ->
  bs <> [] ->
  Permutation bs bs' ->
  exists v v',
    total_power_average num_samp (accumulate bs (PyFloat 0, 0%Z)) =
    Ok (NpFloat64 (Fin v)) /\
    total_power_average num_samp (accumulate bs' (PyFloat 0, 0%Z)) =
    Ok (NpFloat64 (Fin v')) /\
    snd (accumulate bs (PyFloat 0, 0%Z)) =
    snd (accumulate bs' (PyFloat 0, 0%Z)) /\
    v == v'.
Proof.
  intros Hns Hne Hperm.
  assert (Hne' : bs' <> []).
  { intros ->. apply Permutation_sym, Permutation_nil in Hperm.
    contradiction. }
  destruct (accumulate_sum bs (PyFloat 0) 0%Z eq_refl)
    as (p & t & Hacc & _ & Ht & Hnp).
  destruct (accumulate_sum bs' (PyFloat 0) 0%Z eq_refl)
    as (p' & t' & Hacc' & _ & Ht' & Hnp').
  rewrite (Hnp Hne) in Hacc. rewrite (Hnp' Hne') in Hacc'.
  assert (Hlen : len bs' = len bs).
  { unfold len. rewrite (Permutation_length Hperm). reflexivity. }
  assert (Hpos : (0 < len bs)%Z).
  { unfold len. destruct bs; [contradiction | simpl length; lia]. }
  assert (Hd : ~ inject_Z (num_samp * (0 + len bs)) == 0).
  { apply inject_Z_nonzero. intros E. apply Z.mul_eq_0 in E. lia. }
  rewrite Hacc, Hacc', Hlen. unfold total_power_average.
  rewrite !(np_div_finite _ Hd).
  eexists _, _. split; [reflexivity |]. split; [reflexivity |].
  split; [reflexivity |].
  rewrite Ht, Ht'.
  rewrite (Qsum_perm (Permutation_map block_power Hperm)). reflexivity.
Qed.

(** ** Errors and the release of the device *)

Lemma bind_raise {A B : Type} (m : M A) (k : A -> M B) w e w1 :
  m w = (Raise e, w1) -> bind m k w = (Raise e, w1).
Proof. intros H. unfold bind. rewrite H. reflexivity. Qed.

Lemma closes_on_return_bind {A B : Type} (m : M A) (k : A -> M B) :
  emits quiet m -> (forall a, closes_on_return (k a)) ->
  closes_on_return (bind m k).
Proof.
  intros Hm Hk w. destruct (Hm w) as (evs1 & E1 & F1).
  unfold bind. destruct (m w) as [[a | e] w1]; simpl in E1.
  - destruct (Hk a w1) as (body & Fb & Eb).
    exists (evs1 ++ body). split; [apply Forall_app; split; assumption |].
    rewrite Eb, E1, <- !app_assoc. reflexivity.
  - exists evs1. split; [exact F1 |]. simpl. rewrite app_nil_r. exact E1.
Qed.

Lemma closes_on_return_close {A : Type} (x : A) :
  closes_on_return (sdr_close ;; ret x).
Proof. intros w. exists []. split; [constructor | reflexivity]. Qed.

(** Opening the device, running a body that closes it on return, and
    closing it in [finally] releases the device on every path. *)
Lemma released_open_try {A : Type} (body : M A) :
  closes_on_return body ->
  forall w,
    released w (snd ((sdr_open ;; try_finally body sdr_close) w))
             (is_ok (fst ((sdr_open ;; try_finally body sdr_close) w))).
Proof.
  intros Hb w.
  set (w0 := mkWorld (w_rs w) (w_fc w) (w_gain w) (w_pos w)
                     (w_log w ++ [EvOpen])).
  destruct (Hb w0) as (evs & Fq & E).
  assert (Hrun : (sdr_open ;; try_finally body sdr_close) w =
                 (fst (body w0),
                  mkWorld (w_rs (snd (body w0))) (w_fc (snd (body w0)))
                          (w_gain (snd (body w0))) (w_pos (snd (body w0)))
                          (w_log (snd (body w0)) ++ [EvClose]))).
  { unfold bind, sdr_open, emit, try_finally, sdr_close. fold w0.
    destruct (body w0) as [r w1]. reflexivity. }
  rewrite Hrun. cbn [fst snd w_log].
  exists evs. split; [exact Fq |].
  rewrite E.
  destruct (fst (body w0)) as [a | e]; cbn [is_ok]; unfold w0;
    cbn [w_log]; rewrite <- !app_assoc; reflexivity.
Qed.

Ltac quiet_step :=
  match goal with
  | |- closes_on_return (bind sdr_close (fun _ => ret _)) =>
      apply closes_on_return_close
  | |- closes_on_return (bind _ _) => apply closes_on_return_bind
  | |- closes_on_return (match ?x with _ => _ end) => destruct x
  | |- forall _, _ => intro
  | |- quiet _ => split; discriminate
  | |- emits _ (sdr_set_rs _) => apply emits_set_rs
  | |- emits _ (sdr_set_fc _) => apply emits_set_fc
  | |- emits _ (sdr_set_gain _) => apply emits_set_gain
  | |- emits _ (sdr_read_samples _ _) => apply emits_read
  | _ => emits_step
  end.

Ltac quiet_auto := repeat quiet_step.

(** The [try] block of the switched run. *)
Lemma fswitch_body_closes
      (feed : Q -> nat -> complex)
      (periodogram : list complex -> Q -> Z -> Z -> list Q)
      (f_throw_fold :
         list Q -> list Q -> list npfloat -> list npfloat -> result folded)
      (num_samp nbins : Z) (gain rate fc fthrow t_int fswitch : Q) :
  closes_on_return
    (a <- fswitch_prepare feed periodogram num_samp nbins gain rate fc
                          fthrow t_int fswitch ;;
     out <- lift (f_throw_fold (fa_freqs_on a) (fa_freqs_off a)
                               (fa_p_avg_on a) (fa_p_avg_off a)) ;;
     sdr_close ;;
     ret out).
Proof.
  unfold fswitch_prepare, fswitch_integrate, fswitch_dwell, fswitch_step.
  quiet_auto.
Qed.

(** X6.  Every run releases the device on every path: whatever the
    arguments and whether it returns or raises, a run that got as far as
    opening the device logs the opening once, then only calls that neither
    open nor close, and ends by closing it, twice on return and once on an
    exception.  A switched run whose check fails does not touch the
    device at all. *)
Theorem device_always_released
        (feed : Q -> nat -> complex)
        (periodogram : list complex -> Q -> Z -> Z -> list Q)
        (get_window : Z -> list Q) (log10 : Q -> Q)
        (f_throw_fold :
           list Q -> list Q -> list npfloat -> list npfloat -> result folded)
        (num_samp nbins : Z) (gain rate fc fthrow t_int fswitch : Q)
        (w : world) :
  (let out := run_total_power_int feed num_samp gain rate fc t_int w in
   released w (snd out) (is_ok (fst out))) /\
  (let out := run_spectrum_int feed periodogram get_window log10 num_samp
                               nbins gain rate fc t_int w in
   released w (snd out) (is_ok (fst out))) /\
  (let out := run_fswitch_int feed periodogram f_throw_fold num_samp nbins
                              gain rate fc fthrow t_int fswitch w in
   match fswitch_check t_int fswitch with
   | Ok _ => released w (snd out) (is_ok (fst out))
   | Raise e => out = (Raise e, w)
   end).
Proof.
  split; [| split]; cbv zeta.
  - unfold run_total_power_int. apply released_open_try.
    unfold sdr_read_samples_async. quiet_auto.
  - unfold run_spectrum_int. apply released_open_try.
    unfold spectrum_integrate, spectrum_step. quiet_auto.
  - unfold run_fswitch_int. unfold bind at 1. unfold lift at 1.
    destruct (fswitch_check t_int fswitch) as [[] | e]; [| reflexivity].
    apply released_open_try. apply fswitch_body_closes.
Qed.

(** A run whose [try] block raises closes the device once and passes the
    exception on. *)
Lemma open_try_raise {A : Type} (body : M A) w e w1 :
  body (opened w) = (Raise e, w1) ->
  (sdr_open ;; try_finally body sdr_close) w =
  (Raise e, snd (sdr_close w1)).
Proof.
  intros H. unfold bind, try_finally, opened in *.
  destruct (sdr_open w) as [[[] | e0] w0] eqn:E; [| discriminate E].
  cbn [snd] in H. rewrite H. reflexivity.
Qed.

Lemma fswitch_check_ok_nonzero t_int fswitch :
  fswitch_check t_int fswitch = Ok tt ->
  Qeq_bool fswitch 0 = false /\ fl (2 * fl (1 / fswitch)) <= t_int.
Proof.
  unfold fswitch_check, float_div, float_mul.
  destruct (Qeq_bool fswitch 0); [discriminate |].
  destruct (Qle_bool (fl (2 * fl (1 / fswitch))) t_int) eqn:E;
    [| discriminate].
  intros _. split; [reflexivity | apply Qle_bool_iff; exact E].
Qed.

(** A switched run whose dwell plan raises. *)
Lemma run_fswitch_int_plan_raises
      (feed : Q -> nat -> complex)
      (periodogram : list complex -> Q -> Z -> Z -> list Q)
      (f_throw_fold :
         list Q -> list Q -> list npfloat -> list npfloat -> result folded)
      (num_samp nbins : Z) (gain rate fc fthrow t_int fswitch : Q)
      (w : world) (e : exn) :
  fswitch_check t_int fswitch = Ok tt ->
  fswitch_plan num_samp rate t_int fswitch = Raise e ->
  exists w',
    run_fswitch_int feed periodogram f_throw_fold num_samp nbins gain rate fc
                    fthrow t_int fswitch w = (Raise e, w') /\
    w_log w' = configured_log w gain rate fc.
Proof.
  intros Hchk Hplan. unfold run_fswitch_int.
  erewrite bind_ok by (unfold lift; rewrite Hchk; reflexivity).
  eexists. split.
  - apply open_try_raise. apply bind_raise.
    unfold fswitch_prepare. apply bind_raise.
    unfold fswitch_integrate.
    do 4 (erewrite bind_ok by reflexivity).
    apply bind_raise. unfold lift. cbn [w_rs]. rewrite Hplan. reflexivity.
  - unfold configured_log, opened. cbn. rewrite <- !app_assoc. reflexivity.
Qed.

(** X5.  With [num_samp = 0] every run raises [ZeroDivisionError] right
    after configuring the device: no block is requested and the device is
    closed once.  (For the switched run: when its check on the integration
    time passes.) *)
Theorem zero_block_length_raises
        (feed : Q -> nat -> complex)
        (periodogram : list complex -> Q -> Z -> Z -> list Q)
        (get_window : Z -> list Q) (log10 : Q -> Q)
        (f_throw_fold :
           list Q -> list Q -> list npfloat -> list npfloat -> result folded)
        (nbins : Z) (gain rate fc fthrow t_int fswitch : Q) (w : world) :
  (exists w',
      run_total_power_int feed 0 gain rate fc t_int w =
      (Raise ZeroDivisionError, w') /\
      w_log w' = configured_log w gain rate fc) /\
  (exists w',
      run_spectrum_int feed periodogram get_window log10 0 nbins gain rate
                       fc t_int w = (Raise ZeroDivisionError, w') /\
      w_log w' = configured_log w gain rate fc) /\
  (fswitch_check t_int fswitch = Ok tt ->
   exists w',
     run_fswitch_int feed periodogram f_throw_fold 0 nbins gain rate fc
                     fthrow t_int fswitch w = (Raise ZeroDivisionError, w') /\
     w_log w' = configured_log w gain rate fc).
Proof.
  split; [| split].
  - eexists. split.
    + unfold run_total_power_int. apply open_try_raise.
      do 4 (erewrite bind_ok by reflexivity).
      apply bind_raise. reflexivity.
    + unfold configured_log, opened. cbn. rewrite <- !app_assoc.
      reflexivity.
  - eexists. split.
    + unfold run_spectrum_int. apply open_try_raise. apply bind_raise.
      unfold spectrum_integrate.
      do 4 (erewrite bind_ok by reflexivity).
      apply bind_raise. reflexivity.
    + unfold configured_log, opened. cbn. rewrite <- !app_assoc.
      reflexivity.
  - intros Hchk. apply run_fswitch_int_plan_raises; [exact Hchk |].
    apply fswitch_check_ok_nonzero in Hchk as [Hf _].
    unfold fswitch_plan, float_div. rewrite Hf. reflexivity.
Qed.

(** X14.  A switched run whose dwell holds no whole sample (the length
    of a dwell, [rate * (1.0 / fswitch)] in double precision, is below
    one) raises [ZeroDivisionError] right after configuring the device,
    whatever the other arguments: nothing is read and the device is
    closed once. *)
Theorem fswitch_rate_below_switching_raises
        (feed : Q -> nat -> complex)
        (periodogram : list complex -> Q -> Z -> Z -> list Q)
        (f_throw_fold :
           list Q -> list Q -> list npfloat -> list npfloat -> result folded)
        (num_samp nbins : Z) (gain rate fc fthrow t_int fswitch : Q)
        (w : world) :
  fswitch_check t_int fswitch = Ok tt ->
  0 <= rate / fswitch ->
  fl (rate * fl (1 / fswitch)) < 1 ->
  exists w',
    run_fswitch_int feed periodogram f_throw_fold num_samp nbins gain rate fc
                    fthrow t_int fswitch w = (Raise ZeroDivisionError, w') /\
    w_log w' = configured_log w gain rate fc.
Proof.
  intros Hchk Hlo Hhi. apply run_fswitch_int_plan_raises; [exact Hchk |].
  apply fswitch_check_ok_nonzero in Hchk as [Hf _].
  assert (Hfz : ~ fswitch == 0) by (apply Qeq_bool_neq; exact Hf).
  pose proof (dwell_nonneg Hfz Hlo) as Hd0.
  assert (Hd : py_int (fl (rate * fl (1 / fswitch))) = 0%Z).
  { rewrite (py_int_nonneg Hd0).
    apply Qfloor_unique; [exact Hd0 | exact Hhi]. }
  unfold fswitch_plan, float_div, float_mul. rewrite Hf, Hd.
  unfold py_floordiv.
  destruct (num_samp =? 0)%Z; reflexivity.
Qed.

(** X11.  A switched run with [fswitch = 0] raises [ZeroDivisionError]
    while evaluating its check and leaves the world untouched.  With a
    non-zero [fswitch] and a double [t_int] with [2 / fswitch <= t_int]
    the check passes: the device is opened, and released on whichever
    path the run ends. *)
Theorem fswitch_admission
        (feed : Q -> nat -> complex)
        (periodogram : list complex -> Q -> Z -> Z -> list Q)
        (f_throw_fold :
           list Q -> list Q -> list npfloat -> list npfloat -> result folded)
        (num_samp nbins : Z) (gain rate fc fthrow t_int fswitch : Q)
        (w : world) :
  let out := run_fswitch_int feed periodogram f_throw_fold num_samp nbins
                             gain rate fc fthrow t_int fswitch w in
  (fswitch == 0 -> out = (Raise ZeroDivisionError, w)) /\
  (~ fswitch == 0 -> is_double t_int -> 2 / fswitch <= t_int ->
   fswitch_check t_int fswitch = Ok tt /\
   released w (snd out) (is_ok (fst out))).
Proof.
  cbv zeta. split.
  - intros Hz. unfold run_fswitch_int. apply bind_raise.
    unfold lift, fswitch_check, float_div.
    apply Qeq_eq_bool in Hz. rewrite Hz. reflexivity.
  - intros Hnz Hdbl Hle.
    assert (Hchk : fswitch_check t_int fswitch = Ok tt).
    { unfold fswitch_check, float_div, float_mul.
      destruct (Qeq_bool fswitch 0) eqn:E0;
        [apply Qeq_bool_eq in E0; contradiction |].
      assert (Hle' : fl (2 * fl (1 / fswitch)) <= t_int).
      { rewrite (fswitch_threshold Hnz).
        apply fl_le_double; assumption. }
      apply Qle_bool_iff in Hle'. rewrite Hle'. reflexivity. }
    split; [exact Hchk |].
    unfold run_fswitch_int.
    erewrite bind_ok by (unfold lift; rewrite Hchk; reflexivity).
    apply released_open_try. apply fswitch_body_closes.
Qed.

(** X16.  A negative number of bins makes the spectrum run raise
    [ValueError] when it allocates its arrays, right after configuring
    the device: nothing is read and the device is closed once.  The
    switched run does the same once its check and its dwell plan have
    passed. *)
Theorem negative_bin_count_raises
        (feed : Q -> nat -> complex)
        (periodogram : list complex -> Q -> Z -> Z -> list Q)
        (get_window : Z -> list Q) (log10 : Q -> Q)
        (f_throw_fold :
           list Q -> list Q -> list npfloat -> list npfloat -> result folded)
        (num_samp nbins : Z) (gain rate fc fthrow t_int fswitch : Q)
        (w : world) :
  (nbins < 0)%Z ->
  (num_samp <> 0)%Z ->
  (exists w',
      run_spectrum_int feed periodogram get_window log10 num_samp nbins gain
                       rate fc t_int w = (Raise ValueError, w') /\
      w_log w' = configured_log w gain rate fc) /\
  (forall plan,
      fswitch_check t_int fswitch = Ok tt ->
      fswitch_plan num_samp rate t_int fswitch = Ok plan ->
      exists w',
        run_fswitch_int feed periodogram f_throw_fold num_samp nbins gain
                        rate fc fthrow t_int fswitch w =
        (Raise ValueError, w') /\
        w_log w' = configured_log w gain rate fc).
Proof.
  intros Hnb Hns.
  assert (Hz : forall (A : Type) (z : A), np_zeros z nbins = Raise ValueError).
  { intros A z. unfold np_zeros.
    destruct (Z.ltb_spec nbins 0); [reflexivity | lia]. }
  assert (Hq : Qeq_bool (inject_Z num_samp) 0 = false).
  { destruct (Qeq_bool (inject_Z num_samp) 0) eqn:E; [| reflexivity].
    apply Qeq_bool_eq in E. exfalso.
    apply (inject_Z_nonzero Hns). exact E. }
  split.
  - eexists. split.
    + unfold run_spectrum_int. apply open_try_raise. apply bind_raise.
      unfold spectrum_integrate.
      do 4 (erewrite bind_ok by reflexivity).
      erewrite bind_ok
        by (unfold lift, float_div; rewrite Hq; reflexivity).
      apply bind_raise. unfold lift. rewrite Hz. reflexivity.
    + unfold configured_log, opened. cbn. rewrite <- !app_assoc.
      reflexivity.
  - intros [nl nd] Hchk Hplan. unfold run_fswitch_int.
    erewrite bind_ok by (unfold lift; rewrite Hchk; reflexivity).
    eexists. split.
    + apply open_try_raise. apply bind_raise.
      unfold fswitch_prepare. apply bind_raise.
      unfold fswitch_integrate.
      do 4 (erewrite bind_ok by reflexivity).
      erewrite bind_ok
        by (unfold lift; cbn [w_rs]; rewrite Hplan; reflexivity).
      apply bind_raise. unfold lift. rewrite Hz. reflexivity.
    + unfold configured_log, opened. cbn. rewrite <- !app_assoc.
      reflexivity.
Qed.

(** ** The spectrum run, evaluated *)

Section SpectrumEval.

Variable feed : Q -> nat -> complex.
Variable periodogram : list complex -> Q -> Z -> Z -> list Q.

(** A read of a non-negative number of samples succeeds. *)
Lemma sdr_read_samples_eval n w :
  (0 <= n)%Z ->
  sdr_read_samples feed n w =
  (Ok (delivered feed (w_fc w) (w_pos w) (Z.to_nat n)),
   mkWorld (w_rs w) (w_fc w) (w_gain w) (w_pos w + Z.to_nat n)%nat
           (w_log w ++ [EvRead n])).
Proof.
  intros Hn. unfold sdr_read_samples.
  destruct (Z.ltb_spec n 0); [lia | reflexivity].
Qed.

(** [welch] with arguments that pass its checks. *)
Lemma welch_eval x fs nperseg nfft w :
  (len x <> 0)%Z ->
  (1 <= nperseg)%Z ->
  ~ fs == 0 ->
  let seg := welch_segment nperseg (len x) in
  let nfft' := match nfft with None => seg | Some m => m end in
  (seg <= nfft')%Z ->
  welch periodogram x fs nperseg nfft w =
  (Ok (fftfreq nfft' (1 / fs), map Fin (periodogram x fs seg nfft')),
   mkWorld (w_rs w) (w_fc w) (w_gain w) (w_pos w)
           (w_log w ++ [EvWelch fs nperseg nfft])).
Proof.
  intros Hx Hseg Hfs seg nfft' Hfft. unfold welch.
  erewrite bind_ok by reflexivity.
  destruct (Z.eqb_spec (len x) 0) as [E | _]; [contradiction |].
  destruct (Z.ltb_spec nperseg 1) as [Hlt | _]; [lia |].
  fold (welch_segment nperseg (len x)). fold seg. fold nfft'.
  destruct (Z.ltb_spec nfft' seg) as [Hlt | _]; [lia |].
  erewrite bind_ok.
  - reflexivity.
  - unfold lift, py_truediv.
    destruct (Qeq_bool fs 0) eqn:E; [| reflexivity].
    apply Qeq_bool_eq in E. contradiction.
Qed.

Lemma np_iadd_same_length a b :
  length b = length a -> np_iadd a b = Ok (zip_with np_add a b).
Proof.
  intros H. unfold np_iadd. rewrite H, Nat.eqb_refl. reflexivity.
Qed.

Lemma zip_with_length {A B C : Type} (f : A -> B -> C) a b :
  length b = length a -> length (zip_with f a b) = length a.
Proof.
  revert b. induction a as [| x a IH]; intros [| y b] H; simpl in *;
    try reflexivity; try discriminate.
  f_equal. apply IH. lia.
Qed.

Lemma delivered_length f pos n : length (delivered feed f pos n) = n.
Proof. unfold delivered. rewrite length_map, length_seq. reflexivity. Qed.

End SpectrumEval.

Section SpectrumTotal.

Variable feed : Q -> nat -> complex.
Variable periodogram : list complex -> Q -> Z -> Z -> list Q.
Variables num_samp nbins : Z.
Variable rate : Q.

Hypothesis Hns : (0 < num_samp)%Z.
Hypothesis Hnb : (0 < nbins)%Z.
Hypothesis Hrate : ~ rate == 0.

(** The library returns one power value per bin of the transform. *)
Hypothesis Hlen :
  forall x fs nperseg nfft,
    length (periodogram x fs nperseg nfft) = Z.to_nat nfft.

Let ns := Z.to_nat num_samp.
Let seg := welch_segment (spectrum_nperseg nbins) num_samp.

Lemma len_delivered f pos : len (delivered feed f pos ns) = num_samp.
Proof. unfold len. rewrite delivered_length. unfold ns. lia. Qed.

Lemma spectrum_step_eval i f p c wa :
  length p = Z.to_nat nbins ->
  spectrum_step feed periodogram num_samp nbins rate
                (spectrum_nperseg nbins) i (f, p, c) wa =
  (Ok (fftfreq nbins (1 / rate),
       zip_with np_add p
                (map Fin (periodogram
                            (delivered feed (w_fc wa) (w_pos wa) ns)
                            rate seg nbins)),
       i),
   mkWorld (w_rs wa) (w_fc wa) (w_gain wa) (w_pos wa + ns)%nat
           (w_log wa ++ spectrum_turn_log num_samp nbins rate)).
Proof.
  intros Hp. unfold spectrum_step.
  erewrite bind_ok by (apply sdr_read_samples_eval; lia).
  fold ns.
  assert (Hseg : (1 <= spectrum_nperseg nbins <= nbins)%Z).
  { rewrite spectrum_nperseg_min. lia. }
  erewrite bind_ok.
  2:{ apply welch_eval; rewrite ?len_delivered; try lia; try exact Hrate.
      cbv zeta. unfold welch_segment.
      destruct (spectrum_nperseg nbins >? num_samp)%Z eqn:E; lia. }
  cbv zeta. rewrite len_delivered. fold seg.
  erewrite bind_ok.
  2:{ unfold lift. rewrite np_iadd_same_length; [reflexivity |].
      rewrite length_map, Hlen, Hp. reflexivity. }
  unfold ret, spectrum_turn_log. cbn [w_rs w_fc w_gain w_pos w_log].
  rewrite <- app_assoc. reflexivity.
Qed.

Lemma accumulate_spectrum_length ps p0 :
  Forall (fun p => length p = length p0) ps ->
  length (accumulate_spectrum ps p0) = length p0.
Proof.
  unfold accumulate_spectrum. revert p0.
  induction ps as [| p ps IH]; intros p0 H; [reflexivity |].
  inversion H as [| ? ? Hp Hps]; subst. cbn [fold_left].
  assert (Hz : length (zip_with np_add p0 (map Fin p)) = length p0)
    by (apply zip_with_length; rewrite length_map; exact Hp).
  rewrite IH; [exact Hz |].
  rewrite Hz. exact Hps.
Qed.

Lemma block_periodograms_length f nperseg pos n :
  Forall (fun p => length p = Z.to_nat nbins)
         (block_periodograms feed periodogram f rate nperseg nbins pos ns n).
Proof.
  unfold block_periodograms. apply Forall_map, Forall_forall.
  intros j _. apply Hlen.
Qed.

(** The spectrum loop over [n] indices from [k] on. *)
Lemma spectrum_loop_eval :
  forall n k f p c wa,
    length p = Z.to_nat nbins ->
    for_each (map (fun i => (k + Z.of_nat i)%Z) (seq 0 n))
             (spectrum_step feed periodogram num_samp nbins rate
                            (spectrum_nperseg nbins)) (f, p, c) wa =
    (Ok (match n with O => f | S _ => fftfreq nbins (1 / rate) end,
         accumulate_spectrum
           (block_periodograms feed periodogram (w_fc wa) rate seg nbins
                               (w_pos wa) ns n) p,
         match n with O => c | S _ => (k + Z.of_nat n - 1)%Z end),
     mkWorld (w_rs wa) (w_fc wa) (w_gain wa) (w_pos wa + n * ns)%nat
             (w_log wa ++
                    concat (repeat (spectrum_turn_log num_samp nbins rate)
                                   n))).
Proof.
  induction n as [| n IH]; intros k f p c wa Hp.
  - simpl. unfold ret. rewrite Nat.add_0_r, app_nil_r.
    destruct wa; reflexivity.
  - rewrite <- cons_seq, <- seq_shift. cbn [map for_each].
    rewrite map_map.
    erewrite bind_ok by (apply spectrum_step_eval; exact Hp).
    assert (Hl : map (fun x => (k + Z.of_nat (S x))%Z) (seq 0 n) =
                 map (fun i => (k + 1 + Z.of_nat i)%Z) (seq 0 n))
      by (apply map_ext; intros; lia).
    rewrite Hl, IH.
    2:{ rewrite zip_with_length; [exact Hp |].
        rewrite length_map, Hlen, Hp. reflexivity. }
    cbn [w_rs w_fc w_gain w_pos w_log].
    f_equal; [f_equal; f_equal; [f_equal |] |].
    + destruct n; reflexivity.
    + unfold block_periodograms, accumulate_spectrum.
      rewrite <- cons_seq, <- seq_shift. cbn [map fold_left].
      rewrite map_map, Nat.add_0_r. f_equal.
      apply map_ext. intros j. do 2 f_equal. lia.
    + destruct n; lia.
    + f_equal; [lia |]. cbn [repeat concat].
      rewrite <- app_assoc. reflexivity.
Qed.

End SpectrumTotal.

Lemma zip_with_nth {A B C : Type} (f : A -> B -> C) a b i x y :
  nth_error a i = Some x -> nth_error b i = Some y ->
  nth_error (zip_with f a b) i = Some (f x y).
Proof.
  revert b i. induction a as [| x0 a IH]; intros [| y0 b] [| i] Ha Hb;
    simpl in *; try discriminate.
  - congruence.
  - apply IH; assumption.
Qed.

(** Bin [i] of the accumulator after the periodograms [ps] were added. *)
Lemma accumulate_spectrum_nth ps :
  forall p0 i a,
    Forall (fun p => length p = length p0) ps ->
    nth_error p0 i = Some (Fin a) ->
    nth_error (accumulate_spectrum ps p0) i =
    Some (Fin (fold_left Qplus (map (fun p => nth i p 0) ps) a)).
Proof.
  unfold accumulate_spectrum.
  induction ps as [| p ps IH]; intros p0 i a Hall Hi; [exact Hi |].
  inversion Hall as [| ? ? Hp Hps]; subst. cbn [fold_left map].
  assert (Hlt : (i < length p)%nat).
  { rewrite Hp. apply nth_error_Some. congruence. }
  assert (Hz : length (zip_with np_add p0 (map Fin p)) = length p0)
    by (apply zip_with_length; rewrite length_map; exact Hp).
  apply IH.
  - rewrite Hz. exact Hps.
  - change (Fin (a + nth i p 0)) with (np_add (Fin a) (Fin (nth i p 0))).
    apply zip_with_nth; [exact Hi |].
    rewrite nth_error_map, (nth_error_nth' p 0 Hlt). reflexivity.
Qed.

(** The integration of a spectrum run on well-formed arguments,
    evaluated. *)
Lemma spectrum_integrate_eval
      (feed : Q -> nat -> complex)
      (periodogram : list complex -> Q -> Z -> Z -> list Q)
      (num_samp nbins : Z) (gain rate fc t_int : Q) (w : world) :
  (0 < num_samp)%Z ->
  (0 < nbins)%Z ->
  ~ rate == 0 ->
  (forall x fs nperseg nfft,
      length (periodogram x fs nperseg nfft) = Z.to_nat nfft) ->
  let num_loops :=
    (py_int (fl (inject_Z (py_int (fl (rate * t_int))) / inject_Z num_samp))
     + 1)%Z in
  let n := Z.to_nat num_loops in
  let seg := welch_segment (spectrum_nperseg nbins) num_samp in
  spectrum_integrate feed periodogram num_samp nbins gain rate fc t_int w =
  (Ok (match n with
       | O => repeat 0 (Z.to_nat nbins)
       | S _ => fftfreq nbins (1 / rate)
       end,
       accumulate_spectrum
         (block_periodograms feed periodogram fc rate seg nbins (w_pos w)
                             (Z.to_nat num_samp) n)
         (repeat (Fin 0) (Z.to_nat nbins)),
       match n with O => 0%Z | S _ => (num_loops - 1)%Z end),
   mkWorld rate fc gain (w_pos w + n * Z.to_nat num_samp)%nat
           (w_log w ++ [EvSetRate rate; EvSetFc fc; EvSetGain gain] ++
                  concat (repeat (spectrum_turn_log num_samp nbins rate) n))).
Proof.
  intros Hns Hnb Hrate Hlen num_loops n seg.
  unfold spectrum_integrate.
  do 4 (erewrite bind_ok by reflexivity).
  cbn [w_rs]. unfold float_mul.
  erewrite bind_ok.
  2:{ unfold lift, float_div.
      destruct (Qeq_bool (inject_Z num_samp) 0) eqn:E; [| reflexivity].
      apply Qeq_bool_eq in E. exfalso.
      apply (inject_Z_nonzero (z := num_samp)); [lia | exact E]. }
  fold num_loops.
  assert (Hz : forall (A : Type) (z : A),
             np_zeros z nbins = Ok (repeat z (Z.to_nat nbins))).
  { intros A z. unfold np_zeros.
    destruct (Z.ltb_spec nbins 0); [lia | reflexivity]. }
  erewrite bind_ok by (unfold lift; rewrite Hz; reflexivity).
  erewrite bind_ok by (unfold lift; rewrite Hz; reflexivity).
  unfold range, arange. rewrite Z.sub_0_r. fold n.
  rewrite (spectrum_loop_eval feed periodogram Hns Hnb Hrate Hlen)
    by apply repeat_length.
  cbn [w_rs w_fc w_gain w_pos w_log]. fold seg.
  f_equal; [f_equal; f_equal |].
  - destruct n eqn:En; [reflexivity |]. lia.
  - f_equal. rewrite <- !app_assoc. reflexivity.
Qed.

(** X7.  On well-formed arguments (positive block length and bin count,
    non-zero rate, a library that returns one power value per bin) the
    spectrum run always returns.  It returns an axis and values of
    [nbins] elements each, and between opening and closing the device it
    reads int(int(rate * t_int) / num_samp) + 1 blocks, each followed by
    one call of [welch]. *)
Theorem spectrum_run_returns
        (feed : Q -> nat -> complex)
        (periodogram : list complex -> Q -> Z -> Z -> list Q)
        (get_window : Z -> list Q) (log10 : Q -> Q)
        (num_samp nbins : Z) (gain rate fc t_int : Q) (w : world) :
  (0 < num_samp)%Z ->
  (0 < nbins)%Z ->
  ~ rate == 0 ->
  (forall x fs nperseg nfft,
      length (periodogram x fs nperseg nfft) = Z.to_nat nfft) ->
  let num_loops :=
    (py_int (fl (inject_Z (py_int (fl (rate * t_int))) / inject_Z num_samp))
     + 1)%Z in
  exists freqs p_db w',
    run_spectrum_int feed periodogram get_window log10 num_samp nbins gain
                     rate fc t_int w = (Ok (freqs, p_db), w') /\
    length freqs = Z.to_nat nbins /\
    length p_db = Z.to_nat nbins /\
    w_log w' =
    w_log w ++ [EvOpen; EvSetRate rate; EvSetFc fc; EvSetGain gain] ++
          concat (repeat (spectrum_turn_log num_samp nbins rate)
                         (Z.to_nat num_loops)) ++ [EvClose; EvClose] /\
    w_pos w' = (w_pos w + Z.to_nat num_loops * Z.to_nat num_samp)%nat.
Proof.
  intros Hns Hnb Hrate Hlen num_loops.
  pose proof (@spectrum_integrate_eval
                feed periodogram num_samp nbins gain rate fc t_int
                (mkWorld (w_rs w) (w_fc w) (w_gain w) (w_pos w)
                         (w_log w ++ [EvOpen]))
                Hns Hnb Hrate Hlen) as Hint.
  cbv zeta in Hint. fold num_loops in Hint.
  set (n := Z.to_nat num_loops) in *.
  set (acc := accumulate_spectrum _ _) in Hint.
  set (f := match n with O => _ | S _ => _ end) in Hint.
  set (c := match n with O => _ | S _ => _ end) in Hint.
  assert (Hr : Qeq_bool rate 0 = false).
  { destruct (Qeq_bool rate 0) eqn:E; [| reflexivity].
    apply Qeq_bool_eq in E. contradiction. }
  eexists _, _, _. split; [| split; [| split; [| split]]].
  - unfold run_spectrum_int, try_finally.
    erewrite bind_ok by reflexivity.
    erewrite bind_ok by exact Hint.
    erewrite bind_ok
      by (unfold lift, effective_time, py_truediv; rewrite Hr; reflexivity).
    erewrite bind_ok by reflexivity.
    unfold ret, sdr_close, emit, spectrum_finish.
    cbn [w_rs w_fc w_gain w_pos w_log]. reflexivity.
  - rewrite recentre_length, fftshift_length. unfold f.
    destruct n; [apply repeat_length | apply fftfreq_length; exact Hnb].
  - unfold db_of_psd, psd_of_power, spectrum_average.
    rewrite !length_map, fftshift_length. unfold acc.
    rewrite accumulate_spectrum_length; [apply repeat_length |].
    rewrite repeat_length.
    apply (block_periodograms_length feed periodogram). exact Hlen.
  - rewrite <- !app_assoc. reflexivity.
  - reflexivity.
Qed.

(** X8.  On well-formed arguments the accumulator that the spectrum loop
    leaves behind holds, in every bin, the sum of that bin over the
    periodograms of all blocks read; the blocks are consecutive stretches
    of [num_samp] samples of the stream at [fc], and every periodogram is
    taken with the segment length [min(nbins, 256)] shortened to the
    block. *)
Theorem spectrum_accumulates_periodograms
        (feed : Q -> nat -> complex)
        (periodogram : list complex -> Q -> Z -> Z -> list Q)
        (num_samp nbins : Z) (gain rate fc t_int : Q) (w : world) :
  (0 < num_samp)%Z ->
  (0 < nbins)%Z ->
  ~ rate == 0 ->
  (forall x fs nperseg nfft,
      length (periodogram x fs nperseg nfft) = Z.to_nat nfft) ->
  let num_loops :=
    (py_int (fl (inject_Z (py_int (fl (rate * t_int))) / inject_Z num_samp))
     + 1)%Z in
  let seg := welch_segment (Z.min nbins 256) num_samp in
  let blocks :=
    block_periodograms feed periodogram fc rate seg nbins (w_pos w)
                       (Z.to_nat num_samp) (Z.to_nat num_loops) in
  exists f p c w1,
    spectrum_integrate feed periodogram num_samp nbins gain rate fc t_int w =
    (Ok (f, p, c), w1) /\
    length blocks = Z.to_nat num_loops /\
    forall i,
      (i < Z.to_nat nbins)%nat ->
      nth_error p i = Some (Fin (Qsum (map (fun P => nth i P 0) blocks))).
Proof.
  intros Hns Hnb Hrate Hlen num_loops seg blocks.
  pose proof (@spectrum_integrate_eval
                feed periodogram num_samp nbins gain rate fc t_int w
                Hns Hnb Hrate Hlen) as Hint.
  cbv zeta in Hint. fold num_loops in Hint.
  rewrite spectrum_nperseg_min in Hint. fold seg in Hint. fold blocks in Hint.
  eexists _, _, _, _. split; [exact Hint |]. split.
  - unfold blocks, block_periodograms. rewrite length_map, length_seq.
    reflexivity.
  - intros i Hi. unfold Qsum.
    apply accumulate_spectrum_nth.
    + rewrite repeat_length.
      apply (block_periodograms_length feed periodogram). exact Hlen.
    + apply nth_error_repeat. exact Hi.
Qed.

Lemma py_int_ge0 x : 0 <= x -> (0 <= py_int x)%Z.
Proof.
  intros H. rewrite (py_int_nonneg H).
  apply Qfloor_resp_le in H. exact H.
Qed.

Lemma spectrum_num_loops_pos rate t_int num_samp :
  (0 < num_samp)%Z -> 0 <= rate * t_int ->
  (0 < py_int (fl (inject_Z (py_int (fl (rate * t_int))) / inject_Z num_samp))
       + 1)%Z.
Proof.
  intros Hns Hx.
  assert (H0 : (0 <= py_int (fl (rate * t_int)))%Z)
    by (apply py_int_ge0, fl_nonneg; exact Hx).
  assert (Hq : 0 <= inject_Z (py_int (fl (rate * t_int))) /
                    inject_Z num_samp).
  { apply Qle_shift_div_l.
    - change 0 with (inject_Z 0). rewrite <- Zlt_Qlt. exact Hns.
    - rewrite Qmult_0_l. change 0 with (inject_Z 0). rewrite <- Zle_Qle.
      exact H0. }
  apply fl_nonneg, py_int_ge0 in Hq. lia.
Qed.

(** X9.  In a successful spectrum run with a non-negative integration
    time the returned axis has [nbins] bins and bin [i] is
    [fc + (i - nbins // 2) * rate / nbins]: the bins ascend in steps of
    [rate / nbins] and bin [nbins // 2] is [fc]. *)
Theorem spectrum_axis_values
        (feed : Q -> nat -> complex)
        (periodogram : list complex -> Q -> Z -> Z -> list Q)
        (get_window : Z -> list Q) (log10 : Q -> Q)
        (num_samp nbins : Z) (gain rate fc t_int : Q)
        (w : world) (freqs : list Q) (p_db : list npfloat) (w' : world) :
  run_spectrum_int feed periodogram get_window log10 num_samp nbins gain
                   rate fc t_int w = (Ok (freqs, p_db), w') ->
  (0 < num_samp)%Z ->
  0 <= rate * t_int ->
  ~ rate == 0 ->
  length freqs = Z.to_nat nbins /\
  forall i,
    (i < Z.to_nat nbins)%nat ->
    exists v,
      nth_error freqs i = Some v /\
      v == fc + (inject_Z (Z.of_nat i) - inject_Z (nbins / 2)) *
                (rate / inject_Z nbins).
Proof.
  intros Hrun Hns Ht Hrate.
  apply run_spectrum_int_inv in Hrun as (s & w1 & Hint & Hout).
  destruct s as [[f p] c].
  apply spectrum_integrate_ok in Hint as (_ & _ & _ & _ & Hcase).
  pose proof (spectrum_num_loops_pos Hns Ht) as Hpos.
  destruct Hcase as [(Hle & _) | (_ & Hnb & -> & _)]; [lia |].
  unfold spectrum_finish in Hout. inversion Hout; subst freqs p_db.
  split.
  - rewrite recentre_length, fftshift_length. apply fftfreq_length.
    exact Hnb.
  - intros i Hi. eexists. split; [apply axis_nth; assumption |].
    rewrite inject_Z_plus, inject_Z_opp.
    field. split; [apply inject_Z_nonzero; lia | exact Hrate].
Qed.

Lemma np_mul_not_finite_l x y :
  np_is_finite x = false -> np_is_finite (np_mul x y) = false.
Proof.
  destruct x as [a | | |], y as [b | | |]; simpl; try discriminate;
    try reflexivity; intros _; destruct (b ?= 0); reflexivity.
Qed.

Lemma np_div_not_finite_l x r :
  np_is_finite x = false -> np_is_finite (np_div x (Fin r)) = false.
Proof.
  destruct x as [a | | |]; simpl; try discriminate; try reflexivity;
    intros _; destruct (r ?= 0); reflexivity.
Qed.

Lemma db_not_finite log10 x :
  np_is_finite x = false ->
  np_is_finite (np_mul (Fin 10) (np_log10 log10 x)) = false.
Proof.
  destruct x as [a | | |]; simpl; try discriminate; reflexivity.
Qed.

Lemma np_div_zero_not_finite x :
  np_is_finite (np_div x (Fin (inject_Z 0))) = false.
Proof.
  destruct x as [q | | |]; simpl; try reflexivity.
  destruct (q ?= 0); reflexivity.
Qed.

(** X10.  A spectrum run whose integration time covers less than one
    block ([0 <= rate * t_int < num_samp], the product in double
    precision, for a block length up to [2^53]) reads one block and
    divides its periodogram by the counter zero: when it returns, it
    returns [nbins] values none of which is a finite number. *)
Theorem spectrum_short_integration_not_finite
        (feed : Q -> nat -> complex)
        (periodogram : list complex -> Q -> Z -> Z -> list Q)
        (get_window : Z -> list Q) (log10 : Q -> Q)
        (num_samp nbins : Z) (gain rate fc t_int : Q)
        (w : world) (freqs : list Q) (p_db : list npfloat) (w' : world) :
  run_spectrum_int feed periodogram get_window log10 num_samp nbins gain
                   rate fc t_int w = (Ok (freqs, p_db), w') ->
  (0 < num_samp)%Z ->
  (num_samp <= 2 ^ 53)%Z ->
  0 <= rate * t_int ->
  fl (rate * t_int) < inject_Z num_samp ->
  (0 < length p_db)%nat /\
  length p_db = Z.to_nat nbins /\
  w_log w' =
  w_log w ++ [EvOpen; EvSetRate rate; EvSetFc fc; EvSetGain gain] ++
        spectrum_turn_log num_samp nbins rate ++ [EvClose; EvClose] /\
  Forall (fun x => np_is_finite x = false) p_db.
Proof.
  intros Hrun Hns Hbig Hlo Hhi.
  apply run_spectrum_int_inv in Hrun as Hinv.
  destruct Hinv as (s & w1 & Hint & Hout).
  destruct s as [[f p] c].
  apply spectrum_integrate_ok in Hint as Hok.
  destruct Hok as (_ & _ & Hlen & Hlog & Hcase).
  assert (Hlo' : 0 <= fl (rate * t_int)) by (apply fl_nonneg; exact Hlo).
  assert (HN : (0 <= py_int (fl (rate * t_int)) < num_samp)%Z).
  { split; [apply py_int_ge0; exact Hlo' |].
    rewrite (py_int_nonneg Hlo'). rewrite Zlt_Qlt.
    eapply Qle_lt_trans; [apply Qfloor_le | exact Hhi]. }
  assert (Hone : (py_int (fl (inject_Z (py_int (fl (rate * t_int))) /
                              inject_Z num_samp)) + 1 = 1)%Z).
  { assert (Hq : 0 <= inject_Z (py_int (fl (rate * t_int))) /
                      inject_Z num_samp).
    { apply Qle_shift_div_l.
      - change 0 with (inject_Z 0). rewrite <- Zlt_Qlt. exact Hns.
      - rewrite Qmult_0_l. change 0 with (inject_Z 0). rewrite <- Zle_Qle.
        lia. }
    rewrite (py_int_nonneg (fl_nonneg Hq)).
    rewrite (short_quotient_floor HN Hbig). reflexivity. }
  rewrite Hone in Hcase, Hlog.
  destruct Hcase as [(Hle & _) | (_ & Hnb & _ & Hc)]; [lia |].
  assert (Hc0 : c = 0%Z) by lia. subst c.
  assert (Hp : p_db =
               db_of_psd log10
                 (psd_of_power (get_window (spectrum_nperseg nbins)) rate
                    (spectrum_average (fftshift p) 0))).
  { unfold spectrum_finish in Hout. inversion Hout. reflexivity. }
  clear Hout.
  assert (Hl : length p_db = Z.to_nat nbins).
  { rewrite Hp. unfold db_of_psd, psd_of_power, spectrum_average.
    rewrite !length_map, fftshift_length. exact Hlen. }
  split; [rewrite Hl; lia |]. split; [exact Hl |]. split.
  - unfold run_spectrum_int in Hrun.
    apply bind_ok_inv in Hrun as ([] & w0 & Hopen & Hrun).
    apply try_finally_ok_inv in Hrun as (w2 & Hbody & Hfin).
    apply bind_ok_inv in Hbody as (s' & w3 & Hint' & Hbody).
    unfold opened in Hint. rewrite Hopen in Hint. cbn [snd] in Hint.
    rewrite Hint in Hint'. inversion Hint'; subst s' w3. clear Hint'.
    apply bind_ok_inv in Hbody as (t & w4 & Ht & Hbody).
    apply lift_ok_inv in Ht as [_ ->].
    apply bind_ok_inv in Hbody as ([] & w5 & Hcl & Hbody).
    apply ret_ok_inv in Hbody as [_ ->].
    unfold sdr_close, emit in Hcl, Hfin.
    inversion Hcl; subst w5. inversion Hfin; subst w'. clear Hcl Hfin.
    unfold sdr_open, emit in Hopen. inversion Hopen; subst w0. clear Hopen.
    cbn [w_log]. rewrite Hlog. unfold opened, sdr_open, emit.
    cbn [snd w_log]. change (range 1) with [0%Z]. cbn [flat_map].
    rewrite app_nil_r, <- !app_assoc. reflexivity.
  - rewrite Hp. unfold db_of_psd, psd_of_power, spectrum_average.
    apply Forall_map, Forall_map, Forall_map, Forall_forall. intros x _.
    apply db_not_finite, np_div_not_finite_l, np_mul_not_finite_l.
    apply np_div_zero_not_finite.
Qed.

(** ** The switched run: blocks and tunings *)

Lemma spectrum_average_zeros n :
  spectrum_average (repeat (Fin 0) n) 0 = repeat NaN n.
Proof.
  unfold spectrum_average.
  induction n as [| n IH]; simpl; [reflexivity |]. rewrite IH. reflexivity.
Qed.

(** X13.  A switched run whose blocks are longer than a dwell (the
    length of a dwell, [rate * (1.0 / fswitch)] in double precision, is
    not negative and below [num_samp]) plans no block per dwell: when
    its preparation returns, both averages handed to the fold are NaN in
    every one of their [nbins] bins, and the two axes are constant at
    [fc] and [fthrow]. *)
Theorem fswitch_block_longer_than_dwell
        (feed : Q -> nat -> complex)
        (periodogram : list complex -> Q -> Z -> Z -> list Q)
        (num_samp nbins : Z) (gain rate fc fthrow t_int fswitch : Q)
        (w : world) (a : fold_args) (w1 : world) :
  fswitch_prepare feed periodogram num_samp nbins gain rate fc fthrow t_int
                  fswitch w = (Ok a, w1) ->
  0 <= rate / fswitch ->
  fl (rate * fl (1 / fswitch)) < inject_Z num_samp ->
  fa_p_avg_on a = repeat NaN (Z.to_nat nbins) /\
  fa_p_avg_off a = repeat NaN (Z.to_nat nbins) /\
  fa_freqs_on a = repeat (0 + fc) (Z.to_nat nbins) /\
  fa_freqs_off a = repeat (0 + fthrow) (Z.to_nat nbins).
Proof.
  intros H Hlo Hhi.
  apply fswitch_prepare_inv in H as (s & Hint & ->).
  apply fswitch_integrate_ok in Hint
    as (nl & nd & Hplan & _ & _ & _ & Hcnt & Hcase).
  apply fswitch_plan_ok in Hplan as (Hf & _ & _ & Hl & _).
  pose proof (dwell_nonneg Hf Hlo) as Hd0.
  assert (Hnl : nl = 0%Z).
  { rewrite Hl. rewrite (py_int_nonneg Hd0).
    apply Z.div_small. split.
    - apply (Qfloor_resp_le 0) in Hd0. exact Hd0.
    - rewrite Zlt_Qlt.
      eapply Qle_lt_trans; [apply Qfloor_le | exact Hhi]. }
  cbv zeta in Hcase.
  destruct Hcase as
      [(_ & Hon & Hoff & Hpon & Hpoff) | [(Hpos & _) | (Hpos & _)]];
    try lia.
  assert (Hc : cnt s = 0%Z) by (rewrite Hcnt, Hnl; reflexivity).
  unfold fswitch_finish.
  cbn [fa_freqs_on fa_freqs_off fa_p_avg_on fa_p_avg_off].
  rewrite Hon, Hoff, Hpon, Hpoff, Hc, !fftshift_repeat,
    spectrum_average_zeros.
  unfold recentre. rewrite !map_repeat.
  repeat split.
Qed.

Section SwitchingLog.

Variable feed : Q -> nat -> complex.
Variable periodogram : list complex -> Q -> Z -> Z -> list Q.

(** The calls a successful switching loop logs, dwell by dwell. *)
Lemma fswitch_loop_log num_samp nbins rate fc fthrow num_loops num_dwells
      s w s' w' :
  (num_samp <> 0)%Z ->
  for_each (range num_dwells)
           (fswitch_dwell feed periodogram num_samp nbins rate fc fthrow
                          num_loops) s w = (Ok s', w') ->
  w_log w' =
  w_log w ++
        flat_map (fswitch_dwell_log num_samp nbins rate fc fthrow num_loops)
                 (range num_dwells).
Proof.
  intros Hns H.
  pose (I := fun (visited : list Z) (a : fswitch_acc) (wa : world) =>
               w_log wa =
               w_log w ++
                     flat_map (fswitch_dwell_log num_samp nbins rate fc
                                                 fthrow num_loops) visited).
  apply (for_each_inv I) in H; [exact H | | ].
  - intros visited i rest a wa b wb _ HI Hd. unfold I in *.
    unfold fswitch_dwell in Hd.
    apply bind_ok_inv in Hd as ([] & wt & Htune & Hinner).
    apply fswitch_inner_ok in Hinner as (_ & Hlog & _); [| exact Hns].
    assert (Ht : w_log wt =
                 w_log wa ++
                       [EvSetFc (if (i mod 2 =? 0)%Z then fc else fthrow)]).
    { destruct (i mod 2 =? 0)%Z; unfold sdr_set_fc in Htune;
        inversion Htune; reflexivity. }
    rewrite Hlog, Ht, HI, flat_map_app. cbn [flat_map].
    unfold fswitch_dwell_log. rewrite app_nil_r, <- !app_assoc.
    reflexivity.
  - unfold I. simpl. rewrite app_nil_r. reflexivity.
Qed.

(** The calls a successful switched integration logs. *)
Lemma fswitch_integrate_log num_samp nbins gain rate fc fthrow t_int fswitch
      w s w1 :
  fswitch_integrate feed periodogram num_samp nbins gain rate fc fthrow
                    t_int fswitch w = (Ok s, w1) ->
  exists num_loops num_dwells,
    fswitch_plan num_samp rate t_int fswitch = Ok (num_loops, num_dwells) /\
    w_log w1 =
    w_log w ++ [EvSetRate rate; EvSetFc fc; EvSetGain gain] ++
          flat_map (fswitch_dwell_log num_samp nbins rate fc fthrow
                                      num_loops) (range num_dwells).
Proof.
  intros H. unfold fswitch_integrate in H.
  apply bind_ok_inv in H as ([] & w2 & H1 & H).
  apply bind_ok_inv in H as ([] & w3 & H2 & H).
  apply bind_ok_inv in H as ([] & w4 & H3 & H).
  apply bind_ok_inv in H as (rs & w5 & H4 & H).
  unfold sdr_set_rs in H1. inversion H1; subst w2; clear H1.
  unfold sdr_set_fc in H2. inversion H2; subst w3; clear H2.
  unfold sdr_set_gain in H3. inversion H3; subst w4; clear H3.
  unfold sdr_get_rs in H4. inversion H4; subst rs w5; clear H4.
  simpl w_rs in H.
  apply bind_ok_inv in H as ([num_loops num_dwells] & w6 & Hplan & H).
  apply lift_ok_inv in Hplan as [Hplan ->].
  pose proof (fswitch_plan_ok _ _ _ _ Hplan) as (_ & Hns & _ & _ & _).
  apply bind_ok_inv in H as (f1 & w7 & Hz1 & H).
  apply lift_ok_inv in Hz1 as [_ ->].
  apply bind_ok_inv in H as (f2 & w8 & Hz2 & H).
  apply lift_ok_inv in Hz2 as [_ ->].
  apply bind_ok_inv in H as (p1 & w9 & Hz3 & H).
  apply lift_ok_inv in Hz3 as [_ ->].
  apply bind_ok_inv in H as (p2 & w10 & Hz4 & H).
  apply lift_ok_inv in Hz4 as [_ ->].
  apply fswitch_loop_log in H; [| exact Hns].
  exists num_loops, num_dwells. split; [exact Hplan |].
  rewrite H. cbn [w_log]. rewrite <- !app_assoc. reflexivity.
Qed.

End SwitchingLog.

Lemma reads_at_turns f g num_samp nbins rate rest :
  forall n,
    reads_at f g
             (concat (repeat (fswitch_turn_log num_samp nbins rate) n) ++
                     rest) =
    ((if Qeq_bool g f then n else 0) + reads_at f g rest)%nat.
Proof.
  induction n as [| n IH]; cbn [repeat concat app].
  - destruct (Qeq_bool g f); reflexivity.
  - unfold fswitch_turn_log at 1. cbn [app reads_at]. rewrite IH.
    destruct (Qeq_bool g f); lia.
Qed.

Lemma flat_map_const_concat {A B : Type} (l : list A) (x : list B) :
  flat_map (fun _ => x) l = concat (repeat x (length l)).
Proof.
  induction l as [| a l IH]; simpl; [reflexivity |]. rewrite IH. reflexivity.
Qed.

(** The reads at [fc] and at [fthrow] in [n] dwells from index [k] on. *)
Lemma reads_at_dwells num_samp nbins rate fc fthrow num_loops :
  ~ fc == fthrow ->
  forall n k t,
    let dwells :=
      flat_map (fswitch_dwell_log num_samp nbins rate fc fthrow num_loops)
               (map (fun i => (k + Z.of_nat i)%Z) (seq 0 n)) in
    let nl := Z.to_nat num_loops in
    reads_at fc t dwells =
    (nl * (if (k mod 2 =? 0)%Z then (n + 1) / 2 else n / 2))%nat /\
    reads_at fthrow t dwells =
    (nl * (if (k mod 2 =? 0)%Z then n / 2 else (n + 1) / 2))%nat.
Proof.
  intros Hne.
  assert (Hcf : Qeq_bool fc fthrow = false).
  { destruct (Qeq_bool fc fthrow) eqn:E; [| reflexivity].
    apply Qeq_bool_eq in E. contradiction. }
  assert (Hfc : Qeq_bool fthrow fc = false)
    by (rewrite Qeq_bool_comm; exact Hcf).
  induction n as [| n IH]; intros k t; cbv zeta.
  - simpl. destruct (k mod 2 =? 0)%Z; rewrite !Nat.mul_0_r; split;
      reflexivity.
  - rewrite <- cons_seq, <- seq_shift. cbn [map flat_map].
    rewrite map_map, Z.add_0_r.
    assert (Hl : map (fun x => (k + Z.of_nat (S x))%Z) (seq 0 n) =
                 map (fun i => (k + 1 + Z.of_nat i)%Z) (seq 0 n))
      by (apply map_ext; intros; lia).
    rewrite Hl. unfold fswitch_dwell_log at 1 3.
    cbn [app reads_at]. rewrite flat_map_const_concat, range_length.
    rewrite !reads_at_turns.
    destruct (IH (k + 1)%Z (if (k mod 2 =? 0)%Z then fc else fthrow))
      as [IHc IHt].
    cbv zeta in IHc, IHt. rewrite IHc, IHt.
    pose proof (sched_of_tick_step k) as Hflip.
    pose proof (Nat.div_mod_eq n 2) as E0.
    pose proof (Nat.mod_upper_bound n 2 ltac:(lia)) as B0.
    pose proof (Nat.div_mod_eq (n + 1) 2) as E1.
    pose proof (Nat.mod_upper_bound (n + 1) 2 ltac:(lia)) as B1.
    pose proof (Nat.div_mod_eq (S n + 1) 2) as E2.
    pose proof (Nat.mod_upper_bound (S n + 1) 2 ltac:(lia)) as B2.
    pose proof (Nat.div_mod_eq (S n) 2) as E3.
    pose proof (Nat.mod_upper_bound (S n) 2 ltac:(lia)) as B3.
    assert (H2 : ((S n + 1) / 2 = n / 2 + 1)%nat) by lia.
    assert (H3 : (S n / 2 = (n + 1) / 2)%nat)
      by (replace (S n) with (n + 1)%nat by lia; reflexivity).
    destruct (k mod 2 =? 0)%Z, ((k + 1) mod 2 =? 0)%Z;
      simpl in Hflip; try discriminate Hflip;
      rewrite ?Qeq_bool_refl, ?Hcf, ?Hfc, ?H2, ?H3; split; lia.
Qed.

(** X12.  With two distinct tunings, the calls logged by a switched run
    that gets as far as the fold show [num_loops] blocks read in every
    dwell at [fc] and in every dwell at [fthrow]: of the [num_dwells]
    dwells the larger half is spent at [fc], so the two tunings are read
    equally often when [num_dwells] is even and [fc] gets one dwell more
    when it is odd. *)
Theorem switching_reads_partition
        (feed : Q -> nat -> complex)
        (periodogram : list complex -> Q -> Z -> Z -> list Q)
        (num_samp nbins : Z) (gain rate fc fthrow t_int fswitch : Q)
        (w : world) (a : fold_args) (w1 : world) :
  fswitch_prepare feed periodogram num_samp nbins gain rate fc fthrow t_int
                  fswitch w = (Ok a, w1) ->
  ~ fc == fthrow ->
  exists num_loops num_dwells calls,
    fswitch_plan num_samp rate t_int fswitch = Ok (num_loops, num_dwells) /\
    w_log w1 = w_log w ++ calls /\
    let nl := Z.to_nat num_loops in
    let nd := Z.to_nat num_dwells in
    reads_at fc (w_fc w) calls = (nl * ((nd + 1) / 2))%nat /\
    reads_at fthrow (w_fc w) calls = (nl * (nd / 2))%nat /\
    (reads_at fthrow (w_fc w) calls <= reads_at fc (w_fc w) calls
     <= reads_at fthrow (w_fc w) calls + nl)%nat.
Proof.
  intros H Hne.
  apply fswitch_prepare_inv in H as (s & Hint & _).
  apply fswitch_integrate_log in Hint as (nl & nd & Hplan & Hlog).
  exists nl, nd. eexists. split; [exact Hplan |].
  split; [exact Hlog |]. cbv zeta. cbn [app reads_at].
  unfold range, arange. rewrite Z.sub_0_r.
  destruct (@reads_at_dwells num_samp nbins rate fc fthrow nl Hne
                             (Z.to_nat nd) 0%Z fc) as [Hc Ht].
  cbv zeta in Hc, Ht. change (0 mod 2 =? 0)%Z with true in Hc, Ht.
  rewrite Hc, Ht.
  split; [reflexivity |]. split; [reflexivity |].
  pose proof (Nat.div_mod_eq (Z.to_nat nd) 2) as E0.
  pose proof (Nat.mod_upper_bound (Z.to_nat nd) 2 ltac:(lia)) as B0.
  pose proof (Nat.div_mod_eq (Z.to_nat nd + 1) 2) as E1.
  pose proof (Nat.mod_upper_bound (Z.to_nat nd + 1) 2 ltac:(lia)) as B1.
  nia.
Qed.

(** ** Saving the result of a spectrum run *)


Section SaveSpectrum.

Variable feed : Q -> nat -> complex.
Variable periodogram : list complex -> Q -> Z -> Z -> list Q.
Variable get_window : Z -> list Q.
Variable log10 : Q -> Q.


End SaveSpectrum.


(** ** The further properties on the bench *)

Lemma total_power_is_mean_power_witness :
  (0 < 4)%Z /\ ~ 8 == 0 /\ inject_Z 4 <= fl (8 * 1) /\
  exists v w',
    run_total_power_int Bench.feed 4 0 8 100 1 world0 =
    (Ok (NpFloat64 (Fin v)), w') /\
    v == 1 /\
    w_log w' =
    [EvOpen; EvSetRate 8; EvSetFc 100; EvSetGain 0; EvRead 4; EvRead 4;
     EvRead 4; EvClose; EvClose].
Proof.
  assert (H0 : (0 < 4)%Z) by reflexivity.
  assert (H1 : ~ 8 == 0) by (intros H; discriminate H).
  assert (H2 : inject_Z 4 <= fl (8 * 1))
    by (vm_compute; intros H; discriminate H).
  split; [exact H0 |]. split; [exact H1 |]. split; [exact H2 |].
  pose proof (@total_power_is_mean_power Bench.feed 4 0 8 100 1 world0
                                         H0 H1 H2) as H.
  cbv zeta in H. destruct H as (v & w' & Hrun & _ & Hv & Hlog).
  exists v, w'. split; [exact Hrun |]. split.
  - eapply Qeq_trans; [exact Hv |]. vm_compute. reflexivity.
  - rewrite Hlog. reflexivity.
Defined.

Lemma run_total_power_int_constant_power_witness :
  (forall f i, re (Bench.feed f i) ^ 2 + im (Bench.feed f i) ^ 2 == 1) /\
  (0 < 4)%Z /\ ~ 8 == 0 /\ inject_Z 4 <= fl (8 * 1) /\
  exists v w',
    run_total_power_int Bench.feed 4 0 8 100 1 world0 =
    (Ok (NpFloat64 (Fin v)), w') /\
    v == 1.
Proof.
  assert (Hk : forall f i,
             re (Bench.feed f i) ^ 2 + im (Bench.feed f i) ^ 2 == 1)
    by (intros f i; reflexivity).
  assert (H0 : (0 < 4)%Z) by reflexivity.
  assert (H1 : ~ 8 == 0) by (intros H; discriminate H).
  assert (H2 : inject_Z 4 <= fl (8 * 1))
    by (vm_compute; intros H; discriminate H).
  split; [exact Hk |]. split; [exact H0 |]. split; [exact H1 |].
  split; [exact H2 |].
  exact (@run_total_power_int_constant_power Bench.feed 1 4 0 8 100 1
                                             world0 Hk H0 H1 H2).
Defined.

Lemma total_power_scales_quadratically_witness :
  (0 < 4)%Z /\ ~ 8 == 0 /\ inject_Z 4 <= fl (8 * 1) /\
  exists v v' w1 w2,
    run_total_power_int Bench.feed 4 0 8 100 1 world0 =
    (Ok (NpFloat64 (Fin v)), w1) /\
    run_total_power_int (fun f k => c_scale 3 (Bench.feed f k)) 4 0 8 100 1
                        world0 = (Ok (NpFloat64 (Fin v')), w2) /\
    v' == 3 ^ 2 * v /\
    w_log w2 = w_log w1.
Proof.
  assert (H0 : (0 < 4)%Z) by reflexivity.
  assert (H1 : ~ 8 == 0) by (intros H; discriminate H).
  assert (H2 : inject_Z 4 <= fl (8 * 1))
    by (vm_compute; intros H; discriminate H).
  split; [exact H0 |]. split; [exact H1 |]. split; [exact H2 |].
  exact (@total_power_scales_quadratically Bench.feed 3 4 0 8 100 1 world0
                                           H0 H1 H2).
Defined.

Lemma total_power_short_integration_raises_witness :
  (0 < 4)%Z /\ (4 <= 2 ^ 53)%Z /\ 0 <= fl (8 * (1 # 4)) /\
  fl (8 * (1 # 4)) < inject_Z 4 /\
  exists w',
    run_total_power_int Bench.feed 4 0 8 100 (1 # 4) world0 =
    (Raise ZeroDivisionError, w') /\
    w_log w' =
    [EvOpen; EvSetRate 8; EvSetFc 100; EvSetGain 0; EvRead 4; EvClose].
Proof.
  assert (H0 : (0 < 4)%Z) by reflexivity.
  assert (H1 : (4 <= 2 ^ 53)%Z) by (vm_compute; discriminate).
  assert (H2 : 0 <= fl (8 * (1 # 4)))
    by (vm_compute; intros H; discriminate H).
  assert (H3 : fl (8 * (1 # 4)) < inject_Z 4) by (vm_compute; reflexivity).
  split; [exact H0 |]. split; [exact H1 |]. split; [exact H2 |].
  split; [exact H3 |].
  exact (@total_power_short_integration_raises Bench.feed 4 0 8 100 (1 # 4)
                                               world0 H0 H1 H2 H3).
Defined.

Lemma total_power_order_independent_witness :
  exists v v',
    total_power_average 1 (accumulate [[mkC 1 0]; [mkC 0 2]]
                                      (PyFloat 0, 0%Z)) =
    Ok (NpFloat64 (Fin v)) /\
    total_power_average 1 (accumulate [[mkC 0 2]; [mkC 1 0]]
                                      (PyFloat 0, 0%Z)) =
    Ok (NpFloat64 (Fin v')) /\
    snd (accumulate [[mkC 1 0]; [mkC 0 2]] (PyFloat 0, 0%Z)) =
    snd (accumulate [[mkC 0 2]; [mkC 1 0]] (PyFloat 0, 0%Z)) /\
    v == v'.
Proof.
  assert (H0 : (1 <> 0)%Z) by discriminate.
  assert (H1 : [[mkC 1 0]; [mkC 0 2]] <> []) by discriminate.
  exact (@total_power_order_independent
           1 [[mkC 1 0]; [mkC 0 2]] [[mkC 0 2]; [mkC 1 0]] H0 H1
           (perm_swap _ _ _)).
Defined.

Lemma zero_block_length_raises_witness :
  fswitch_check (1 # 2) 10 = Ok tt /\
  exists w',
    run_fswitch_int Bench.feed Bench.periodogram Bench.f_throw_fold 0 4 0 80
                    100 110 (1 # 2) 10 world0 =
    (Raise ZeroDivisionError, w') /\
    w_log w' = configured_log world0 0 80 100.
Proof.
  assert (Hchk : fswitch_check (1 # 2) 10 = Ok tt) by reflexivity.
  split; [exact Hchk |].
  destruct (zero_block_length_raises
              Bench.feed Bench.periodogram Bench.get_window Bench.log10
              Bench.f_throw_fold 4 0 80 100 110 (1 # 2) 10 world0)
    as (_ & _ & H).
  exact (H Hchk).
Defined.

Lemma fswitch_rate_below_switching_raises_witness :
  fswitch_check 1 10 = Ok tt /\ 0 <= 5 / 10 /\
  fl (5 * fl (1 / 10)) < 1 /\
  exists w',
    run_fswitch_int Bench.feed Bench.periodogram Bench.f_throw_fold 4 4 0 5
                    100 110 1 10 world0 = (Raise ZeroDivisionError, w') /\
    w_log w' = configured_log world0 0 5 100.
Proof.
  assert (Hchk : fswitch_check 1 10 = Ok tt) by (vm_compute; reflexivity).
  assert (H0 : 0 <= 5 / 10) by (intros H; discriminate H).
  assert (H1 : fl (5 * fl (1 / 10)) < 1) by (vm_compute; reflexivity).
  split; [exact Hchk |]. split; [exact H0 |]. split; [exact H1 |].
  exact (@fswitch_rate_below_switching_raises
           Bench.feed Bench.periodogram Bench.f_throw_fold 4 4 0 5 100 110
           1 10 world0 Hchk H0 H1).
Defined.

Lemma fswitch_admission_witness :
  run_fswitch_int Bench.feed Bench.periodogram Bench.f_throw_fold 4 4 0 80
                  100 110 (1 # 2) 0 world0 =
  (Raise ZeroDivisionError, world0) /\
  ~ 10 == 0 /\ is_double (1 # 2) /\ 2 / 10 <= 1 # 2 /\
  fswitch_check (1 # 2) 10 = Ok tt /\
  let out := run_fswitch_int Bench.feed Bench.periodogram Bench.f_throw_fold
                             4 4 0 80 100 110 (1 # 2) 10 world0 in
  released world0 (snd out) (is_ok (fst out)).
Proof.
  assert (Hz : 0 == 0) by reflexivity.
  assert (H0 : ~ 10 == 0) by (intros H; discriminate H).
  assert (Hd : is_double (1 # 2)) by (vm_compute; reflexivity).
  assert (H1 : 2 / 10 <= 1 # 2) by (intros H; discriminate H).
  split.
  - pose proof (fswitch_admission
                  Bench.feed Bench.periodogram Bench.f_throw_fold 4 4 0 80
                  100 110 (1 # 2) 0 world0) as H.
    cbv zeta in H. destruct H as [H _]. exact (H Hz).
  - split; [exact H0 |]. split; [exact Hd |]. split; [exact H1 |].
    pose proof (fswitch_admission
                  Bench.feed Bench.periodogram Bench.f_throw_fold 4 4 0 80
                  100 110 (1 # 2) 10 world0) as H.
    cbv zeta in H. destruct H as [_ H]. exact (H H0 Hd H1).
Defined.

Lemma negative_bin_count_raises_witness :
  (-1 < 0)%Z /\ (4 <> 0)%Z /\
  fswitch_check (1 # 2) 10 = Ok tt /\
  fswitch_plan 4 80 (1 # 2) 10 = Ok (2%Z, 5%Z) /\
  (exists w',
      run_spectrum_int Bench.feed Bench.periodogram Bench.get_window
                       Bench.log10 4 (-1) 0 8 100 1 world0 =
      (Raise ValueError, w') /\
      w_log w' = configured_log world0 0 8 100) /\
  (exists w',
      run_fswitch_int Bench.feed Bench.periodogram Bench.f_throw_fold 4 (-1)
                      0 80 100 110 (1 # 2) 10 world0 =
      (Raise ValueError, w') /\
      w_log w' = configured_log world0 0 80 100).
Proof.
  assert (H0 : (-1 < 0)%Z) by reflexivity.
  assert (H1 : (4 <> 0)%Z) by discriminate.
  assert (Hchk : fswitch_check (1 # 2) 10 = Ok tt) by reflexivity.
  assert (Hplan : fswitch_plan 4 80 (1 # 2) 10 = Ok (2%Z, 5%Z))
    by reflexivity.
  split; [exact H0 |]. split; [exact H1 |]. split; [exact Hchk |].
  split; [exact Hplan |]. split.
  - destruct (@negative_bin_count_raises
                Bench.feed Bench.periodogram Bench.get_window Bench.log10
                Bench.f_throw_fold 4 (-1) 0 8 100 110 1 10 world0 H0 H1)
      as [H _].
    exact H.
  - destruct (@negative_bin_count_raises
                Bench.feed Bench.periodogram Bench.get_window Bench.log10
                Bench.f_throw_fold 4 (-1) 0 80 100 110 (1 # 2) 10 world0
                H0 H1)
      as [_ H].
    exact (H _ Hchk Hplan).
Defined.

Lemma bench_periodogram_length x fs nperseg nfft :
  length (Bench.periodogram x fs nperseg nfft) = Z.to_nat nfft.
Proof. apply repeat_length. Qed.

Lemma spectrum_run_returns_witness :
  (0 < 4)%Z /\ ~ 8 == 0 /\
  exists freqs p_db w',
    run_spectrum_int Bench.feed Bench.periodogram Bench.get_window
                     Bench.log10 4 4 0 8 100 1 world0 =
    (Ok (freqs, p_db), w') /\
    length freqs = 4%nat /\
    length p_db = 4%nat /\
    w_log w' =
    [EvOpen; EvSetRate 8; EvSetFc 100; EvSetGain 0] ++
      concat (repeat (spectrum_turn_log 4 4 8) 3) ++ [EvClose; EvClose] /\
    w_pos w' = 12%nat.
Proof.
  assert (H0 : (0 < 4)%Z) by reflexivity.
  assert (H1 : ~ 8 == 0) by (intros H; discriminate H).
  split; [exact H0 |]. split; [exact H1 |].
  exact (@spectrum_run_returns
           Bench.feed Bench.periodogram Bench.get_window Bench.log10 4 4 0
           8 100 1 world0 H0 H0 H1 bench_periodogram_length).
Defined.

Lemma spectrum_accumulates_periodograms_witness :
  (0 < 4)%Z /\ ~ 8 == 0 /\
  exists f p c w1,
    spectrum_integrate Bench.feed Bench.periodogram 4 4 0 8 100 1 world0 =
    (Ok (f, p, c), w1) /\
    forall i, (i < 4)%nat -> exists v, nth_error p i = Some (Fin v) /\ v == 3.
Proof.
  assert (H0 : (0 < 4)%Z) by reflexivity.
  assert (H1 : ~ 8 == 0) by (intros H; discriminate H).
  split; [exact H0 |]. split; [exact H1 |].
  pose proof (@spectrum_accumulates_periodograms
                Bench.feed Bench.periodogram 4 4 0 8 100 1 world0 H0 H0 H1
                bench_periodogram_length) as H.
  cbv zeta in H. destruct H as (f & p & c & w1 & Hrun & _ & Hnth).
  exists f, p, c, w1. split; [exact Hrun |].
  intros i Hi. eexists. split; [apply Hnth; exact Hi |].
  destruct i as [| [| [| [| i]]]]; [reflexivity .. | lia].
Defined.

Lemma spectrum_axis_values_witness :
  (0 < 4)%Z /\ 0 <= 8 * 1 /\ ~ 8 == 0 /\
  exists freqs p_db w',
    run_spectrum_int Bench.feed Bench.periodogram Bench.get_window
                     Bench.log10 4 4 0 8 100 1 world0 =
    (Ok (freqs, p_db), w') /\
    length freqs = 4%nat /\
    exists v, nth_error freqs 0 = Some v /\ v == 96.
Proof.
  assert (H0 : (0 < 4)%Z) by reflexivity.
  assert (H1 : 0 <= 8 * 1) by (intros H; discriminate H).
  assert (H2 : ~ 8 == 0) by (intros H; discriminate H).
  split; [exact H0 |]. split; [exact H1 |]. split; [exact H2 |].
  do 3 eexists.
  assert (Hrun : run_spectrum_int Bench.feed Bench.periodogram
                                  Bench.get_window Bench.log10 4 4 0 8 100 1
                                  world0 =
                 (Ok (?[freqs], ?[p_db]), ?[w']))
    by (vm_compute; reflexivity).
  split; [exact Hrun |].
  destruct (@spectrum_axis_values _ _ _ _ _ _ _ _ _ _ _ _ _ _
                                  Hrun H0 H1 H2) as [Hlen Hax].
  split; [exact Hlen |].
  destruct (Hax 0%nat ltac:(vm_compute; lia)) as (v & Hv & Hval).
  exists v. split; [exact Hv |].
  eapply Qeq_trans; [exact Hval |]. reflexivity.
Defined.

Lemma spectrum_short_integration_not_finite_witness :
  (0 < 4)%Z /\ (4 <= 2 ^ 53)%Z /\ 0 <= 8 * (1 # 4) /\
  fl (8 * (1 # 4)) < inject_Z 4 /\
  exists freqs p_db w',
    run_spectrum_int Bench.feed Bench.periodogram Bench.get_window
                     Bench.log10 4 4 0 8 100 (1 # 4) world0 =
    (Ok (freqs, p_db), w') /\
    length p_db = 4%nat /\
    Forall (fun x => np_is_finite x = false) p_db.
Proof.
  assert (H0 : (0 < 4)%Z) by reflexivity.
  assert (Hb : (4 <= 2 ^ 53)%Z) by (vm_compute; discriminate).
  assert (H1 : 0 <= 8 * (1 # 4)) by (intros H; discriminate H).
  assert (H2 : fl (8 * (1 # 4)) < inject_Z 4) by (vm_compute; reflexivity).
  split; [exact H0 |]. split; [exact Hb |]. split; [exact H1 |].
  split; [exact H2 |].
  do 3 eexists.
  assert (Hrun : run_spectrum_int Bench.feed Bench.periodogram
                                  Bench.get_window Bench.log10 4 4 0 8 100
                                  (1 # 4) world0 =
                 (Ok (?[freqs], ?[p_db]), ?[w']))
    by (vm_compute; reflexivity).
  split; [exact Hrun |].
  destruct (@spectrum_short_integration_not_finite
              _ _ _ _ _ _ _ _ _ _ _ _ _ _ Hrun H0 Hb H1 H2)
    as (_ & Hlen & _ & Hall).
  split; [exact Hlen | exact Hall].
Defined.

Lemma switching_reads_partition_witness :
  ~ 100 == 110 /\
  exists a w1 calls,
    fswitch_prepare Bench.feed Bench.periodogram 4 4 0 80 100 110 (1 # 2) 10
                    (opened world0) = (Ok a, w1) /\
    w_log w1 = w_log (opened world0) ++ calls /\
    reads_at 100 (w_fc (opened world0)) calls = 6%nat /\
    reads_at 110 (w_fc (opened world0)) calls = 4%nat.
Proof.
  assert (H0 : ~ 100 == 110) by (intros H; discriminate H).
  split; [exact H0 |].
  assert (Hrun : fswitch_prepare Bench.feed Bench.periodogram 4 4 0 80 100
                                 110 (1 # 2) 10 (opened world0) =
                 (Ok ?[a], ?[w1]))
    by (vm_compute; reflexivity).
  destruct (@switching_reads_partition _ _ _ _ _ _ _ _ _ _ _ _ _
                                       Hrun H0)
    as (nl & nd & calls & Hplan & Hlog & Hc).
  cbv zeta in Hc. destruct Hc as (Hon & Hoff & _).
  assert (E : (nl, nd) = (2%Z, 5%Z)).
  { assert (Hp : fswitch_plan 4 80 (1 # 2) 10 = Ok (2%Z, 5%Z))
      by reflexivity.
    rewrite Hp in Hplan. inversion Hplan. reflexivity. }
  inversion E; subst nl nd.
  do 2 eexists. exists calls.
  split; [exact Hrun |]. split; [exact Hlog |].
  split; [exact Hon | exact Hoff].
Defined.

Lemma fswitch_block_longer_than_dwell_witness :
  0 <= 1000 / 10 /\ fl (1000 * fl (1 / 10)) < inject_Z 1024 /\
  exists a w1,
    fswitch_prepare Bench.feed Bench.periodogram 1024 4 0 1000 100 110 1 10
                    (opened world0) = (Ok a, w1) /\
    fa_p_avg_on a = [NaN; NaN; NaN; NaN] /\
    fa_p_avg_off a = [NaN; NaN; NaN; NaN].
Proof.
  assert (H0 : 0 <= 1000 / 10) by (intros H; discriminate H).
  assert (H1 : fl (1000 * fl (1 / 10)) < inject_Z 1024)
    by (vm_compute; reflexivity).
  split; [exact H0 |]. split; [exact H1 |].
  do 2 eexists.
  assert (Hrun : fswitch_prepare Bench.feed Bench.periodogram 1024 4 0 1000
                                 100 110 1 10 (opened world0) =
                 (Ok ?[a], ?[w1]))
    by (vm_compute; reflexivity).
  split; [exact Hrun |].
  destruct (@fswitch_block_longer_than_dwell _ _ _ _ _ _ _ _ _ _ _ _ _
                                             Hrun H0 H1)
    as (Hon & Hoff & _).
  split; [exact Hon | exact Hoff].
Defined.

